(** * PlotJuggler ingestion cores: a shallow embedding

    This development embeds, function by function, the parts of the
    PlotJuggler plugins that the ingestion specification talks about:

    - [StringSeries]  : plotjuggler_base/include/PlotJuggler/stringseries.h
    - [CSV]           : plotjuggler_plugins/DataLoadCSV/csv_parser.cpp
    - [Ws]            : plotjuggler_plugins/DataStreamWebsocketBridge/websocket_client.cpp
    - [WsConfig]      : plotjuggler_plugins/DataStreamWebsocketBridge/websocket_client_config.cpp
    - [WsDialog]      : plotjuggler_plugins/DataStreamWebsocketBridge/websocket_dialog.cpp

    [CSV] also holds what plotjuggler_plugins/DataLoadCSV/dataload_csv.cpp
    does around the parser: the header check, the delimiter of the dialog,
    the configuration it builds and the time axis it stores.

    C++ [std::string] is [string]; [char] is [ascii]; [std::vector] is [list];
    [std::unordered_map], [QHash] and [std::set] are stdpp's [gmap] / [gset];
    unsigned machine integers are [Z] or [N] with the wrap-around written out. *)

From Stdlib Require Import ZArith Lia List Bool Ascii String DecimalString.
From Stdlib Require Import Strings.Byte.
From Stdlib Require DecimalNat.
From stdpp Require Import base decidable option list gmap strings.

Import ListNotations.
Local Open Scope string_scope.
Local Open Scope list_scope.

(* ===================================================================== *)
(** * StringSeries (stringseries.h, string_dict_index.h)                  *)
(* ===================================================================== *)

Module StringSeries.

(** [struct StringDictIndex { uint32_t index; }]. *)
Record StringDictIndex := mkIdx { index : N }.

Definition uint32_max : N := 4294967295.
Definition INVALID : N := uint32_max.

Definition default_index : StringDictIndex := mkIdx INVALID.

Definition isValid (i : StringDictIndex) : bool := negb (N.eqb (index i) INVALID).

(** [StringRef] (string_ref_sso.h is not part of the sources at hand): only
    [data()] and [size()] are used.  [sr_data = None] is the null pointer;
    otherwise it is the buffer the reference points into. *)
Record StringRef := mkRef { sr_data : option string; sr_size : nat }.

(** [std::string_view(str.data(), str.size())]. *)
Definition string_view (buf : string) (n : nat) : string := substring 0 n buf.

Section Series.

(** Timestamps are C++ [double]s; nothing below computes with them. *)
Variable double : Type.

(** The base-class part of the object ([TimeseriesBase<StringDictIndex>],
    timeseries.h) and its [pushBack]. *)
Variable Base : Type.
Variable base_pushBack : double * StringDictIndex -> Base -> Base.

Record StringSeries := mkSeries {
  base : Base;
  _tmp_str : string;
  _index_to_string : list string;
  _string_to_index : gmap string N
}.

(** [StringDictIndex internString(std::string_view str)]. *)
Definition internString (str : string) (s : StringSeries)
  : StringDictIndex * StringSeries :=
  let s1 := mkSeries (base s) str (_index_to_string s) (_string_to_index s) in
  match _string_to_index s1 !! str with
  | Some i => (mkIdx i, s1)
  | None =>
      let new_index := (N.of_nat (length (_index_to_string s1)) mod 2 ^ 32)%N in
      (mkIdx new_index,
       mkSeries (base s1) str
                (_index_to_string s1 ++ [str])
                (<[str := new_index]> (_string_to_index s1)))
  end.

(** [void pushBack(std::pair<double, StringRef> p)]. *)
Definition pushBack (p : double * StringRef) (s : StringSeries) : StringSeries :=
  let str := snd p in
  match sr_data str with
  | None => s
  | Some buf =>
      if Nat.eqb (sr_size str) 0 then s
      else
        let '(idx, s1) := internString (string_view buf (sr_size str)) s in
        mkSeries (base_pushBack (fst p, idx) (base s1)) (_tmp_str s1)
                 (_index_to_string s1) (_string_to_index s1)
  end.

(** [std::string_view getString(StringDictIndex idx) const]. *)
Definition getString (idx : StringDictIndex) (s : StringSeries) : string :=
  if negb (isValid idx) || Nat.leb (length (_index_to_string s)) (N.to_nat (index idx))
  then ""
  else nth (N.to_nat (index idx)) (_index_to_string s) "".

(** Interning a string that is already in the dictionary leaves both
    directions of the dictionary as they were. *)
Lemma internString_known str i s :
  _string_to_index s !! str = Some i ->
  fst (internString str s) = mkIdx i /\
  _index_to_string (snd (internString str s)) = _index_to_string s /\
  _string_to_index (snd (internString str s)) = _string_to_index s.
Proof.
  intros Hl. unfold internString. cbn [_string_to_index _index_to_string].
  rewrite Hl. cbn. auto.
Qed.

(** A string that is new gets the next free index and is appended. *)
Lemma internString_fresh str s :
  _string_to_index s !! str = None ->
  _index_to_string (snd (internString str s)) = _index_to_string s ++ [str] /\
  _string_to_index (snd (internString str s)) !! str
    = Some (index (fst (internString str s))).
Proof.
  intros Hl. unfold internString. cbn [_string_to_index _index_to_string].
  rewrite Hl. cbn. split; [reflexivity|]. apply lookup_insert_eq.
Qed.

(** A non-empty reference does reach the base class: the early return is
    the only path that skips [TimeseriesBase::pushBack]. *)
Lemma pushBack_nonempty_base t buf n s :
  n <> 0 ->
  exists idx,
    base (pushBack (t, mkRef (Some buf) n) s) = base_pushBack (t, idx) (base s).
Proof.
  intros Hn. unfold pushBack. cbn [snd fst sr_data sr_size].
  destruct (Nat.eqb_spec n 0) as [->|_]; [congruence|].
  unfold internString. cbn [_string_to_index _index_to_string base].
  destruct (_string_to_index s !! string_view buf n); cbn; eauto.
Qed.

(** C10. For every timestamp [t] and string reference [sref], if the
    reference's data pointer is null or its size is zero, then
    [StringSeries::pushBack] called with the pair [(t, sref)] returns the
    series exactly as it was: the base points, the scratch string and both
    directions of the dictionary are untouched. *)
Theorem pushBack_empty_unchanged (t : double) (sref : StringRef) (s : StringSeries) :
  sr_data sref = None \/ sr_size sref = 0 ->
  pushBack (t, sref) s = s.
Proof.
  intros [Hnull | Hzero]; unfold pushBack; cbn [snd].
  - now rewrite Hnull.
  - rewrite Hzero. destruct (sr_data sref); reflexivity.
Qed.

(* --------------------------------------------------------------------- *)
(** ** The dictionary as a whole                                          *)
(* --------------------------------------------------------------------- *)

(** [void clear()]: both directions of the dictionary are emptied, then
    the base class is cleared; the scratch string is left alone. *)
Variable base_clear : Base -> Base.

Definition clear (s : StringSeries) : StringSeries :=
  mkSeries (base_clear (base s)) (_tmp_str s) [] ∅.

(** The two directions of the dictionary describe the same pairing: an
    index stored for a string is the position of that string, and every
    position is the index stored for its string. *)
Record consistent (s : StringSeries) : Prop := {
  index_of_string : forall str i,
    _string_to_index s !! str = Some i ->
    _index_to_string s !! N.to_nat i = Some str;
  string_of_index : forall k str,
    _index_to_string s !! k = Some str ->
    _string_to_index s !! str = Some (N.of_nat k)
}.

(** The next free position is still a valid index: it is below
    [StringDictIndex::INVALID], the largest [uint32_t]. *)
Definition has_room (s : StringSeries) : Prop :=
  (N.of_nat (length (_index_to_string s)) < INVALID)%N.

Lemma clear_consistent s : consistent (clear s).
Proof.
  split; cbn; intros ? ? H.
  - rewrite lookup_empty in H. discriminate.
  - rewrite lookup_nil in H. discriminate.
Qed.

Lemma next_index s :
  has_room s ->
  (N.of_nat (length (_index_to_string s)) mod 2 ^ 32)%N
  = N.of_nat (length (_index_to_string s)).
Proof.
  unfold has_room, INVALID, uint32_max. intros H.
  apply N.mod_small. change (2 ^ 32)%N with 4294967296%N. lia.
Qed.

Lemma internString_consistent str s :
  consistent s -> has_room s -> consistent (snd (internString str s)).
Proof.
  intros [Hm Hl] Hroom. unfold internString.
  cbn [_string_to_index _index_to_string base].
  destruct (_string_to_index s !! str) as [i|] eqn:E; cbn [snd].
  - split; cbn [_string_to_index _index_to_string]; assumption.
  - rewrite (next_index s Hroom).
    split; cbn [_string_to_index _index_to_string].
    + intros str' i. destruct (decide (str = str')) as [<-|Hne].
      * rewrite lookup_insert_eq. intros [= <-].
        rewrite Nat2N.id, lookup_app_r, Nat.sub_diag by lia. reflexivity.
      * rewrite lookup_insert_ne by assumption. intros H.
        apply Hm in H. rewrite lookup_app_l; [assumption|].
        eapply lookup_lt_Some; eassumption.
    + intros k str' H. apply lookup_app_Some in H as [H | [Hk H]].
      * destruct (decide (str = str')) as [<-|Hne].
        -- apply Hl in H. congruence.
        -- rewrite lookup_insert_ne by assumption. auto.
      * destruct (k - length (_index_to_string s)) as [|?] eqn:Ek; [|discriminate].
        cbn in H. injection H as <-.
        rewrite lookup_insert_eq. do 2 f_equal. lia.
Qed.

(** What [internString] returns is valid and resolves to the string. *)
Lemma internString_getString str s :
  consistent s -> has_room s ->
  let (idx, s1) := internString str s in
  isValid idx = true /\ _index_to_string s1 !! N.to_nat (index idx) = Some str.
Proof.
  intros [Hm Hl] Hroom. unfold internString.
  cbn [_string_to_index _index_to_string base].
  destruct (_string_to_index s !! str) as [i|] eqn:E.
  - cbn [index _index_to_string]. pose proof (Hm _ _ E) as Hi. split; [|assumption].
    apply lookup_lt_Some in Hi. unfold isValid, has_room in *. cbn [index].
    destruct (N.eqb_spec i INVALID); [lia|reflexivity].
  - rewrite (next_index s Hroom). cbn [index _index_to_string]. split.
    + unfold isValid, has_room in *. cbn [index].
      destruct (N.eqb_spec (N.of_nat (length (_index_to_string s))) INVALID);
        [lia|reflexivity].
    + rewrite Nat2N.id, lookup_app_r, Nat.sub_diag by lia. reflexivity.
Qed.

Lemma getString_lookup idx s str :
  isValid idx = true ->
  _index_to_string s !! N.to_nat (index idx) = Some str ->
  getString idx s = str.
Proof.
  intros Hv Hl. unfold getString. rewrite Hv. cbn [negb orb].
  pose proof (lookup_lt_Some _ _ _ Hl) as Hlt.
  destruct (Nat.leb_spec (length (_index_to_string s)) (N.to_nat (index idx))); [lia|].
  apply nth_lookup_Some with (d := EmptyString) in Hl. exact Hl.
Qed.

(** X1. Round trip.  On a consistent dictionary with a free index left,
    pushing a non-empty string hands the base class a point whose index
    [getString] resolves to that very string. *)
Theorem pushBack_then_getString (t : double) (buf : string) (n : nat) (s : StringSeries) :
  consistent s -> has_room s -> n <> 0 ->
  exists idx,
    base (pushBack (t, mkRef (Some buf) n) s) = base_pushBack (t, idx) (base s)
    /\ getString idx (pushBack (t, mkRef (Some buf) n) s) = string_view buf n.
Proof.
  intros Hc Hroom Hn.
  pose proof (internString_getString (string_view buf n) s Hc Hroom) as H.
  unfold pushBack. cbn [snd fst sr_data sr_size].
  destruct (Nat.eqb_spec n 0) as [|_]; [contradiction|].
  assert (Hb : base (snd (internString (string_view buf n) s)) = base s).
  { unfold internString. cbn [_string_to_index].
    destruct (_string_to_index s !! string_view buf n); reflexivity. }
  destruct (internString (string_view buf n) s) as [idx s1].
  destruct H as [Hv Hl]. cbn [snd] in Hb. exists idx. cbn [base]. split.
  - now rewrite Hb.
  - apply getString_lookup; assumption.
Qed.

(** X2. The invariant.  [pushBack] keeps the two directions of the dictionary
    consistent, whatever it is given. *)
Theorem pushBack_consistent (p : double * StringRef) (s : StringSeries) :
  consistent s -> has_room s -> consistent (pushBack p s).
Proof.
  intros Hc Hroom. unfold pushBack.
  destruct (sr_data (snd p)) as [buf|]; [|assumption].
  destruct (Nat.eqb (sr_size (snd p)) 0); [assumption|].
  pose proof (internString_consistent (string_view buf (sr_size (snd p))) s Hc Hroom) as H.
  destruct (internString (string_view buf (sr_size (snd p))) s) as [idx s1].
  cbn [snd] in H. destruct H as [Hm Hl]. split; cbn; assumption.
Qed.

(** X3. Indices stay good.  The dictionary only grows at its end: an index
    that was in range before a [pushBack] resolves to the same string
    after it. *)
Theorem pushBack_keeps_strings (p : double * StringRef) (idx : StringDictIndex)
        (s : StringSeries) :
  N.to_nat (index idx) < length (_index_to_string s) ->
  getString idx (pushBack p s) = getString idx s.
Proof.
  intros Hlt.
  assert (H : exists more,
             _index_to_string (pushBack p s) = _index_to_string s ++ more).
  { unfold pushBack.
    destruct (sr_data (snd p)) as [buf|]; [|exists []; now rewrite app_nil_r].
    destruct (Nat.eqb (sr_size (snd p)) 0); [exists []; now rewrite app_nil_r|].
    unfold internString. cbn [_string_to_index _index_to_string base].
    destruct (_string_to_index s !! _);
      [exists []; cbn; now rewrite app_nil_r|eexists; cbn; reflexivity]. }
  destruct H as [more H]. unfold getString. rewrite H, length_app.
  destruct (isValid idx); cbn [negb orb]; [|reflexivity].
  destruct (Nat.leb_spec (length (_index_to_string s)) (N.to_nat (index idx))); [lia|].
  destruct (Nat.leb_spec (length (_index_to_string s) + length more)
                         (N.to_nat (index idx))); [lia|].
  apply app_nth1. assumption.
Qed.

(** X4. One index per string.  Interning [b] after [a] returns the index of
    [a] exactly when [b] is [a]. *)
Theorem internString_same_index_iff (a b : string) (s : StringSeries) :
  consistent s -> has_room s ->
  fst (internString b (snd (internString a s))) = fst (internString a s) <-> b = a.
Proof.
  intros Hc Hroom.
  pose proof (internString_consistent a s Hc Hroom) as Hc1.
  pose proof (internString_getString a s Hc Hroom) as Ha.
  destruct (internString a s) as [ia s1] eqn:Ea. cbn [fst snd] in *.
  destruct Ha as [_ Ha]. destruct Hc1 as [Hm1 Hl1].
  pose proof (Hl1 _ _ Ha) as Hma.
  unfold internString at 1. cbn [_string_to_index _index_to_string base].
  split.
  - destruct (_string_to_index s1 !! b) as [j|] eqn:Eb; cbn [fst]; intros E.
    + subst ia. cbn [index] in Ha. apply Hm1 in Eb. congruence.
    + subst ia. cbn [index] in Ha. apply lookup_lt_Some in Ha.
      assert (Hlen : length (_index_to_string s1) <= S (length (_index_to_string s))).
      { apply (f_equal snd) in Ea. cbn [snd] in Ea. subst s1.
        unfold internString. cbn [_string_to_index _index_to_string base].
        destruct (_string_to_index s !! a); cbn [snd _index_to_string];
          [|rewrite length_app; cbn]; lia. }
      unfold has_room, INVALID, uint32_max in Hroom.
      rewrite N.mod_small in Ha
        by (change (2 ^ 32)%N with 4294967296%N; lia).
      rewrite Nat2N.id in Ha. lia.
  - intros ->. rewrite Hma. cbn [fst]. destruct ia as [ia]. cbn [index].
    now rewrite N2Nat.id.
Qed.

End Series.

(** A concrete series over integer timestamps whose base class appends. *)
Definition demo_series : StringSeries (list (Z * StringDictIndex)) :=
  mkSeries _ [(1%Z, mkIdx 0)] "on" ["on"] {[ "on" := 0%N ]}.

Lemma pushBack_empty_unchanged_witness :
  (sr_data (mkRef (Some "off") 0) = None \/ sr_size (mkRef (Some "off") 0) = 0) /\
  pushBack Z (list (Z * StringDictIndex)) (fun p l => l ++ [p])
           (2%Z, mkRef (Some "off") 0) demo_series = demo_series.
Proof.
  split; [right; reflexivity|].
  apply (pushBack_empty_unchanged Z (list (Z * StringDictIndex))
           (fun p l => l ++ [p]) 2%Z (mkRef (Some "off") 0) demo_series).
  right. reflexivity.
Defined.

(** The demo series is a consistent dictionary with room left. *)
Lemma demo_consistent : consistent _ demo_series.
Proof.
  split; cbn.
  - intros str i H. apply lookup_singleton_Some in H as [<- <-]. reflexivity.
  - intros [|k] str H; [|discriminate]. injection H as <-. apply lookup_singleton_eq.
Qed.

Lemma demo_has_room : has_room _ demo_series.
Proof. reflexivity. Qed.

Abbreviation demo_push := (pushBack Z (list (Z * StringDictIndex)) (fun p l => l ++ [p]))
  (only parsing).

Lemma pushBack_then_getString_witness :
  (consistent _ demo_series /\ has_room _ demo_series /\ 3 <> 0)
  /\ exists idx,
       base _ (demo_push (2%Z, mkRef (Some "off") 3) demo_series)
       = base _ demo_series ++ [(2%Z, idx)]
       /\ getString _ idx (demo_push (2%Z, mkRef (Some "off") 3) demo_series)
          = string_view "off" 3.
Proof.
  split; [split; [exact demo_consistent | split; [exact demo_has_room | discriminate]]|].
  exact (pushBack_then_getString Z (list (Z * StringDictIndex)) (fun p l => l ++ [p])
           2%Z "off" 3 demo_series demo_consistent demo_has_room ltac:(discriminate)).
Defined.

Lemma pushBack_consistent_witness :
  (consistent _ demo_series /\ has_room _ demo_series)
  /\ consistent _ (demo_push (2%Z, mkRef (Some "off") 3) demo_series).
Proof.
  split; [split; [exact demo_consistent | exact demo_has_room]|].
  exact (pushBack_consistent Z (list (Z * StringDictIndex)) (fun p l => l ++ [p])
           (2%Z, mkRef (Some "off") 3) demo_series demo_consistent demo_has_room).
Defined.

Lemma pushBack_keeps_strings_witness :
  N.to_nat (index (mkIdx 0)) < length (_index_to_string _ demo_series)
  /\ getString _ (mkIdx 0) (demo_push (2%Z, mkRef (Some "off") 3) demo_series)
     = getString _ (mkIdx 0) demo_series.
Proof.
  split; [cbn; lia|].
  apply (pushBack_keeps_strings Z (list (Z * StringDictIndex)) (fun p l => l ++ [p])
           (2%Z, mkRef (Some "off") 3) (mkIdx 0) demo_series).
  cbn. lia.
Defined.

Lemma internString_same_index_iff_witness :
  (consistent _ demo_series /\ has_room _ demo_series)
  /\ (fst (internString _ "off" (snd (internString _ "on" demo_series)))
      = fst (internString _ "on" demo_series) <-> "off" = "on").
Proof.
  split; [split; [exact demo_consistent | exact demo_has_room]|].
  exact (internString_same_index_iff (list (Z * StringDictIndex)) "on" "off" demo_series
           demo_consistent demo_has_room).
Defined.

End StringSeries.

(* ===================================================================== *)
(** * CSV parsing engine (csv_parser.cpp)                                 *)
(* ===================================================================== *)

Module CSV.

(** The double quote character, code 34. *)
Definition dquote : ascii := ascii_of_nat 34.
Definition tab : ascii := ascii_of_nat 9.
Definition semicolon : ascii := ";"%char.
Definition comma : ascii := ","%char.
Definition space : ascii := " "%char.

(** C++ [int] counters are [Z]; a line of fewer than 2^31 characters never
    makes them overflow. *)

(* --------------------------------------------------------------------- *)
(** ** DetectDelimiter                                                    *)
(* --------------------------------------------------------------------- *)

(** The lambda [countOutsideQuotes]: the range-for over [line], with the
    two locals [count] and [inside_quotes] threaded through. *)
Fixpoint countOutsideQuotes_loop (line : string) (delim : ascii)
         (count : Z) (inside_quotes : bool) : Z :=
  match line with
  | EmptyString => count
  | String c rest =>
      if Ascii.eqb c dquote then
        countOutsideQuotes_loop rest delim count (negb inside_quotes)
      else if negb inside_quotes && Ascii.eqb c delim then
        countOutsideQuotes_loop rest delim (count + 1) inside_quotes
      else
        countOutsideQuotes_loop rest delim count inside_quotes
  end.

Definition countOutsideQuotes (line : string) (delim : ascii) : Z :=
  countOutsideQuotes_loop line delim 0 false.

(** The block computing [space_count]: consecutive spaces count once. *)
Fixpoint space_count_loop (line : string) (space_count : Z)
         (inside_quotes prev_was_space : bool) : Z :=
  match line with
  | EmptyString => space_count
  | String c rest =>
      if Ascii.eqb c dquote then
        space_count_loop rest space_count (negb inside_quotes) false
      else if negb inside_quotes && Ascii.eqb c space then
        space_count_loop rest
          (if negb prev_was_space then space_count + 1 else space_count)
          inside_quotes true
      else
        space_count_loop rest space_count inside_quotes false
  end.

Definition space_count_of (line : string) : Z :=
  space_count_loop line 0 false false.

Record Candidate := mkCandidate {
  delim : ascii;
  count : Z;
  priority : Z  (* higher = preferred when counts are equal *)
}.

(** One turn of the loop over [candidates]; [best] is the pointer, [None]
    for [nullptr]. *)
Definition consider (best : option Candidate) (c : Candidate) : option Candidate :=
  let threshold := if Ascii.eqb (delim c) space then 2%Z else 1%Z in
  if (count c >=? threshold)%Z then
    match best with
    | None => Some c
    | Some b =>
        if (count c >? count b)%Z then Some c
        else if (count c =? count b)%Z && (priority c >? priority b)%Z then Some c
        else Some b
    end
  else best.

Definition candidates_of (first_line : string) : list Candidate :=
  [ mkCandidate tab (countOutsideQuotes first_line tab) 4;
    mkCandidate semicolon (countOutsideQuotes first_line semicolon) 3;
    mkCandidate comma (countOutsideQuotes first_line comma) 2;
    mkCandidate space (space_count_of first_line) 1 ].

(** [char DetectDelimiter(const std::string& first_line)]. *)
Definition DetectDelimiter (first_line : string) : ascii :=
  match fold_left consider (candidates_of first_line) None with
  | Some best => delim best
  | None => comma
  end.

(** *** What the specification says, position by position *)

(** Number of double quotes among the first [i] characters. *)
Fixpoint quotes_before (line : string) (i : nat) {struct i} : nat :=
  match i, line with
  | S i', String c rest =>
      (if Ascii.eqb c dquote then 1 else 0) + quotes_before rest i'
  | _, _ => 0
  end.

(** Position [i] holds [d] and lies outside every double-quoted span: an
    even number of quotes precede it (and [d] is not itself a quote). *)
Definition occurs_outside (line : string) (d : ascii) (i : nat) : bool :=
  match String.get i line with
  | Some c => Ascii.eqb c d && negb (Ascii.eqb c dquote)
              && Nat.even (quotes_before line i)
  | None => false
  end.

Definition positions (line : string) : list nat := seq 0 (String.length line).

(** Occurrences of [d] outside quotes. *)
Definition spec_occurrences (line : string) (d : ascii) : Z :=
  Z.of_nat (length (List.filter (occurs_outside line d) (positions line))).

(** Position [i] starts a run of spaces outside quotes: a space outside
    quotes that is first in the line or whose left neighbour is no space. *)
Definition starts_space_run (line : string) (i : nat) : bool :=
  occurs_outside line space i
  && match i with
     | 0 => true
     | S j => match String.get j line with
              | Some c => negb (Ascii.eqb c space)
              | None => true
              end
     end.

Definition spec_space_runs (line : string) : Z :=
  Z.of_nat (length (List.filter (starts_space_run line) (positions line))).

Definition spec_count (line : string) (d : ascii) : Z :=
  if Ascii.eqb d space then spec_space_runs line else spec_occurrences line d.

Definition spec_threshold (d : ascii) : Z := if Ascii.eqb d space then 2 else 1.

(** Tie-break priority: tab > semicolon > comma > space. *)
Definition spec_priority (d : ascii) : Z :=
  if Ascii.eqb d tab then 4
  else if Ascii.eqb d semicolon then 3
  else if Ascii.eqb d comma then 2
  else 1.

Definition spec_candidates : list ascii := [comma; semicolon; tab; space].

Definition qualifies (line : string) (d : ascii) : Prop :=
  In d spec_candidates /\ (spec_threshold d <= spec_count line d)%Z.

(** [r] is the delimiter the specification picks for [line]. *)
Definition spec_choice (line : string) (r : ascii) : Prop :=
  ((forall d, ~ qualifies line d) /\ r = comma)
  \/ (qualifies line r /\
      forall d, qualifies line d -> d <> r ->
        (spec_count line d < spec_count line r)%Z
        \/ (spec_count line d = spec_count line r
            /\ (spec_priority d < spec_priority r)%Z)).

(* --------------------------------------------------------------------- *)
(** ** SplitLine                                                          *)
(* --------------------------------------------------------------------- *)

(** [line.substr(pos, n)] called with [int] arguments.  The count is
    converted to [size_t]: a negative [n] becomes a value larger than any
    string, so the result runs to the end of the line; a count that is too
    large is clipped.  ([pos] never exceeds the size in [SplitLine], see
    [positions_in_range] below, so [std::out_of_range] is not thrown.) *)
Definition substr (line : string) (pos n : Z) : string :=
  let p := Z.to_nat pos in
  if (n <? 0)%Z then substring p (String.length line - p) line
  else substring p (Z.to_nat n) line.

(** [line[pos]] for [0 <= pos < size]. *)
Definition char_at (line : string) (pos : Z) : ascii :=
  match String.get (Z.to_nat pos) line with
  | Some c => c
  | None => Ascii.zero
  end.

(** The locals of [SplitLine] that live across iterations. *)
Record SplitState := mkSplit {
  parts : list string;
  inside_quotes : bool;
  quoted_word : bool;
  start_pos : Z;
  quote_start : Z;
  quote_end : Z
}.

Definition split_init : SplitState := mkSplit [] false false 0%Z 0%Z 0%Z.

(* --------------------------------------------------------------------- *)
(** ** Data model (csv_parser.h)                                          *)
(* --------------------------------------------------------------------- *)

Module CombinedColumnPair.
Record t := mk {
  date_column_index : Z;
  time_column_index : Z;
  virtual_name : string
}.
End CombinedColumnPair.

Record CsvParseConfig := mkConfig {
  delimiter : ascii;
  time_column_index : Z;          (* -1 = use row number as time *)
  custom_time_format : string;    (* empty = auto-detect *)
  skip_rows : Z;                  (* lines to skip before header *)
  total_lines : Z;                (* 0 = count internally if progress callback set *)
  combined_columns : list CombinedColumnPair.t;
  combined_column_index : Z       (* which pair to use for time; -1 = not used *)
}.

Inductive WarningType :=
  WRONG_COLUMN_COUNT | INVALID_TIMESTAMP | NON_MONOTONIC_TIME | DUPLICATE_COLUMN_NAMES.

Record CsvParseWarning := mkWarning {
  warning_type : WarningType;
  line_number : Z;
  detail : string
}.

#[global] Instance WarningType_eq_dec : EqDecision WarningType.
Proof. solve_decision. Defined.

(** Modelled from the spec: [ColumnType] and [ColumnTypeInfo] are declared
    in timestamp_parsing.h, which is not among the sources; the data model
    gives the kind, the format string and the fractional flag, and a
    default-constructed value has kind [UNDEFINED]. *)
Inductive ColumnType := UNDEFINED | NUMBER | STRING | DATE_ONLY | TIME_ONLY | DATETIME.

#[global] Instance ColumnType_eq_dec : EqDecision ColumnType.
Proof. solve_decision. Defined.

Record ColumnTypeInfo := mkTypeInfo {
  type : ColumnType;
  format : string;
  has_fractional : bool
}.

Definition default_type : ColumnTypeInfo := mkTypeInfo UNDEFINED EmptyString false.

Section Engine.

#[local] Set Default Proof Using "Type".

(** [Trim] is declared in timestamp_parsing.h, which is not among the
    sources; [SplitLine] only applies it. *)
Variable Trim : string -> string.

(** The body of the [for] loop at index [pos]. *)
Definition SplitLine_body (line : string) (separator : ascii)
           (st : SplitState) (pos : Z) : SplitState :=
  let size := Z.of_nat (String.length line) in
  let c := char_at line pos in
  (* if (line[pos] == quote) ... inside_quotes = !inside_quotes *)
  let st1 :=
    if Ascii.eqb c dquote then
      if inside_quotes st then
        mkSplit (parts st) (negb (inside_quotes st)) true
                (start_pos st) (quote_start st) (pos - 1)%Z
      else
        mkSplit (parts st) (negb (inside_quotes st)) (quoted_word st)
                (start_pos st) (pos + 1)%Z (quote_end st)
    else st in
  let at_end := (pos + 1 =? size)%Z in
  let is_sep := Ascii.eqb c separator in
  let part_completed := (negb (inside_quotes st1) && is_sep) || at_end in
  let add_empty := at_end && is_sep in
  let end_pos := if at_end then (if is_sep then pos else pos + 1)%Z else pos in
  let st2 :=
    if part_completed then
      let part :=
        if quoted_word st1 then
          substr line (quote_start st1) (quote_end st1 - quote_start st1 + 1)%Z
        else
          substr line (start_pos st1) (end_pos - start_pos st1)%Z in
      mkSplit (parts st1 ++ [Trim part]) false false
              (pos + 1)%Z (quote_start st1) (quote_end st1)
    else st1 in
  if add_empty then
    mkSplit (parts st2 ++ [EmptyString]) (inside_quotes st2) (quoted_word st2)
            (start_pos st2) (quote_start st2) (quote_end st2)
  else st2.

(** The indices the loop visits: [0, 1, ..., size - 1]. *)
Definition indices (line : string) : list Z :=
  map Z.of_nat (seq 0 (String.length line)).

Definition SplitLine_run (line : string) (separator : ascii) : SplitState :=
  fold_left (SplitLine_body line separator) (indices line) split_init.

(** [void SplitLine(line, separator, parts)]: the output vector. *)
Definition SplitLine (line : string) (separator : ascii) : list string :=
  parts (SplitLine_run line separator).

(** *** What the specification says about a field *)

(** The greatest [i < n] with [p i]. *)
Fixpoint last_where (p : nat -> bool) (n : nat) : option nat :=
  match n with
  | 0 => None
  | S n' => if p n' then Some n' else last_where p n'
  end.

(** The least [i] in [from, from + n) with [p i]. *)
Fixpoint first_where (p : nat -> bool) (from n : nat) : option nat :=
  match n with
  | 0 => None
  | S n' => if p from then Some from else first_where p (S from) n'
  end.

Definition is_quote_at (f : string) (i : nat) : bool :=
  match String.get i f with
  | Some c => Ascii.eqb c dquote
  | None => false
  end.

(** A quote is an opening one when an even number of quotes precede it in
    the field, a closing one when that number is odd. *)
Definition is_opening (f : string) (i : nat) : bool :=
  is_quote_at f i && Nat.even (quotes_before f i).

Definition is_closing (f : string) (i : nat) : bool :=
  is_quote_at f i && Nat.odd (quotes_before f i).

Definition last_opening (f : string) : option nat :=
  last_where (is_opening f) (String.length f).

Definition last_closing (f : string) : option nat :=
  last_where (is_closing f) (String.length f).

Definition first_opening (f : string) : option nat :=
  first_where (is_opening f) 0 (String.length f).

(** The text of a field as the code takes it: with a closing quote in the
    field, what lies after the last opening quote, up to the last closing
    quote when that one comes later and up to the end of the field
    otherwise; without a closing quote, the whole field. *)
Definition field_text (f : string) : string :=
  match last_closing f, last_opening f with
  | Some qc, Some qo =>
      if Nat.ltb qo qc then substring (S qo) (qc - S qo) f
      else substring (S qo) (String.length f - S qo) f
  | _, _ => f
  end.

(** The text of a field as the specification words it: with a quote in the
    field, what lies between the first opening quote and the last closing
    quote. *)
Definition claimed_field_text (f : string) : string :=
  match first_opening f, last_closing f with
  | Some qo, Some qc => substring (S qo) (qc - S qo) f
  | _, _ => f
  end.

(** The fields of a line: cut at every separator outside quotes, the end
    of the line completing the last field and a final separator adding an
    empty one; [text] is what is emitted, trimmed, for a field. *)
Fixpoint split_fields (text : string -> string) (separator : ascii)
         (inside : bool) (cur rest : string) : list string :=
  match rest with
  | EmptyString => [Trim (text cur)]
  | String c rest' =>
      if Ascii.eqb c dquote then
        split_fields text separator (negb inside) (cur +:+ String c EmptyString) rest'
      else if Ascii.eqb c separator && negb inside then
        Trim (text cur)
        :: match rest' with
           | EmptyString => [EmptyString]
           | _ => split_fields text separator false EmptyString rest'
           end
      else split_fields text separator inside (cur +:+ String c EmptyString) rest'
  end.

Definition SplitLine_spec (text : string -> string) (line : string) (separator : ascii)
  : list string :=
  match line with
  | EmptyString => []
  | _ => split_fields text separator false EmptyString line
  end.

(** Number of double quotes in a string. *)
Definition quote_count (s : string) : nat := quotes_before s (String.length s).

(* --------------------------------------------------------------------- *)
(** ** ParseHeaderLine                                                    *)
(* --------------------------------------------------------------------- *)

(** C++ [double]; the parser compares timestamps and stores values, it
    does no arithmetic on them. *)
Variable double : Type.

(** [toDouble] (timestamp_parsing.h, not among the sources). *)
Variable toDouble : string -> option double.

(** [std::to_string(i)] for an unsigned index. *)
Definition to_string (i : nat) : string := NilZero.string_of_uint (Nat.to_uint i).

(** ["_" << std::setw(2) << std::setfill('0') << index]. *)
Definition suffix (index : nat) : string :=
  let digits := to_string index in
  "_" +:+ (if Nat.ltb (String.length digits) 2 then "0" +:+ digits else digits).

Definition generated_name (i : nat) : string := "_Column_" +:+ to_string i.

(** [v[i]] on a vector of strings. *)
Definition at_ (v : list string) (i : nat) : string := nth i v EmptyString.

(** [std::set<std::string> u(v.begin(), v.end()); u.size() < v.size()]. *)
Definition has_duplicates (v : list string) : bool :=
  Nat.ltb (size (list_to_set v : gset string)) (length v).

(** The first two loops: the all-numbers test and the initial names. *)
Definition is_number_count (fields : list string) : nat :=
  length (List.filter (fun field => bool_decide (is_Some (toDouble (Trim field)))) fields).

Definition initial_names (fields : list string) : list string :=
  if Nat.eqb (is_number_count fields) (length fields) then
    imap (fun i _ => generated_name i) fields
  else
    imap (fun i field =>
            let name := Trim field in
            if String.eqb name EmptyString then generated_name i else name)
         fields.

(** One turn of the outer loop of the duplicate handling, at index [i]:
    collect [repeated], then suffix every collected index in place. *)
Definition repeated_indices (column_names : list string) (i : nat) : list nat :=
  i :: List.filter (fun j => String.eqb (at_ column_names i) (at_ column_names j))
                   (seq (S i) (length column_names - S i)).

Definition add_suffix (column_names : list string) (index : nat) : list string :=
  <[index := at_ column_names index +:+ suffix index]> column_names.

Definition dedup_body (column_names : list string) (i : nat) : list string :=
  let repeated := repeated_indices column_names i in
  if Nat.ltb 1 (length repeated) then fold_left add_suffix repeated column_names
  else column_names.

Definition handle_duplicates (column_names : list string) : list string :=
  if has_duplicates column_names then
    fold_left dedup_body (seq 0 (length column_names)) column_names
  else column_names.

(** [std::vector<std::string> ParseHeaderLine(header_line, delimiter)]. *)
Definition ParseHeaderLine (header_line : string) (delimiter : ascii) : list string :=
  handle_duplicates (initial_names (SplitLine header_line delimiter)).

(* --------------------------------------------------------------------- *)
(** ** ParseCsvData                                                       *)
(* --------------------------------------------------------------------- *)

(** The remaining helpers of timestamp_parsing.h. *)
Variable DetectColumnType : string -> ColumnTypeInfo.
Variable ParseWithType : string -> ColumnTypeInfo -> option double.
Variable ParseCombinedDateTime :
  string -> string -> ColumnTypeInfo -> ColumnTypeInfo -> option double.
Variable FormatParseTimestamp : string -> string -> option double.

(** What the loop needs of [double]: [std::numeric_limits<double>::lowest()],
    the comparison [a > b], and the conversion of the [int] row counter. *)
Variable lowest : double.
Variable dgt : double -> double -> bool.
Variable of_int : Z -> double.

Record CsvColumnData := mkColumn {
  name : string;
  numeric_points : list (double * double);  (* (timestamp, value) *)
  string_points : list (double * string);   (* (timestamp, value) *)
  detected_type : ColumnTypeInfo
}.

Record CsvParseResult := mkResult {
  success : bool;
  columns : list CsvColumnData;
  column_names : list string;
  warnings : list CsvParseWarning;
  time_is_non_monotonic : bool;
  lines_processed : Z;
  lines_skipped : Z;
  combined_component_indices : gset Z
}.

(** A default-constructed [CsvParseResult]. *)
Definition empty_result : CsvParseResult :=
  mkResult false [] [] [] false 0 0 ∅.

(** *** The input stream

    An [std::istream] is the list of lines that successive [std::getline]
    calls will return, and whether [tellg] gives a position. *)
Record istream := mkStream { pending : list string; seekable : bool }.

Definition LF : ascii := ascii_of_nat 10.
Definition CR : ascii := ascii_of_nat 13.

(** The lines [std::getline] reads from [std::istringstream(csv_content)]:
    a final line without newline is still a line, an empty rest is not. *)
Fixpoint lines_of (csv_content : string) : list string :=
  match csv_content with
  | EmptyString => []
  | String c rest =>
      if Ascii.eqb c LF then EmptyString :: lines_of rest
      else match lines_of rest with
           | [] => [String c EmptyString]
           | l :: ls => String c l :: ls
           end
  end.

(** [if (!line.empty() && line.back() == CR) line.pop_back();] *)
Fixpoint strip_cr (line : string) : string :=
  match line with
  | EmptyString => EmptyString
  | String c EmptyString => if Ascii.eqb c CR then EmptyString else line
  | String c rest => String c (strip_cr rest)
  end.

(** *** Field updates on the result *)

Definition push_warning (w : CsvParseWarning) (r : CsvParseResult) : CsvParseResult :=
  mkResult (success r) (columns r) (column_names r) (warnings r ++ [w])
           (time_is_non_monotonic r) (lines_processed r) (lines_skipped r)
           (combined_component_indices r).

Definition incr_lines_skipped (r : CsvParseResult) : CsvParseResult :=
  mkResult (success r) (columns r) (column_names r) (warnings r)
           (time_is_non_monotonic r) (lines_processed r) (lines_skipped r + 1)
           (combined_component_indices r).

Definition set_non_monotonic (r : CsvParseResult) : CsvParseResult :=
  mkResult (success r) (columns r) (column_names r) (warnings r)
           true (lines_processed r) (lines_skipped r)
           (combined_component_indices r).

Definition set_columns (cols : list CsvColumnData) (r : CsvParseResult) : CsvParseResult :=
  mkResult (success r) cols (column_names r) (warnings r)
           (time_is_non_monotonic r) (lines_processed r) (lines_skipped r)
           (combined_component_indices r).

(** [v[i]] with an [int] index.  Reading outside the vector is undefined in
    C++; here it yields the default element. *)
Definition vec_at {A} (v : list A) (i : Z) (d : A) : A :=
  if (i <? 0)%Z then d else nth (Z.to_nat i) v d.

(** The pair selected by [config.combined_column_index], when that index is
    [>= 0] and below [combined_columns.size()]. *)
Definition selected_pair (config : CsvParseConfig) : option CombinedColumnPair.t :=
  if (0 <=? combined_column_index config)%Z
     && (combined_column_index config <? Z.of_nat (length (combined_columns config)))%Z
  then nth_error (combined_columns config) (Z.to_nat (combined_column_index config))
  else None.

Definition quoted (s : string) : string :=
  String dquote EmptyString +:+ s +:+ String dquote EmptyString.

(** *** One data line *)

Record LoopState := mkLoop {
  result : CsvParseResult;
  column_types : list ColumnTypeInfo;
  prev_time : double;
  linenumber : Z;
  samplecount : Z
}.

(** How the loop body ends: falls through or [continue]s ([Next]), or
    [return result;] after the progress callback cancelled. *)
Inductive Flow := Next (st : LoopState) | Cancelled (st : LoopState).

(** "Detect column types from first data row with non-empty cells". *)
Definition detect_types (column_types : list ColumnTypeInfo) (fields : list string)
  : list ColumnTypeInfo :=
  imap (fun i ty =>
          if bool_decide (type ty = UNDEFINED) && negb (String.eqb (at_ fields i) EmptyString)
          then DetectColumnType (at_ fields i) else ty)
       column_types.

(** "Determine timestamp": [inl warning] when the row is skipped, otherwise
    the pair [(timestamp_valid, timestamp)]. *)
Definition determine_timestamp (config : CsvParseConfig) (num_columns : nat)
           (fields : list string) (column_types : list ColumnTypeInfo)
           (linenumber samplecount : Z) : CsvParseWarning + (bool * double) :=
  match selected_pair config with
  | Some combo =>
      let date_val := Trim (vec_at fields (CombinedColumnPair.date_column_index combo) EmptyString) in
      let time_val := Trim (vec_at fields (CombinedColumnPair.time_column_index combo) EmptyString) in
      match ParseCombinedDateTime date_val time_val
              (vec_at column_types (CombinedColumnPair.date_column_index combo) default_type)
              (vec_at column_types (CombinedColumnPair.time_column_index combo) default_type) with
      | Some ts => inr (true, ts)
      | None =>
          inl (mkWarning INVALID_TIMESTAMP linenumber
                 ("Invalid combined timestamp: " +:+ quoted date_val +:+ " + " +:+ quoted time_val))
      end
  | None =>
      if (0 <=? time_column_index config)%Z
         && (time_column_index config <? Z.of_nat num_columns)%Z
      then
        let t_str := Trim (vec_at fields (time_column_index config) EmptyString) in
        let parsed :=
          if negb (String.eqb (custom_time_format config) EmptyString) then
            FormatParseTimestamp t_str (custom_time_format config)
          else
            let time_type := vec_at column_types (time_column_index config) default_type in
            if negb (bool_decide (type time_type = STRING))
            then ParseWithType t_str time_type else None in
        match parsed with
        | Some ts => inr (true, ts)
        | None =>
            inl (mkWarning INVALID_TIMESTAMP linenumber
                   ("Invalid timestamp: " +:+ quoted t_str))
        end
      else inr (false, of_int samplecount)
  end.

(** "Non-monotonic time detection". *)
Definition check_monotonic (timestamp : double) (linenumber : Z)
           (prev_time : double) (r : CsvParseResult) : CsvParseResult :=
  if dgt prev_time timestamp && negb (time_is_non_monotonic r) then
    push_warning (mkWarning NON_MONOTONIC_TIME linenumber
                    "Time is not monotonically increasing")
                 (set_non_monotonic r)
  else r.

(** "Parse column values". *)
Definition parse_column (comb : gset Z) (timestamp : double)
           (fields : list string) (column_types : list ColumnTypeInfo)
           (i : nat) (col : CsvColumnData) : CsvColumnData :=
  if bool_decide (Z.of_nat i ∈ comb) then col
  else
    let str := at_ fields i in
    let col_type := nth i column_types default_type in
    if String.eqb str EmptyString || bool_decide (type col_type = UNDEFINED) then col
    else if negb (bool_decide (type col_type = STRING)) then
      match ParseWithType str col_type with
      | Some val =>
          mkColumn (name col) (numeric_points col ++ [(timestamp, val)])
                   (string_points col) (detected_type col)
      | None =>
          mkColumn (name col) (numeric_points col)
                   (string_points col ++ [(timestamp, str)]) (detected_type col)
      end
    else
      mkColumn (name col) (numeric_points col)
               (string_points col ++ [(timestamp, str)]) (detected_type col).

(** The body of [while (std::getline(input, line))]. *)
Definition row_body (config : CsvParseConfig) (progress : option (Z -> Z -> bool))
           (num_columns : nat) (total : Z) (line0 : string) (st : LoopState) : Flow :=
  let linenumber := (linenumber st + 1)%Z in
  let line := strip_cr line0 in
  let fields := SplitLine line (delimiter config) in
  if Nat.eqb (length fields) 0 then
    Next (mkLoop (result st) (column_types st) (prev_time st) linenumber (samplecount st))
  else if negb (Nat.eqb (length fields) num_columns) then
    let warn := mkWarning WRONG_COLUMN_COUNT linenumber
                  ("Expected " +:+ to_string num_columns +:+ " columns, got "
                   +:+ to_string (length fields)) in
    Next (mkLoop (incr_lines_skipped (push_warning warn (result st)))
                 (column_types st) (prev_time st) linenumber (samplecount st))
  else
    let column_types := detect_types (column_types st) fields in
    match determine_timestamp config num_columns fields column_types
                              linenumber (samplecount st) with
    | inl warn =>
        Next (mkLoop (incr_lines_skipped (push_warning warn (result st)))
                     column_types (prev_time st) linenumber (samplecount st))
    | inr (timestamp_valid, timestamp) =>
        let r1 := if timestamp_valid
                  then check_monotonic timestamp linenumber (prev_time st) (result st)
                  else result st in
        let prev_time := if timestamp_valid then timestamp else prev_time st in
        let r2 := set_columns
                    (imap (parse_column (combined_component_indices r1) timestamp
                                        fields column_types)
                          (columns r1)) r1 in
        let st' := mkLoop r2 column_types prev_time linenumber (samplecount st + 1)%Z in
        match progress with
        | Some callback =>
            if (Z.rem linenumber 100 =? 0)%Z && negb (callback linenumber total)
            then Cancelled st' else Next st'
        | None => Next st'
        end
    end.

Fixpoint row_loop (config : CsvParseConfig) (progress : option (Z -> Z -> bool))
         (num_columns : nat) (total : Z) (lines : list string) (st : LoopState) : Flow :=
  match lines with
  | [] => Next st
  | line :: rest =>
      match row_body config progress num_columns total line st with
      | Next st' => row_loop config progress num_columns total rest st'
      | Cancelled st' => Cancelled st'
      end
  end.

(** The header part of [ParseCsvData]: names, duplicate warning, columns,
    combined component indices. *)
Definition header_result (config : CsvParseConfig) (header_line : string) : CsvParseResult :=
  let column_names := ParseHeaderLine header_line (delimiter config) in
  let raw_parts := SplitLine header_line (delimiter config) in
  let warnings :=
    if has_duplicates raw_parts then
      [mkWarning DUPLICATE_COLUMN_NAMES (skip_rows config + 1)
                 "Duplicate column names detected; suffixes added"]
    else [] in
  let columns := map (fun n => mkColumn n [] [] default_type) column_names in
  let comb : gset Z :=
    match selected_pair config with
    | Some combo => {[ CombinedColumnPair.date_column_index combo ]}
                    ∪ {[ CombinedColumnPair.time_column_index combo ]}
    | None => ∅
    end in
  mkResult false columns column_names warnings false 0 0 comb.

(** "Store detected types", [lines_processed], [success]. *)
Definition finish (st : LoopState) : CsvParseResult :=
  let r := result st in
  mkResult true
           (imap (fun i col =>
                    mkColumn (name col) (numeric_points col) (string_points col)
                             (nth i (column_types st) default_type))
                 (columns r))
           (column_names r) (warnings r) (time_is_non_monotonic r)
           (samplecount st) (lines_skipped r) (combined_component_indices r).

(** [total_lines]: the caller's value, or, with a callback and no value
    given, that value incremented once per remaining line when [tellg]
    gives a position to come back to. *)
Definition count_total (input : istream) (config : CsvParseConfig)
           (progress : option (Z -> Z -> bool)) (rest : list string) : Z :=
  if bool_decide (is_Some progress) && (total_lines config <=? 0)%Z && seekable input
  then (total_lines config + Z.of_nat (length rest))%Z
  else total_lines config.

(** The locals as they stand when the [while] loop is entered. *)
Definition loop_entry (config : CsvParseConfig) (header_line : string) : LoopState :=
  let r0 := header_result config header_line in
  mkLoop r0 (replicate (length (column_names r0)) default_type) lowest
         (skip_rows config + 1)%Z 0%Z.

(** [CsvParseResult ParseCsvData(std::istream& input, config, progress)]. *)
Definition ParseCsvData_stream (input : istream) (config : CsvParseConfig)
           (progress : option (Z -> Z -> bool)) : CsvParseResult :=
  let skip := Z.to_nat (skip_rows config) in
  if Nat.ltb (length (pending input)) skip then empty_result  (* not enough lines *)
  else
    match drop skip (pending input) with
    | [] => empty_result
    | header_line0 :: rest =>
        let st0 := loop_entry config (strip_cr header_line0) in
        let num_columns := length (column_names (result st0)) in
        let total := count_total input config progress rest in
        match row_loop config progress num_columns total rest st0 with
        | Next st => finish st
        | Cancelled st => result st
        end
    end.

(** The convenience overload taking the text. *)
Definition ParseCsvData (csv_content : string) (config : CsvParseConfig)
           (progress : option (Z -> Z -> bool)) : CsvParseResult :=
  ParseCsvData_stream (mkStream (lines_of csv_content) true) config progress.

(* --------------------------------------------------------------------- *)
(** ** DetectCombinedDateTimeColumns                                      *)
(* --------------------------------------------------------------------- *)

(** The [for] loop, [i] being the index of the head of [types]: a pair is
    recorded for [DATE_ONLY] next to [TIME_ONLY], in either order, and the
    extra [i++] then skips the second column of the pair. *)
Fixpoint combined_loop (column_names : list string) (i : nat)
         (types : list ColumnTypeInfo) : list CombinedColumnPair.t :=
  match types with
  | a :: ((b :: rest) as tail) =>
      if bool_decide (type a = DATE_ONLY) && bool_decide (type b = TIME_ONLY) then
        CombinedColumnPair.mk (Z.of_nat i) (Z.of_nat (i + 1))
          (at_ column_names i +:+ " + " +:+ at_ column_names (i + 1))
        :: combined_loop column_names (i + 2) rest
      else if bool_decide (type a = TIME_ONLY) && bool_decide (type b = DATE_ONLY) then
        CombinedColumnPair.mk (Z.of_nat (i + 1)) (Z.of_nat i)
          (at_ column_names (i + 1) +:+ " + " +:+ at_ column_names i)
        :: combined_loop column_names (i + 2) rest
      else combined_loop column_names (i + 1) tail
  | _ => []
  end.

(** [std::vector<CombinedColumnPair> DetectCombinedDateTimeColumns(
    column_names, column_types)]. *)
Definition DetectCombinedDateTimeColumns (column_names : list string)
           (column_types : list ColumnTypeInfo) : list CombinedColumnPair.t :=
  combined_loop column_names 0 column_types.

(* --------------------------------------------------------------------- *)
(** ** The loader that drives the parser (dataload_csv.cpp)               *)
(* --------------------------------------------------------------------- *)

Definition TIME_INDEX_COMBINED : Z := -3.
Definition TIME_INDEX_NOT_DEFINED : Z := -2.
Definition TIME_INDEX_GENERATED : Z := -1.
Definition INDEX_AS_TIME : string := "__TIME_INDEX_GENERATED__".


(** [launchDialog]: the array the combo box is laid out by. *)
Definition delimiters : list ascii := [comma; semicolon; space; tab].

(** The loop [for (i = 0; i < 4; i++) if (delimiters[i] == _delimiter)
    { setCurrentIndex(i); break; }], from index [i] on; [current] is the
    index the combo box had. *)
Fixpoint combo_index_loop (ds : list ascii) (i : Z) (d : ascii) (current : Z) : Z :=
  match ds with
  | [] => current
  | x :: rest => if Ascii.eqb x d then i else combo_index_loop rest (i + 1) d current
  end.

Definition combo_index_of (d : ascii) (current : Z) : Z :=
  combo_index_loop delimiters 0 d current.

(** The [currentIndexChanged] lambda: [delimiters[std::clamp(index, 0, 3)]]. *)
Definition delimiter_of_index (index : Z) : ascii :=
  nth (Z.to_nat (Z.max 0 (Z.min index 3))) delimiters comma.

(** [xmlLoadState]: the [switch (separator_index)]; other values leave
    [_delimiter] as it is. *)
Definition xml_delimiter (separator_index : Z) (current : ascii) : ascii :=
  match separator_index with
  | 0%Z => comma
  | 1%Z => semicolon
  | 2%Z => space
  | 3%Z => tab
  | _ => current
  end.

(** [readDataFromFile], layout given: the saved time axis is turned back
    into a column index.  The first loop takes the first column of that
    name, the second looks for a pair of that name. *)
Fixpoint find_column (column_names : list string) (i : nat) (axis : string) : option nat :=
  match column_names with
  | [] => None
  | n :: rest => if String.eqb n axis then Some i else find_column rest (S i) axis
  end.

Definition resolve_time_index (default_time_axis : string) (column_names : list string)
           (combined : list CombinedColumnPair.t) : Z :=
  if String.eqb default_time_axis INDEX_AS_TIME then TIME_INDEX_GENERATED
  else
    match find_column column_names 0 default_time_axis with
    | Some i => Z.of_nat i
    | None =>
        if existsb (fun p => String.eqb (CombinedColumnPair.virtual_name p) default_time_axis)
                   combined
        then TIME_INDEX_COMBINED else TIME_INDEX_NOT_DEFINED
    end.


(** "Update default time axis"; [_combined_columns[0]] is read only when
    the vector is not empty. *)
Definition updated_time_axis (time_index : Z) (combined : list CombinedColumnPair.t)
           (result_names : list string) (default_time_axis : string) : string :=
  if (time_index =? TIME_INDEX_COMBINED)%Z && negb (Nat.eqb (length combined) 0)
  then match combined with
       | first :: _ => CombinedColumnPair.virtual_name first
       | [] => default_time_axis
       end
  else if (0 <=? time_index)%Z && (time_index <? Z.of_nat (length result_names))%Z
  then vec_at result_names time_index EmptyString
  else if (time_index =? TIME_INDEX_GENERATED)%Z then INDEX_AS_TIME
  else default_time_axis.


(* --------------------------------------------------------------------- *)
(** ** Properties of SplitLine                                            *)
(* --------------------------------------------------------------------- *)

(** Strings as lists of characters, to reason with [take] and [drop]. *)
#[local] Abbreviation chars := list_ascii_of_string (only parsing).

Lemma chars_inj a b : chars a = chars b -> a = b.
Proof.
  intros H. rewrite <- (string_of_list_ascii_of_string a),
                    <- (string_of_list_ascii_of_string b).
  now rewrite H.
Qed.

Lemma append_cons c a b : String c a +:+ b = String c (a +:+ b).
Proof. reflexivity. Qed.

Lemma chars_append a b : chars (a +:+ b) = chars a ++ chars b.
Proof.
  induction a as [|c a IH]; [reflexivity|].
  rewrite append_cons. cbn. now rewrite IH.
Qed.

Lemma length_chars s : length (chars s) = String.length s.
Proof. induction s as [|c s IH]; cbn; [reflexivity|]. now rewrite IH. Qed.

Lemma chars_substring s : forall n m,
  chars (substring n m s) = take m (drop n (chars s)).
Proof.
  induction s as [|c s IH]; intros n m.
  - destruct n, m; reflexivity.
  - destruct n as [|n].
    + destruct m as [|m]; cbn; [reflexivity|].
      specialize (IH 0 m). rewrite drop_0 in IH. now rewrite IH.
    + cbn. apply IH.
Qed.

Lemma get_chars s : forall i, String.get i s = chars s !! i.
Proof.
  induction s as [|c s IH]; intros i; [destruct i; reflexivity|].
  destruct i as [|i]; cbn; [reflexivity|apply IH].
Qed.

Lemma length_append a b :
  String.length (a +:+ b) = String.length a + String.length b.
Proof. now rewrite <- !length_chars, chars_append, length_app. Qed.

Lemma append_assoc a b c : (a +:+ b) +:+ c = a +:+ (b +:+ c).
Proof. apply chars_inj. now rewrite !chars_append, app_assoc. Qed.

Lemma append_empty_r a : a +:+ EmptyString = a.
Proof. apply chars_inj. rewrite chars_append. cbn. apply app_nil_r. Qed.

(** A slice that lies inside the middle part of a line is a slice of that
    part. *)
Lemma substring_middle d x y a b :
  a + b <= String.length x ->
  substring (String.length d + a) b (d +:+ x +:+ y) = substring a b x.
Proof.
  intros H. apply chars_inj.
  rewrite !chars_substring, !chars_append, <- length_chars.
  rewrite <- length_chars in H.
  rewrite drop_app_add'  by reflexivity.
  rewrite drop_app_le by lia.
  rewrite take_app_le by (rewrite length_drop; lia).
  reflexivity.
Qed.

Lemma substring_all x : substring 0 (String.length x) x = x.
Proof.
  apply chars_inj. rewrite chars_substring, <- length_chars. cbn.
  apply firstn_all.
Qed.

Lemma get_after d c r : String.get (String.length d) (d +:+ String c r) = Some c.
Proof.
  rewrite get_chars, chars_append, <- length_chars.
  rewrite lookup_app_r by lia. now rewrite Nat.sub_diag.
Qed.

Lemma get_before a b i :
  i < String.length a -> String.get i (a +:+ b) = String.get i a.
Proof.
  intros H. rewrite !get_chars, chars_append. rewrite <- length_chars in H.
  now apply lookup_app_l.
Qed.

(** Quotes before a position that lies in the first part of a string. *)
Lemma quotes_before_append a b : forall i,
  i <= String.length a -> quotes_before (a +:+ b) i = quotes_before a i.
Proof.
  induction a as [|c a IH]; intros i Hi.
  - cbn in Hi. assert (i = 0) by lia. subst. destruct b; reflexivity.
  - destruct i as [|i]; [reflexivity|].
    rewrite append_cons. cbn in *. rewrite IH by lia. reflexivity.
Qed.

Lemma quote_count_append a b :
  quote_count (a +:+ b) = quote_count a + quote_count b.
Proof.
  unfold quote_count. induction a as [|c a IH]; [reflexivity|].
  rewrite append_cons. cbn. rewrite IH. lia.
Qed.

Lemma quote_count_char c :
  quote_count (String c EmptyString) = if Ascii.eqb c dquote then 1 else 0.
Proof. unfold quote_count. cbn. destruct (Ascii.eqb c dquote); reflexivity. Qed.

Lemma last_where_ext p q n :
  (forall i, i < n -> p i = q i) -> last_where p n = last_where q n.
Proof.
  induction n as [|n IH]; intros H; [reflexivity|].
  cbn. rewrite (H n) by lia. rewrite IH; [reflexivity|]. intros i Hi. apply H. lia.
Qed.

Lemma last_where_lt p n i : last_where p n = Some i -> i < n.
Proof.
  induction n as [|n IH]; cbn; [discriminate|].
  destruct (p n); [intros [= <-]; lia|]. intros H. specialize (IH H). lia.
Qed.

Lemma is_quote_at_snoc_lt a c i :
  i < String.length a ->
  is_quote_at (a +:+ String c EmptyString) i = is_quote_at a i.
Proof. intros H. unfold is_quote_at. now rewrite get_before. Qed.

Lemma is_quote_at_snoc_last a c :
  is_quote_at (a +:+ String c EmptyString) (String.length a) = Ascii.eqb c dquote.
Proof. unfold is_quote_at. now rewrite get_after. Qed.

(** Appending a character to a field: the last opening (closing) quote is
    the new character when it is a quote after an even (odd) number of
    quotes, and stays what it was otherwise. *)
Lemma last_opening_snoc a c :
  last_opening (a +:+ String c EmptyString)
  = if Ascii.eqb c dquote && Nat.even (quote_count a)
    then Some (String.length a) else last_opening a.
Proof.
  unfold last_opening. rewrite length_append. cbn [String.length].
  rewrite Nat.add_1_r. cbn [last_where].
  unfold is_opening at 1. rewrite is_quote_at_snoc_last.
  rewrite quotes_before_append by lia. fold (quote_count a).
  destruct (_ && _); [reflexivity|].
  apply last_where_ext. intros i Hi. unfold is_opening.
  rewrite is_quote_at_snoc_lt by assumption.
  now rewrite quotes_before_append by lia.
Qed.

Lemma last_closing_snoc a c :
  last_closing (a +:+ String c EmptyString)
  = if Ascii.eqb c dquote && Nat.odd (quote_count a)
    then Some (String.length a) else last_closing a.
Proof.
  unfold last_closing. rewrite length_append. cbn [String.length].
  rewrite Nat.add_1_r. cbn [last_where].
  unfold is_closing at 1. rewrite is_quote_at_snoc_last.
  rewrite quotes_before_append by lia. fold (quote_count a).
  destruct (_ && _); [reflexivity|].
  apply last_where_ext. intros i Hi. unfold is_closing.
  rewrite is_quote_at_snoc_lt by assumption.
  now rewrite quotes_before_append by lia.
Qed.

(** The two positions [substr] is called with stay within the line: they
    are 0 or one past an index already visited. *)
Lemma positions_in_range line separator k :
  k <= String.length line ->
  let st := fold_left (SplitLine_body line separator)
                      (map Z.of_nat (seq 0 k)) split_init in
  (0 <= start_pos st <= Z.of_nat k)%Z /\ (0 <= quote_start st <= Z.of_nat k)%Z.
Proof.
  induction k as [|k IH]; intros Hk; [cbn; lia|].
  rewrite seq_S, map_app, fold_left_app. cbn [Nat.add map fold_left].
  specialize (IH ltac:(lia)). cbv zeta in *.
  set (st := fold_left _ _ split_init) in *.
  unfold SplitLine_body.
  repeat match goal with
         | |- context [if ?b then _ else _] => destruct b
         end; cbn; lia.
Qed.

(** The loop invariant, when [done] holds the completed fields with their
    separators and [cur] the characters of the field being scanned. *)
Record scanning (done cur : string) (inside : bool) (st : SplitState) : Prop := {
  sc_start : start_pos st = Z.of_nat (String.length done);
  sc_inside : inside_quotes st = inside;
  sc_parity : inside = Nat.odd (quote_count cur);
  sc_done_even : Nat.even (quote_count done) = true;
  sc_opened : inside = true -> exists qo, last_opening cur = Some qo;
  sc_quote_start : forall qo,
    last_opening cur = Some qo ->
    quote_start st = Z.of_nat (String.length done + qo + 1);
  sc_quote_end :
    match last_closing cur with
    | Some qc =>
        quoted_word st = true
        /\ quote_end st = (Z.of_nat (String.length done + qc) - 1)%Z
        /\ exists qo, last_opening cur = Some qo
                      /\ if inside then qc < qo else qo < qc
    | None => quoted_word st = false
    end
}.

Lemma scanning_init : scanning EmptyString EmptyString false split_init.
Proof. split; cbn; try reflexivity; try discriminate. Qed.

Lemma substr_nonneg line p n :
  (0 <= n)%Z -> substr line (Z.of_nat p) n = substring p (Z.to_nat n) line.
Proof.
  intros H. unfold substr. rewrite Nat2Z.id.
  destruct (Z.ltb_spec n 0); [lia|reflexivity].
Qed.

Lemma substr_negative line p n :
  (n < 0)%Z -> substr line (Z.of_nat p) n = substring p (String.length line - p) line.
Proof.
  intros H. unfold substr. rewrite Nat2Z.id.
  destruct (Z.ltb_spec n 0); [reflexivity|lia].
Qed.

(** What the loop pushes when it completes the field [cur]: the text of
    the amended specification.  A field can only be completed inside
    quotes at the end of the line ([more] is then empty). *)
Lemma emitted_text done cur more inside st :
  scanning done cur inside st ->
  (inside = true -> more = EmptyString) ->
  (if quoted_word st
   then substr (done +:+ cur +:+ more) (quote_start st)
               (quote_end st - quote_start st + 1)
   else substr (done +:+ cur +:+ more) (start_pos st)
               (Z.of_nat (String.length cur)))
  = field_text cur.
Proof.
  intros [Hs _ _ _ _ Hqs Hqe] Hmore. unfold field_text.
  destruct (last_closing cur) as [qc|] eqn:Hc.
  - destruct Hqe as (-> & Hend & qo & Ho & Hord).
    rewrite Ho. rewrite (Hqs qo Ho), Hend.
    pose proof (last_where_lt _ _ _ Hc) as Hqc.
    pose proof (last_where_lt _ _ _ Ho) as Hqo.
    destruct inside.
    + rewrite (Hmore eq_refl), append_empty_r.
      destruct (Nat.ltb_spec qo qc); [lia|].
      rewrite substr_negative by lia.
      rewrite length_append.
      replace (String.length done + qo + 1) with (String.length done + S qo) by lia.
      replace (String.length done + String.length cur - (String.length done + S qo))
        with (String.length cur - S qo) by lia.
      pose proof (substring_middle done cur EmptyString (S qo)
                    (String.length cur - S qo) ltac:(lia)) as Hmid.
      rewrite append_empty_r in Hmid. exact Hmid.
    + destruct (Nat.ltb_spec qo qc); [|lia].
      rewrite substr_nonneg by lia.
      replace (String.length done + qo + 1) with (String.length done + S qo) by lia.
      replace (Z.to_nat (Z.of_nat (String.length done + qc) - 1
                         - Z.of_nat (String.length done + S qo) + 1))
        with (qc - S qo) by lia.
      apply substring_middle. lia.
  - rewrite Hqe, Hs. rewrite substr_nonneg by lia. rewrite Nat2Z.id.
    rewrite <- (Nat.add_0_r (String.length done)).
    rewrite substring_middle by lia. apply substring_all.
Qed.

(** Scanning a quote. *)
Lemma scanning_quote done cur inside st :
  scanning done cur inside st ->
  let pos := Z.of_nat (String.length done + String.length cur) in
  scanning done (cur +:+ String dquote EmptyString) (negb inside)
    (if inside_quotes st
     then mkSplit (parts st) (negb (inside_quotes st)) true
                  (start_pos st) (quote_start st) (pos - 1)
     else mkSplit (parts st) (negb (inside_quotes st)) (quoted_word st)
                  (start_pos st) (pos + 1) (quote_end st)).
Proof.
  intros [Hs Hi Hp He Hop Hqs Hqe]. cbv zeta. rewrite Hi.
  assert (Hcount : quote_count (cur +:+ String dquote EmptyString) = S (quote_count cur)).
  { rewrite quote_count_append, quote_count_char, Ascii.eqb_refl. lia. }
  assert (Hlo := last_opening_snoc cur dquote).
  assert (Hlc := last_closing_snoc cur dquote).
  rewrite Ascii.eqb_refl in Hlo, Hlc. cbn [andb] in Hlo, Hlc.
  rewrite <- Nat.negb_odd, <- Hp in Hlo. rewrite <- Hp in Hlc.
  destruct inside; cbn [negb] in *.
  - (* a closing quote *)
    destruct (Hop eq_refl) as [qo Ho].
    pose proof (last_where_lt _ _ _ Ho) as Hqo.
    split; cbn; try assumption; try reflexivity.
    + rewrite Hcount, Nat.odd_succ, <- Nat.negb_odd, <- Hp. reflexivity.
    + discriminate.
    + intros qo'. rewrite Hlo. apply Hqs.
    + rewrite Hlc. split; [reflexivity|]. split; [reflexivity|].
      exists qo. rewrite Hlo. split; [assumption|lia].
  - (* an opening quote *)
    split; cbn; try assumption; try reflexivity.
    + rewrite Hcount, Nat.odd_succ, <- Nat.negb_odd, <- Hp. reflexivity.
    + intros _. rewrite Hlo. eauto.
    + intros qo'. rewrite Hlo. intros [= <-]. lia.
    + rewrite Hlc. destruct (last_closing cur) as [qc|] eqn:Hc; [|assumption].
      destruct Hqe as (Hq & Hend & _). split; [assumption|]. split; [assumption|].
      exists (String.length cur). rewrite Hlo. split; [reflexivity|].
      apply (last_where_lt _ _ _ Hc).
Qed.

(** Scanning any other character that does not complete the field. *)
Lemma scanning_other done cur inside st c :
  Ascii.eqb c dquote = false ->
  scanning done cur inside st ->
  scanning done (cur +:+ String c EmptyString) inside st.
Proof.
  intros Hc [Hs Hi Hp He Hop Hqs Hqe].
  assert (Hcount : quote_count (cur +:+ String c EmptyString) = quote_count cur).
  { rewrite quote_count_append, quote_count_char, Hc. lia. }
  assert (Hlo := last_opening_snoc cur c).
  assert (Hlc := last_closing_snoc cur c).
  rewrite Hc in Hlo, Hlc. cbn [andb] in Hlo, Hlc.
  split; try assumption.
  - now rewrite Hcount.
  - now rewrite Hlo.
  - now rewrite Hlo.
  - now rewrite Hlc, Hlo.
Qed.

(** After a separator outside quotes a new field starts. *)
Lemma scanning_next_field done cur st c part :
  Ascii.eqb c dquote = false ->
  scanning done cur false st ->
  scanning (done +:+ cur +:+ String c EmptyString) EmptyString false
    (mkSplit (parts st ++ [part]) false false
             (Z.of_nat (String.length done + String.length cur) + 1)
             (quote_start st) (quote_end st)).
Proof.
  intros Hc [Hs Hi Hp He Hop Hqs Hqe].
  split; cbn; try reflexivity; try discriminate.
  - rewrite !length_append. cbn. lia.
  - rewrite !quote_count_append, quote_count_char, Hc.
    rewrite Nat.add_0_r, Nat.even_add, He.
    rewrite <- Nat.negb_odd, <- Hp. reflexivity.
Qed.

Lemma char_at_here line done cur c rest :
  line = done +:+ cur +:+ String c rest ->
  char_at line (Z.of_nat (String.length done + String.length cur)) = c.
Proof.
  intros ->. unfold char_at. rewrite Nat2Z.id, <- append_assoc, <- length_append.
  now rewrite get_after.
Qed.

Lemma at_end_here line done cur c rest :
  line = done +:+ cur +:+ String c rest ->
  (Z.of_nat (String.length done + String.length cur) + 1
   =? Z.of_nat (String.length line))%Z
  = match rest with EmptyString => true | _ => false end.
Proof.
  intros ->. rewrite !length_append. cbn [String.length].
  destruct rest; cbn [String.length];
    match goal with |- (?a =? ?b)%Z = _ => destruct (Z.eqb_spec a b) end;
    reflexivity || lia.
Qed.

(** The loop, from any position on, follows the fields of the amended
    specification. *)
Lemma SplitLine_run_fields line separator :
  separator <> dquote ->
  (forall body, line = body +:+ String separator EmptyString ->
                Nat.even (quote_count body) = true) ->
  forall rest done cur inside st,
    line = done +:+ cur +:+ rest ->
    rest <> EmptyString ->
    scanning done cur inside st ->
    parts (fold_left (SplitLine_body line separator)
                     (map Z.of_nat (seq (String.length done + String.length cur)
                                        (String.length rest))) st)
    = parts st ++ split_fields field_text separator inside cur rest.
Proof.
  intros Hsep Hend.
  induction rest as [|c rest IH]; intros done cur inside st Hline Hne Hsc;
    [congruence|].
  cbn [String.length seq map fold_left split_fields].
  unfold SplitLine_body at 2.
  rewrite (char_at_here _ _ _ _ _ Hline), (at_end_here _ _ _ _ _ Hline).
  pose proof (sc_inside _ _ _ _ Hsc) as Hin.
  destruct (Ascii.eqb c dquote) eqn:Hq.
  - (* a quote *)
    apply Ascii.eqb_eq in Hq. subst c.
    assert (Hns : Ascii.eqb dquote separator = false)
      by (apply Ascii.eqb_neq; congruence).
    rewrite Hns, !andb_false_r. cbn [orb].
    pose proof (scanning_quote _ _ _ _ Hsc) as Hsc'. cbv zeta in Hsc'.
    set (st1 := if inside_quotes st then _ else _) in *.
    destruct rest as [|c' rest'].
    + (* ... that ends the line *)
      cbn [String.length seq map fold_left parts split_fields].
      assert (Hp : parts st1 = parts st) by (unfold st1; destruct (inside_quotes st); reflexivity).
      pose proof (emitted_text done (cur +:+ String dquote EmptyString) EmptyString
                    _ _ Hsc' (fun _ => eq_refl)) as Hem.
      rewrite append_empty_r in Hem. rewrite <- Hline in Hem. rewrite <- Hem.
      rewrite (sc_start _ _ _ _ Hsc'), length_append.
      cbn [String.length]. rewrite Hp. do 3 f_equal.
      destruct (quoted_word st1); [reflexivity|]. f_equal. lia.
    + (* ... with more to come *)
      cbn [andb orb].
      specialize (IH done (cur +:+ String dquote EmptyString) (negb inside) st1).
      rewrite length_append in IH. cbn [String.length] in IH.
      replace (String.length done + (String.length cur + 1))
        with (S (String.length done + String.length cur)) in IH by lia.
      cbn [String.length].
      rewrite IH; [|now rewrite Hline, !append_assoc|discriminate|exact Hsc'].
      f_equal. unfold st1. destruct (inside_quotes st); reflexivity.
  - (* another character *)
    destruct (Ascii.eqb c separator && negb inside) eqn:Hs.
    + (* a separator outside quotes *)
      apply andb_true_iff in Hs as [Hcs Hni].
      destruct inside; [discriminate|]. rewrite Hin, Hcs. cbn [negb andb orb].
      assert (Hpart :
        (if quoted_word st
         then substr line (quote_start st) (quote_end st - quote_start st + 1)
         else substr line (start_pos st)
                     (Z.of_nat (String.length done + String.length cur) - start_pos st))
        = field_text cur).
      { rewrite <- (emitted_text done cur (String c rest) false st Hsc ltac:(discriminate)).
        rewrite <- Hline, (sc_start _ _ _ _ Hsc).
        destruct (quoted_word st); [reflexivity|]. f_equal. lia. }
      destruct rest as [|c' rest'].
      * cbn [String.length seq map fold_left parts]. rewrite Hpart, <- app_assoc.
        reflexivity.
      * rewrite Hpart. cbn [negb andb orb].
        pose proof (scanning_next_field done cur st c (Trim (field_text cur)) Hq Hsc) as Hsc'.
        specialize (IH (done +:+ cur +:+ String c EmptyString) EmptyString false _
                       ltac:(now rewrite Hline, !append_assoc) ltac:(discriminate) Hsc').
        rewrite !length_append in IH. cbn [String.length] in IH.
        replace (String.length done + (String.length cur + 1) + 0)
          with (S (String.length done + String.length cur)) in IH by lia.
        cbn [String.length]. rewrite IH. cbn [parts]. now rewrite <- app_assoc.
    + (* anything else *)
      assert (Hs' : negb (inside_quotes st) && Ascii.eqb c separator = false)
        by (rewrite Hin, andb_comm; exact Hs).
      rewrite Hs'. cbn [orb].
      pose proof (scanning_other done cur inside st c Hq Hsc) as Hsc'.
      destruct rest as [|c' rest'].
      * (* ... that ends the line: it is not a separator inside quotes *)
        assert (Hcs : Ascii.eqb c separator = false).
        { destruct (Ascii.eqb c separator) eqn:Hcs; [|reflexivity].
          apply Ascii.eqb_eq in Hcs. subst c.
          specialize (Hend (done +:+ cur) ltac:(now rewrite Hline, append_assoc)).
          rewrite quote_count_append, Nat.even_add, (sc_done_even _ _ _ _ Hsc) in Hend.
          rewrite <- Nat.negb_odd, <- (sc_parity _ _ _ _ Hsc) in Hend.
          destruct inside; [discriminate|]. cbn in Hs. discriminate. }
        rewrite Hcs. cbn [andb String.length seq map fold_left parts split_fields].
        pose proof (emitted_text done (cur +:+ String c EmptyString) EmptyString
                      _ _ Hsc' (fun _ => eq_refl)) as Hem.
        rewrite append_empty_r in Hem. rewrite <- Hline in Hem. rewrite <- Hem.
        rewrite (sc_start _ _ _ _ Hsc), length_append. cbn [String.length].
        do 3 f_equal.
        destruct (quoted_word st); [reflexivity|]. f_equal. lia.
      * cbn [andb].
        specialize (IH done (cur +:+ String c EmptyString) inside st).
        rewrite length_append in IH. cbn [String.length] in IH.
        replace (String.length done + (String.length cur + 1))
          with (S (String.length done + String.length cur)) in IH by lia.
        cbn [String.length].
        apply IH; [now rewrite Hline, !append_assoc|discriminate|exact Hsc'].
Qed.

(** C4 (as amended). For every line and every separator other than the
    double quote, provided the line does not end with a separator that
    lies inside an unclosed quote: [SplitLine] cuts the line at the
    separators outside quotes (the end of the line completing the last
    field, a final separator adding an empty one) and emits, for every
    field in which a quote was closed, the trimmed text after the LAST
    opening quote of the field, up to its last closing quote (up to the end
    of the field when that opening quote is not closed); for every field
    without a closing quote (no quote at all, or one unclosed quote) it
    emits the trimmed full slice. *)
Theorem SplitLine_emits_last_quoted_span (line : string) (separator : ascii) :
  separator <> dquote ->
  (forall body, line = body +:+ String separator EmptyString ->
                Nat.even (quote_count body) = true) ->
  SplitLine line separator = SplitLine_spec field_text line separator.
Proof.
  intros Hsep Hend. unfold SplitLine, SplitLine_run, indices, SplitLine_spec.
  destruct line as [|c rest] eqn:Hl; [reflexivity|]. rewrite <- Hl in *.
  pose proof (SplitLine_run_fields line separator Hsep Hend line
                EmptyString EmptyString false split_init
                eq_refl ltac:(subst; discriminate) scanning_init) as H.
  cbn [String.length Nat.add] in H. rewrite H. reflexivity.
Qed.

(** A way to check the side condition by computation. *)
Fixpoint last_char (s : string) : option ascii :=
  match s with
  | EmptyString => None
  | String c EmptyString => Some c
  | String _ rest => last_char rest
  end.

Fixpoint but_last (s : string) : string :=
  match s with
  | EmptyString => EmptyString
  | String c EmptyString => EmptyString
  | String c rest => String c (but_last rest)
  end.

Definition trailing_separator_closed (line : string) (separator : ascii) : bool :=
  match last_char line with
  | Some c => if Ascii.eqb c separator then Nat.even (quote_count (but_last line)) else true
  | None => true
  end.

Lemma last_char_snoc body c : last_char (body +:+ String c EmptyString) = Some c.
Proof.
  induction body as [|x body IH]; [reflexivity|].
  rewrite append_cons. cbn [last_char]. rewrite IH.
  destruct (body +:+ String c EmptyString) eqn:E; [|reflexivity].
  apply (f_equal String.length) in E. rewrite length_append in E. cbn in E. lia.
Qed.

Lemma but_last_snoc body c : but_last (body +:+ String c EmptyString) = body.
Proof.
  induction body as [|x body IH]; [reflexivity|].
  rewrite append_cons. cbn [but_last]. rewrite IH.
  destruct (body +:+ String c EmptyString) eqn:E; [|reflexivity].
  apply (f_equal String.length) in E. rewrite length_append in E. cbn in E. lia.
Qed.

Lemma trailing_separator_closed_spec line separator :
  trailing_separator_closed line separator = true ->
  forall body, line = body +:+ String separator EmptyString ->
               Nat.even (quote_count body) = true.
Proof.
  unfold trailing_separator_closed. intros H body ->.
  rewrite last_char_snoc, but_last_snoc, Ascii.eqb_refl in H. exact H.
Qed.

(* --------------------------------------------------------------------- *)
(** ** Properties of ParseHeaderLine                                      *)
(* --------------------------------------------------------------------- *)

Lemma SplitLine_x_x_x00 :
  SplitLine "x,x,x_00" "," = [Trim "x"; Trim "x"; Trim "x_00"].
Proof. reflexivity. Qed.








Lemma append_nonempty (a b : string) : a <> EmptyString -> a +:+ b <> EmptyString.
Proof. destruct a; [congruence|discriminate]. Qed.

Lemma initial_names_nonempty fields :
  Forall (fun n => n <> EmptyString) (initial_names fields).
Proof.
  unfold initial_names. apply Forall_lookup. intros i n.
  destruct (Nat.eqb _ _); rewrite list_lookup_imap;
    destruct (fields !! i) as [field|]; cbn; intros [= <-].
  - discriminate.
  - destruct (String.eqb_spec (Trim field) EmptyString); [discriminate|assumption].
Qed.

Lemma add_suffix_nonempty names i :
  Forall (fun n => n <> EmptyString) names ->
  Forall (fun n => n <> EmptyString) (add_suffix names i).
Proof.
  intros H. unfold add_suffix, at_.
  destruct (decide (i < length names)) as [Hi|Hi].
  - apply Forall_insert; [assumption|]. apply append_nonempty.
    rewrite Forall_forall in H. apply H, list_elem_of_In, nth_In. exact Hi.
  - rewrite list_insert_ge by lia. assumption.
Qed.

Lemma handle_duplicates_nonempty names :
  Forall (fun n => n <> EmptyString) names ->
  Forall (fun n => n <> EmptyString) (handle_duplicates names).
Proof.
  unfold handle_duplicates. destruct (has_duplicates names); [|auto].
  generalize (seq 0 (length names)). intros l. revert names.
  induction l as [|i l IH]; intros names H; cbn; [assumption|].
  apply IH. unfold dedup_body. destruct (Nat.ltb _ _); [|assumption].
  generalize (repeated_indices names i). intros r. revert names H.
  induction r as [|j r IHr]; intros names H; cbn; [assumption|].
  apply IHr, add_suffix_nonempty, H.
Qed.

(** No name is empty. *)
Lemma ParseHeaderLine_nonempty header_line delimiter :
  Forall (fun n => n <> EmptyString) (ParseHeaderLine header_line delimiter).
Proof. apply handle_duplicates_nonempty, initial_names_nonempty. Qed.

(** C5. [ParseHeaderLine] is documented to return unique names.  On the
    header [x,x,x_00] with the comma as delimiter (for any [Trim] that keeps
    [x] and [x_00] as they are and any [toDouble] that rejects [x]) it
    returns [x_00; x_01; x_00]: the suffix given to the first [x] collides
    with the third name, and the result is not duplicate-free.  Length and
    non-emptiness do hold ([ParseHeaderLine_length],
    [ParseHeaderLine_nonempty]). *)
Theorem ParseHeaderLine_repeats_a_name :
  Trim "x" = "x" -> Trim "x_00" = "x_00" -> toDouble "x" = None ->
  ParseHeaderLine "x,x,x_00" "," = ["x_00"; "x_01"; "x_00"]
  /\ ~ NoDup (ParseHeaderLine "x,x,x_00" ",").
Proof.
  intros Hx Hx00 Hnum.
  assert (E : ParseHeaderLine "x,x,x_00" "," = ["x_00"; "x_01"; "x_00"]).
  { unfold ParseHeaderLine. rewrite SplitLine_x_x_x00, Hx, Hx00.
    unfold initial_names, is_number_count. cbn [List.filter length].
    rewrite Hx, Hx00, Hnum.
    destruct (toDouble "x_00"); cbn -[handle_duplicates];
      rewrite ?Hx, ?Hx00; vm_compute; reflexivity. }
  split; [exact E|]. rewrite E. intros H. inversion H as [|? ? Hin _]; subst.
  apply Hin. apply list_elem_of_further, list_elem_of_here.
Qed.

(* --------------------------------------------------------------------- *)
(** ** Properties of ParseCsvData: warnings                               *)
(* --------------------------------------------------------------------- *)

Lemma size_list_to_set_le (l : list string) :
  size (list_to_set l : gset string) <= length l.
Proof.
  clear - l. induction l as [|x l IH]; [reflexivity|].
  rewrite list_to_set_cons, size_union_alt, size_singleton. cbn.
  assert (Hsub : size (list_to_set l ∖ {[x]} : gset string)
                 <= size (list_to_set l : gset string)).
  { apply subseteq_size. set_solver. }
  lia.
Qed.

(** The [std::set] size test is true exactly when a value repeats. *)
Lemma has_duplicates_spec (l : list string) :
  has_duplicates l = true <-> ~ NoDup l.
Proof.
  clear - l. unfold has_duplicates. rewrite Nat.ltb_lt.
  split.
  - intros Hlt Hnd. apply (size_list_to_set (C := gset string)) in Hnd. lia.
  - induction l as [|x l IH]; intros Hnd.
    + exfalso. apply Hnd. constructor.
    + rewrite list_to_set_cons. cbn [length].
      destruct (decide (x ∈ l)) as [Hin|Hnin].
      * assert (E : ({[x]} ∪ list_to_set l : gset string) = list_to_set l).
        { set_solver. }
        rewrite E. pose proof (size_list_to_set_le l). lia.
      * assert (Hdisj : ({[x]} : gset string) ## list_to_set l).
        { set_solver. }
        rewrite size_union, size_singleton by exact Hdisj.
        assert (Hl : ~ NoDup l).
        { intros Hl. apply Hnd. constructor; assumption. }
        specialize (IH Hl). lia.
Qed.

(** Number of warnings of a given kind. *)
Definition warning_count (k : WarningType) (ws : list CsvParseWarning) : nat :=
  length (List.filter (fun w => bool_decide (warning_type w = k)) ws).

Lemma warning_count_app k ws1 ws2 :
  warning_count k (ws1 ++ ws2) = warning_count k ws1 + warning_count k ws2.
Proof. unfold warning_count. now rewrite List.filter_app, length_app. Qed.

Lemma warning_count_pos k ws :
  0 < warning_count k ws <-> exists w, w ∈ ws /\ warning_type w = k.
Proof.
  unfold warning_count. split.
  - intros H. destruct (List.filter _ ws) as [|w l] eqn:E; [cbn in H; lia|].
    assert (Hin : In w (List.filter (fun w => bool_decide (warning_type w = k)) ws))
      by (rewrite E; left; reflexivity).
    apply filter_In in Hin as [Hin Hk]. exists w. split.
    + now apply list_elem_of_In.
    + now apply bool_decide_eq_true in Hk.
  - intros (w & Hin & Hk).
    assert (Hf : In w (List.filter (fun w => bool_decide (warning_type w = k)) ws)).
    { apply filter_In. split; [now apply list_elem_of_In|].
      now apply bool_decide_eq_true. }
    destruct (List.filter _ ws); [destruct Hf|cbn; lia].
Qed.

(** The state a loop turn ends in. *)
Definition flow_state (f : Flow) : LoopState :=
  match f with Next st => st | Cancelled st => st end.

(** The timestamp a data line contributes to the monotonicity check: the
    value parsed from the time column(s), when the line has the right
    number of fields and the parse succeeds. *)
Definition row_timestamp (config : CsvParseConfig) (num_columns : nat)
           (line0 : string) (st : LoopState) : option double :=
  let fields := SplitLine (strip_cr line0) (delimiter config) in
  if Nat.eqb (length fields) 0 then None
  else if negb (Nat.eqb (length fields) num_columns) then None
  else match determine_timestamp config num_columns fields
               (detect_types (column_types st) fields)
               (linenumber st + 1) (samplecount st) with
       | inr (true, ts) => Some ts
       | _ => None
       end.

(** The successfully parsed row timestamps, in row order, up to the end of
    the input or the cancellation. *)
Fixpoint parsed_timestamps (config : CsvParseConfig) (progress : option (Z -> Z -> bool))
         (num_columns : nat) (total : Z) (lines : list string) (st : LoopState)
  : list double :=
  match lines with
  | [] => []
  | line :: rest =>
      let here := match row_timestamp config num_columns line st with
                  | Some ts => [ts] | None => [] end in
      match row_body config progress num_columns total line st with
      | Next st' => here ++ parsed_timestamps config progress num_columns total rest st'
      | Cancelled _ => here
      end
  end.

(** Some timestamp of [ts] is strictly less than its predecessor, [prev]
    being the predecessor of the first one. *)
Fixpoint descends (prev : double) (ts : list double) : bool :=
  match ts with
  | [] => false
  | t :: rest => dgt prev t || descends t rest
  end.

Lemma descends_app prev ts a b rest :
  dgt a b = true -> descends prev (ts ++ a :: b :: rest) = true.
Proof.
  intros H. revert prev. induction ts as [|t ts IH]; intros prev; cbn.
  - rewrite H. apply orb_true_r.
  - rewrite IH. apply orb_true_r.
Qed.

(** What one loop turn does to the flag, the warnings and [prev_time]. *)
Lemma row_body_effect config progress num_columns total line st :
  let st' := flow_state (row_body config progress num_columns total line st) in
  let r := result st in let r' := result st' in
  exists ws,
    warnings r' = warnings r ++ ws
    /\ warning_count DUPLICATE_COLUMN_NAMES ws = 0
    /\ match row_timestamp config num_columns line st with
       | Some ts =>
           prev_time st' = ts
           /\ time_is_non_monotonic r'
              = time_is_non_monotonic r || dgt (prev_time st) ts
           /\ warning_count NON_MONOTONIC_TIME ws
              = (if dgt (prev_time st) ts && negb (time_is_non_monotonic r)
                 then 1 else 0)
       | None =>
           prev_time st' = prev_time st
           /\ time_is_non_monotonic r' = time_is_non_monotonic r
           /\ warning_count NON_MONOTONIC_TIME ws = 0
       end.
Proof.
  unfold row_body, row_timestamp.
  destruct (Nat.eqb (length _) 0).
  { exists []. cbn. rewrite app_nil_r. auto. }
  destruct (negb (Nat.eqb _ num_columns)).
  { eexists [_]. cbn. auto. }
  destruct (determine_timestamp _ _ _ _ _ _) as [warn|[[|] ts]] eqn:Hts.
  - assert (Hk : warning_type warn = INVALID_TIMESTAMP).
    { unfold determine_timestamp in Hts.
      repeat match type of Hts with
             | context [match ?x with _ => _ end] => destruct x
             end; inversion Hts; reflexivity. }
    exists [warn]. unfold warning_count. cbn. rewrite Hk. cbn. auto.
  - unfold check_monotonic.
    destruct (dgt (prev_time st) ts) eqn:Hgt;
      destruct (time_is_non_monotonic (result st)) eqn:Hflag; cbn [andb negb];
      [exists []|eexists [_]|exists []|exists []];
      destruct progress as [cb|];
      try destruct (_ && negb (cb _ _)); cbn; rewrite ?app_nil_r, ?Hflag; auto.
  - exists []. destruct progress as [cb|];
      try destruct (_ && negb (cb _ _)); cbn; rewrite ?app_nil_r; auto.
Qed.

(** The flag and the number of [NON_MONOTONIC_TIME] warnings move together. *)
Definition flag_matches_warning (r : CsvParseResult) : Prop :=
  warning_count NON_MONOTONIC_TIME (warnings r)
  = if time_is_non_monotonic r then 1 else 0.

Lemma row_loop_effect config progress num_columns total lines : forall st,
  let st' := flow_state (row_loop config progress num_columns total lines st) in
  (flag_matches_warning (result st) -> flag_matches_warning (result st'))
  /\ warning_count DUPLICATE_COLUMN_NAMES (warnings (result st'))
     = warning_count DUPLICATE_COLUMN_NAMES (warnings (result st))
  /\ time_is_non_monotonic (result st')
     = time_is_non_monotonic (result st)
       || descends (prev_time st)
                   (parsed_timestamps config progress num_columns total lines st).
Proof.
  induction lines as [|line rest IH]; intros st.
  - cbn. rewrite orb_false_r. auto.
  - cbn [row_loop parsed_timestamps].
    pose proof (row_body_effect config progress num_columns total line st) as Hb.
    cbv zeta in Hb. destruct Hb as (ws & Hws & Hdup & Hrow).
    assert (Hstep :
      (flag_matches_warning (result st) ->
       flag_matches_warning
         (result (flow_state (row_body config progress num_columns total line st))))
      /\ warning_count DUPLICATE_COLUMN_NAMES
           (warnings (result (flow_state (row_body config progress num_columns total line st))))
         = warning_count DUPLICATE_COLUMN_NAMES (warnings (result st))).
    { split.
      - unfold flag_matches_warning. intros Hinv.
        rewrite Hws, warning_count_app, Hinv.
        destruct (row_timestamp config num_columns line st) as [ts|];
          destruct Hrow as (_ & -> & ->);
          destruct (time_is_non_monotonic (result st));
          try destruct (dgt (prev_time st) ts); reflexivity.
      - rewrite Hws, warning_count_app, Hdup. lia. }
    destruct (row_body config progress num_columns total line st) as [st1|st1] eqn:Hrb;
      cbn [flow_state] in *.
    + specialize (IH st1). cbv zeta in IH. destruct IH as (IH1 & IH2 & IH3).
      destruct Hstep as (Hs1 & Hs2).
      split; [auto|]. split; [congruence|].
      rewrite IH3.
      destruct (row_timestamp config num_columns line st) as [ts|];
        destruct Hrow as (-> & -> & _); cbn; now rewrite ?orb_assoc.
    + destruct Hstep as (Hs1 & Hs2). split; [auto|]. split; [auto|].
      destruct (row_timestamp config num_columns line st) as [ts|];
        destruct Hrow as (_ & -> & _); cbn; now rewrite ?orb_false_r.
Qed.

(** The successfully parsed row timestamps of a whole parse. *)
Definition run_timestamps (input : istream) (config : CsvParseConfig)
           (progress : option (Z -> Z -> bool)) : list double :=
  match drop (Z.to_nat (skip_rows config)) (pending input) with
  | [] => []
  | header_line0 :: rest =>
      let st0 := loop_entry config (strip_cr header_line0) in
      parsed_timestamps config progress (length (column_names (result st0)))
                        (count_total input config progress rest) rest st0
  end.

Lemma header_result_warnings config header_line :
  warning_count NON_MONOTONIC_TIME (warnings (header_result config header_line)) = 0
  /\ time_is_non_monotonic (header_result config header_line) = false
  /\ warning_count DUPLICATE_COLUMN_NAMES (warnings (header_result config header_line))
     = if has_duplicates (SplitLine header_line (delimiter config)) then 1 else 0.
Proof.
  unfold header_result. cbn [warnings time_is_non_monotonic].
  destruct (has_duplicates (SplitLine header_line (delimiter config))); cbn; auto.
Qed.

(** What a parse that found its header line reports: the flag, the
    warnings of the two kinds, and how the flag relates to the timestamps. *)
Lemma ParseCsvData_stream_effect input config progress skipped header_line0 rest :
  pending input = skipped ++ header_line0 :: rest ->
  length skipped = Z.to_nat (skip_rows config) ->
  let r := ParseCsvData_stream input config progress in
  flag_matches_warning r
  /\ warning_count DUPLICATE_COLUMN_NAMES (warnings r)
     = (if has_duplicates (SplitLine (strip_cr header_line0) (delimiter config))
        then 1 else 0)
  /\ time_is_non_monotonic r
     = descends lowest (run_timestamps input config progress).
Proof.
  intros Hp Hlen. unfold ParseCsvData_stream, run_timestamps.
  rewrite Hp, length_app, <- Hlen.
  destruct (Nat.ltb_spec (length skipped + length (header_line0 :: rest)) (length skipped))
    as [Hlt|_]; [cbn in Hlt; lia|].
  rewrite drop_app_length.
  set (st0 := loop_entry config (strip_cr header_line0)).
  set (n := length (column_names (result st0))).
  set (total := count_total input config progress rest).
  pose proof (row_loop_effect config progress n total rest st0) as H.
  cbv zeta in H. destruct H as (H1 & H2 & H3).
  destruct (header_result_warnings config (strip_cr header_line0)) as (W1 & W2 & W3).
  assert (Hinv0 : flag_matches_warning (result st0)).
  { unfold flag_matches_warning, st0, loop_entry. cbn [result]. now rewrite W1, W2. }
  change (result st0) with (header_result config (strip_cr header_line0)) in H2, H3.
  rewrite W3 in H2. rewrite W2 in H3. cbn [orb] in H3.
  change (prev_time st0) with lowest in H3.
  destruct (row_loop config progress n total rest st0) as [st|st];
    cbn [flow_state] in *; cbv zeta; auto.
Qed.


Lemma ParseCsvData_stream_flag input config progress :
  flag_matches_warning (ParseCsvData_stream input config progress)
  /\ time_is_non_monotonic (ParseCsvData_stream input config progress)
     = descends lowest (run_timestamps input config progress).
Proof.
  destruct (Nat.ltb_spec (length (pending input)) (Z.to_nat (skip_rows config)))
    as [Hlt|Hge].
  - unfold ParseCsvData_stream, run_timestamps.
    rewrite (proj2 (Nat.ltb_lt _ _) Hlt), drop_ge by lia.
    split; reflexivity.
  - destruct (drop (Z.to_nat (skip_rows config)) (pending input))
      as [|header_line0 rest] eqn:Hd.
    + unfold ParseCsvData_stream, run_timestamps.
      rewrite (proj2 (Nat.ltb_ge _ _) Hge), Hd. split; reflexivity.
    + assert (Hp : pending input
                   = take (Z.to_nat (skip_rows config)) (pending input)
                     ++ header_line0 :: rest)
        by (rewrite <- Hd; symmetry; apply take_drop).
      assert (Hl : length (take (Z.to_nat (skip_rows config)) (pending input))
                   = Z.to_nat (skip_rows config))
        by (rewrite length_take; lia).
      destruct (ParseCsvData_stream_effect input config progress _ _ _ Hp Hl)
        as (H1 & _ & H3).
      split; assumption.
Qed.

(* --------------------------------------------------------------------- *)
(** ** The timestamps of a file, as the specification reads them          *)
(* --------------------------------------------------------------------- *)

(** What follows reads the timestamps off the lines of the input by the
    words of the specification (Column Type Inference, Timestamp
    Resolution, Row Loop).  The loop body [row_body], [detect_types] and
    [determine_timestamp] take no part in it. *)

(** "For each column whose type is still UNDEFINED and whose cell is
    non-empty, infer the type." *)
Definition spec_inferred (types : list ColumnTypeInfo) (fields : list string)
  : list ColumnTypeInfo :=
  imap (fun i ty =>
          match type ty with
          | UNDEFINED =>
              if String.eqb (at_ fields i) EmptyString then ty
              else DetectColumnType (at_ fields i)
          | _ => ty
          end)
       types.

(** How the timestamp of a row is resolved: a value parsed from the
    cells, a failure that skips the row, or the row index. *)
Inductive Resolution := Parsed (ts : double) | Invalid | RowIndex.

Definition parsed_or_invalid (parsed : option double) : Resolution :=
  match parsed with Some ts => Parsed ts | None => Invalid end.

(** "On each data row, the timestamp is chosen by this precedence": the
    combined pair when its index is set and valid; else the time column
    when its index names a column, parsed with the custom format when
    there is one and by the detected type otherwise, a [STRING] column
    not being accepted; else the row index. *)
Definition spec_resolution (config : CsvParseConfig) (num_columns : nat)
           (fields : list string) (types : list ColumnTypeInfo) : Resolution :=
  let cell i := Trim (vec_at fields i EmptyString) in
  let type_of i := vec_at types i default_type in
  match selected_pair config with
  | Some combo =>
      let date := CombinedColumnPair.date_column_index combo in
      let time := CombinedColumnPair.time_column_index combo in
      parsed_or_invalid
        (ParseCombinedDateTime (cell date) (cell time) (type_of date) (type_of time))
  | None =>
      let column := time_column_index config in
      if (0 <=? column)%Z && (column <? Z.of_nat num_columns)%Z then
        if String.eqb (custom_time_format config) EmptyString then
          match type (type_of column) with
          | STRING => Invalid
          | _ => parsed_or_invalid (ParseWithType (cell column) (type_of column))
          end
        else
          parsed_or_invalid (FormatParseTimestamp (cell column) (custom_time_format config))
      else RowIndex
  end.

(** "Every 100 lines, if a progress callback was supplied, invoke
    progress(current_line, total_lines).  A return of cancel aborts the
    parse." *)
Definition spec_cancelled (progress : option (Z -> Z -> bool)) (linenumber total : Z)
  : bool :=
  match progress with
  | Some callback => (Z.rem linenumber 100 =? 0)%Z && negb (callback linenumber total)
  | None => false
  end.

(** The row loop, for the timestamps alone: a line without fields or with
    the wrong number of fields is passed over; the types are inferred;
    a row whose timestamp is invalid is skipped; a parsed timestamp is
    kept; after a row that was not skipped the callback may cancel.
    [types] and [linenumber] are those before the first of [lines]. *)
Fixpoint spec_timestamps (config : CsvParseConfig) (progress : option (Z -> Z -> bool))
         (num_columns : nat) (total : Z) (lines : list string)
         (types : list ColumnTypeInfo) (linenumber : Z) : list double :=
  match lines with
  | [] => []
  | line0 :: rest =>
      let linenumber := (linenumber + 1)%Z in
      let fields := SplitLine (strip_cr line0) (delimiter config) in
      if Nat.eqb (length fields) 0 || negb (Nat.eqb (length fields) num_columns)
      then spec_timestamps config progress num_columns total rest types linenumber
      else
        let types := spec_inferred types fields in
        let onward :=
          if spec_cancelled progress linenumber total then []
          else spec_timestamps config progress num_columns total rest types linenumber in
        match spec_resolution config num_columns fields types with
        | Parsed ts => ts :: onward
        | Invalid => spec_timestamps config progress num_columns total rest types linenumber
        | RowIndex => onward
        end
  end.

(** The successfully parsed row timestamps of a file, in row order: the
    rows below the header line, every column type still to be inferred,
    the header line being line [skip_rows + 1]. *)
Definition spec_file_timestamps (input : istream) (config : CsvParseConfig)
           (progress : option (Z -> Z -> bool)) : list double :=
  match drop (Z.to_nat (skip_rows config)) (pending input) with
  | [] => []
  | header_line0 :: rest =>
      let num_columns :=
        length (ParseHeaderLine (strip_cr header_line0) (delimiter config)) in
      spec_timestamps config progress num_columns
                      (count_total input config progress rest) rest
                      (replicate num_columns default_type) (skip_rows config + 1)%Z
  end.

(** Some timestamp is strictly less than the one before it.  The first
    timestamp has none before it; the code compares it with [lowest],
    the value [prev_time] starts with. *)
Definition spec_descent (ts : list double) : Prop :=
  (exists first rest, ts = first :: rest /\ dgt lowest first = true)
  \/ (exists pre a b suf, ts = pre ++ a :: b :: suf /\ dgt a b = true).

Lemma descends_pairs prev ts :
  descends prev ts = true
  <-> (exists first rest, ts = first :: rest /\ dgt prev first = true)
      \/ (exists pre a b suf, ts = pre ++ a :: b :: suf /\ dgt a b = true).
Proof.
  revert prev. induction ts as [|t ts IH]; intros prev; cbn [descends].
  - split; [discriminate|].
    intros [(first & rest & H & _) | (pre & a & b & suf & H & _)];
      [discriminate|destruct pre; discriminate].
  - rewrite orb_true_iff, IH. split.
    + intros [H | [(first & rest & -> & H) | (pre & a & b & suf & -> & H)]].
      * left. eauto.
      * right. exists [], t, first, rest. auto.
      * right. exists (t :: pre), a, b, suf. auto.
    + intros [(first & rest & E & H) | (pre & a & b & suf & E & H)].
      * injection E as <- <-. auto.
      * destruct pre as [|p pre]; cbn [app] in E; injection E as <- ->.
        -- right. left. eauto.
        -- right. right. eauto 10.
Qed.

Lemma detect_types_spec types fields :
  detect_types types fields = spec_inferred types fields.
Proof.
  unfold detect_types, spec_inferred. apply imap_ext. intros i ty _.
  destruct ty as [[] fmt frac]; cbn [type]; try reflexivity.
  rewrite bool_decide_eq_true_2 by reflexivity. cbn [andb].
  destruct (String.eqb (at_ fields i) EmptyString); reflexivity.
Qed.

Lemma determine_timestamp_spec config num_columns fields types ln sc :
  match spec_resolution config num_columns fields types with
  | Parsed ts => determine_timestamp config num_columns fields types ln sc = inr (true, ts)
  | Invalid => exists warn, determine_timestamp config num_columns fields types ln sc = inl warn
  | RowIndex =>
      determine_timestamp config num_columns fields types ln sc = inr (false, of_int sc)
  end.
Proof.
  unfold spec_resolution, determine_timestamp.
  destruct (selected_pair config) as [combo|].
  - destruct (ParseCombinedDateTime _ _ _ _); cbn [parsed_or_invalid]; eauto.
  - destruct (_ && _); [|reflexivity].
    destruct (String.eqb (custom_time_format config) EmptyString); cbn [negb].
    + destruct (vec_at types (time_column_index config) default_type) as [[] fmt frac];
        cbn [type];
        rewrite ?bool_decide_eq_true_2, ?bool_decide_eq_false_2 by congruence;
        cbn [negb]; eauto;
        destruct (ParseWithType _ _); cbn [parsed_or_invalid]; eauto.
    + destruct (FormatParseTimestamp _ _); cbn [parsed_or_invalid]; eauto.
Qed.

(** The timestamps the loop compares are the timestamps of the file. *)
Lemma parsed_timestamps_spec config progress num_columns total lines : forall st,
  parsed_timestamps config progress num_columns total lines st
  = spec_timestamps config progress num_columns total lines
                    (column_types st) (linenumber st).
Proof.
  induction lines as [|line rest IH]; intros st; [reflexivity|].
  cbn [parsed_timestamps spec_timestamps]. unfold row_timestamp, row_body.
  destruct (Nat.eqb (length (SplitLine (strip_cr line) (delimiter config))) 0).
  { cbn [orb app]. rewrite IH. reflexivity. }
  destruct (negb (Nat.eqb (length (SplitLine (strip_cr line) (delimiter config)))
                          num_columns)).
  { cbn [orb app]. rewrite IH. reflexivity. }
  cbn [orb]. rewrite detect_types_spec.
  pose proof (determine_timestamp_spec config num_columns
                (SplitLine (strip_cr line) (delimiter config))
                (spec_inferred (column_types st)
                               (SplitLine (strip_cr line) (delimiter config)))
                (linenumber st + 1) (samplecount st)) as H.
  destruct (spec_resolution _ _ _ _) as [ts| |].
  - rewrite H. unfold spec_cancelled. destruct progress as [callback|].
    + destruct (_ && negb (callback _ _)); cbn [app]; [reflexivity|].
      rewrite IH. reflexivity.
    + cbn [app]. rewrite IH. reflexivity.
  - destruct H as [warn ->]. cbn [app]. rewrite IH. reflexivity.
  - rewrite H. unfold spec_cancelled. destruct progress as [callback|].
    + destruct (_ && negb (callback _ _)); cbn [app]; [reflexivity|].
      rewrite IH. reflexivity.
    + cbn [app]. rewrite IH. reflexivity.
Qed.

Lemma run_timestamps_spec input config progress :
  run_timestamps input config progress = spec_file_timestamps input config progress.
Proof.
  unfold run_timestamps, spec_file_timestamps.
  destruct (drop _ (pending input)) as [|header_line0 rest]; [reflexivity|].
  rewrite parsed_timestamps_spec. reflexivity.
Qed.

(** C9. For every parse: the [NON_MONOTONIC_TIME] warning appears at most
    once in the warning list; the result's non-monotonic flag is true if
    and only if that warning appears; and the warning appears exactly
    when, among the successfully parsed row timestamps of the file taken
    in row order, some timestamp is strictly less than the previous one
    (the code's test [prev_time > timestamp], the first timestamp being
    compared with the initial [prev_time], the lowest [double]).  The
    timestamps are those of [spec_file_timestamps], read off the input
    lines. *)
Theorem non_monotonic_warning_once input config progress :
  let r := ParseCsvData_stream input config progress in
  warning_count NON_MONOTONIC_TIME (warnings r) <= 1
  /\ (time_is_non_monotonic r = true
      <-> exists w, w ∈ warnings r /\ warning_type w = NON_MONOTONIC_TIME)
  /\ ((exists w, w ∈ warnings r /\ warning_type w = NON_MONOTONIC_TIME)
      <-> spec_descent (spec_file_timestamps input config progress))
  /\ (forall pre a b suf,
        spec_file_timestamps input config progress = pre ++ a :: b :: suf ->
        dgt a b = true ->
        exists w, w ∈ warnings r /\ warning_type w = NON_MONOTONIC_TIME).
Proof.
  cbv zeta.
  destruct (ParseCsvData_stream_flag input config progress) as (Hinv & Hflag).
  unfold flag_matches_warning in Hinv. rewrite run_timestamps_spec in Hflag.
  assert (Hiff : time_is_non_monotonic (ParseCsvData_stream input config progress) = true
                 <-> exists w, w ∈ warnings (ParseCsvData_stream input config progress)
                               /\ warning_type w = NON_MONOTONIC_TIME).
  { rewrite <- warning_count_pos, Hinv.
    destruct (time_is_non_monotonic _); split; (lia || congruence || auto). }
  assert (Hdesc : (exists w, w ∈ warnings (ParseCsvData_stream input config progress)
                             /\ warning_type w = NON_MONOTONIC_TIME)
                  <-> spec_descent (spec_file_timestamps input config progress)).
  { rewrite <- Hiff, Hflag. apply descends_pairs. }
  split; [|split; [|split]].
  - rewrite Hinv. destruct (time_is_non_monotonic _); lia.
  - exact Hiff.
  - exact Hdesc.
  - intros pre a b suf Hts Hgt. apply Hdesc. right. eauto 10.
Qed.

(* --------------------------------------------------------------------- *)
(** ** SplitLine: how many fields                                         *)
(* --------------------------------------------------------------------- *)

(** The line ends with a separator that lies inside an unclosed quote;
    [inside] is the quote state before [rest]. *)
Fixpoint ends_inside_quote (separator : ascii) (rest : string) (inside : bool) : bool :=
  match rest with
  | EmptyString => false
  | String c rest' =>
      let inside' := if Ascii.eqb c dquote then negb inside else inside in
      match rest' with
      | EmptyString => Ascii.eqb c separator && inside'
      | _ => ends_inside_quote separator rest' inside'
      end
  end.

Lemma countOutsideQuotes_loop_acc line d n inside :
  countOutsideQuotes_loop line d n inside
  = (n + countOutsideQuotes_loop line d 0 inside)%Z.
Proof.
  revert n inside. induction line as [|c rest IH]; intros n inside; cbn; [lia|].
  destruct (Ascii.eqb c dquote); [apply IH|].
  destruct (negb inside && Ascii.eqb c d); [|apply IH].
  rewrite (IH (n + 1)%Z), (IH (0 + 1)%Z). lia.
Qed.

Lemma countOutsideQuotes_loop_nonneg line d inside :
  (0 <= countOutsideQuotes_loop line d 0 inside)%Z.
Proof.
  revert inside. induction line as [|c rest IH]; intros inside; cbn; [lia|].
  destruct (Ascii.eqb c dquote); [apply IH|].
  destruct (negb inside && Ascii.eqb c d); [|apply IH].
  rewrite countOutsideQuotes_loop_acc. specialize (IH inside). lia.
Qed.

Lemma countOutsideQuotes_loop_cons c r d inside :
  countOutsideQuotes_loop (String c r) d 0 inside
  = let inside' := if Ascii.eqb c dquote then negb inside else inside in
    ((if negb (Ascii.eqb c dquote) && (negb inside && Ascii.eqb c d) then 1 else 0)
     + countOutsideQuotes_loop r d 0 inside')%Z.
Proof.
  cbn [countOutsideQuotes_loop]. destruct (Ascii.eqb c dquote); cbn [negb andb]; [lia|].
  destruct (negb inside && Ascii.eqb c d); [|lia].
  rewrite countOutsideQuotes_loop_acc. lia.
Qed.

Lemma ends_inside_quote_cons separator c r inside :
  r <> EmptyString ->
  ends_inside_quote separator (String c r) inside
  = ends_inside_quote separator r (if Ascii.eqb c dquote then negb inside else inside).
Proof. destruct r; [congruence|reflexivity]. Qed.

(** What one turn of the loop does to the number of parts and to the
    quote state. *)
Lemma SplitLine_body_count line separator st pos :
  let c := char_at line pos in
  let at_end := (pos + 1 =? Z.of_nat (String.length line))%Z in
  let inside' := if Ascii.eqb c dquote then negb (inside_quotes st)
                 else inside_quotes st in
  let completed := (negb inside' && Ascii.eqb c separator) || at_end in
  length (parts (SplitLine_body line separator st pos))
  = length (parts st) + (if completed then 1 else 0)
    + (if at_end && Ascii.eqb c separator then 1 else 0)
  /\ inside_quotes (SplitLine_body line separator st pos)
     = (if completed then false else inside').
Proof.
  unfold SplitLine_body. destruct st as [ps inside qw sp qs qe].
  cbn [parts inside_quotes quoted_word start_pos quote_start quote_end].
  destruct (Ascii.eqb (char_at line pos) dquote);
    destruct inside;
    destruct (Ascii.eqb (char_at line pos) separator);
    destruct (pos + 1 =? Z.of_nat (String.length line))%Z;
    cbn; rewrite ?length_app; cbn; split; (lia || reflexivity).
Qed.

Lemma SplitLine_count_from line separator :
  separator <> dquote ->
  forall rest pre st,
    line = pre +:+ rest ->
    rest <> EmptyString ->
    Z.of_nat (length (parts (fold_left (SplitLine_body line separator)
                               (map Z.of_nat (seq (String.length pre) (String.length rest)))
                               st)))
    = (Z.of_nat (length (parts st))
       + countOutsideQuotes_loop rest separator 0 (inside_quotes st) + 1
       + (if ends_inside_quote separator rest (inside_quotes st) then 1 else 0))%Z.
Proof.
  intros Hsep. induction rest as [|c rest IH]; intros pre st Hline Hne; [congruence|].
  cbn [String.length seq map fold_left].
  pose proof (SplitLine_body_count line separator st (Z.of_nat (String.length pre))) as Hb.
  cbv zeta in Hb.
  assert (Hc : char_at line (Z.of_nat (String.length pre)) = c).
  { pose proof (char_at_here line pre EmptyString c rest) as H.
    cbn [String.length] in H. rewrite Nat.add_0_r in H. apply H.
    rewrite Hline. reflexivity. }
  assert (He : (Z.of_nat (String.length pre) + 1 =? Z.of_nat (String.length line))%Z
               = match rest with EmptyString => true | _ => false end).
  { pose proof (at_end_here line pre EmptyString c rest) as H.
    cbn [String.length] in H. rewrite Nat.add_0_r in H. apply H.
    rewrite Hline. reflexivity. }
  rewrite Hc, He in Hb. destruct Hb as [Hlen Hin].
  assert (Hcs : Ascii.eqb c dquote = true -> Ascii.eqb c separator = false).
  { intros H. apply Ascii.eqb_eq in H. subst c.
    apply Ascii.eqb_neq. congruence. }
  destruct rest as [|c' rest'].
  - (* the last character *)
    cbn [String.length seq map fold_left countOutsideQuotes_loop ends_inside_quote].
    rewrite Hlen. rewrite orb_true_r. cbn [andb].
    destruct (Ascii.eqb c dquote) eqn:Eq.
    + rewrite (Hcs eq_refl). cbn. lia.
    + destruct (inside_quotes st); destruct (Ascii.eqb c separator); cbn; lia.
  - assert (Hline' : line = (pre +:+ String c EmptyString) +:+ String c' rest').
    { rewrite Hline, append_assoc. reflexivity. }
    specialize (IH (pre +:+ String c EmptyString)
                   (SplitLine_body line separator st (Z.of_nat (String.length pre)))
                   Hline' ltac:(discriminate)).
    rewrite length_append in IH. cbn [String.length] in IH |- *.
    rewrite Nat.add_1_r in IH. rewrite IH, Hlen, Hin.
    rewrite orb_false_r. cbn [andb].
    rewrite (countOutsideQuotes_loop_cons c), (ends_inside_quote_cons separator c)
      by discriminate.
    cbv zeta.
    destruct (Ascii.eqb c dquote) eqn:Eq.
    + rewrite (Hcs eq_refl), andb_false_r. cbn [negb andb]. lia.
    + destruct (inside_quotes st) eqn:Ei; cbn [negb andb]; [lia|].
      destruct (Ascii.eqb c separator); cbn [negb andb]; lia.
Qed.

Lemma SplitLine_length (line : string) (separator : ascii) :
  separator <> dquote ->
  Z.of_nat (length (SplitLine line separator))
  = match line with
    | EmptyString => 0%Z
    | _ => (countOutsideQuotes line separator + 1
            + (if ends_inside_quote separator line false then 1 else 0))%Z
    end.
Proof.
  intros Hsep. destruct line as [|c rest] eqn:Hl; [reflexivity|]. rewrite <- Hl.
  unfold SplitLine, SplitLine_run, indices, countOutsideQuotes.
  pose proof (SplitLine_count_from line separator Hsep line EmptyString split_init
                eq_refl ltac:(subst; discriminate)) as H.
  cbn [String.length inside_quotes parts split_init length] in H.
  rewrite H. lia.
Qed.

(** X5. The number of fields.  For a separator other than the double quote,
    an empty line has no field; any other line has one field more than it
    has separators outside quotes, and one more still when it ends with a
    separator inside a quote that was never closed. *)
Theorem SplitLine_field_count (line : string) (separator : ascii) :
  separator <> dquote ->
  Z.of_nat (length (SplitLine line separator))
  = match line with
    | EmptyString => 0%Z
    | _ => (countOutsideQuotes line separator + 1
            + (if ends_inside_quote separator line false then 1 else 0))%Z
    end.
Proof.
  intros Hsep. destruct line as [|c rest] eqn:Hl; [reflexivity|]. rewrite <- Hl.
  unfold SplitLine, SplitLine_run, indices, countOutsideQuotes.
  pose proof (SplitLine_count_from line separator Hsep line EmptyString split_init
                eq_refl ltac:(subst; discriminate)) as H.
  cbn [String.length inside_quotes parts split_init length] in H.
  rewrite H. lia.
Qed.

(** Only the empty line has no parts: the test [parts.empty()] of the
    parser skips empty lines and nothing else. *)
Lemma SplitLine_nil_iff line separator :
  SplitLine line separator = [] <-> line = EmptyString.
Proof.
  split; [|intros ->; reflexivity].
  destruct line as [|c rest] eqn:Hl; [reflexivity|]. rewrite <- Hl. intros H. exfalso.
  revert H. unfold SplitLine, SplitLine_run, indices.
  assert (Hlen : String.length line = S (String.length rest)) by (subst; reflexivity).
  rewrite Hlen, seq_S, map_app, fold_left_app. cbn [Nat.add map fold_left].
  set (st := fold_left _ _ split_init).
  pose proof (SplitLine_body_count line separator st (Z.of_nat (String.length rest))) as Hb.
  cbv zeta in Hb. destruct Hb as [Hb _].
  assert (He : (Z.of_nat (String.length rest) + 1 =? Z.of_nat (String.length line))%Z = true).
  { apply Z.eqb_eq. lia. }
  rewrite He, orb_true_r in Hb. intros H. rewrite H in Hb. cbn in Hb. lia.
Qed.

(* --------------------------------------------------------------------- *)
(** ** ParseHeaderLine: when no suffix is needed                          *)
(* --------------------------------------------------------------------- *)

Lemma to_uint_nonnil n : Nat.to_uint n <> Decimal.Nil.
Proof.
  rewrite <- (DecimalNat.Unsigned.of_to n), DecimalNat.Unsigned.to_of.
  apply DecimalFacts.unorm_nonnil.
Qed.

Lemma to_string_inj i j : to_string i = to_string j -> i = j.
Proof.
  unfold to_string. intros H.
  apply (f_equal NilZero.uint_of_string) in H.
  rewrite !NilZero.usu in H by apply to_uint_nonnil.
  injection H as H. now apply DecimalNat.Unsigned.to_uint_inj.
Qed.

Lemma append_inj_l (p a b : string) : p +:+ a = p +:+ b -> a = b.
Proof.
  induction p as [|c p IH]; [auto|]. rewrite !append_cons. intros [= H]. auto.
Qed.

Lemma generated_name_inj i j : generated_name i = generated_name j -> i = j.
Proof. unfold generated_name. intros H. apply append_inj_l in H. now apply to_string_inj. Qed.

Lemma handle_duplicates_NoDup names :
  NoDup names -> handle_duplicates names = names.
Proof.
  intros H. unfold handle_duplicates.
  destruct (has_duplicates names) eqn:E; [|reflexivity].
  apply has_duplicates_spec in E. contradiction.
Qed.

Lemma is_number_count_all fields :
  is_number_count fields = length fields
  <-> forall field, field ∈ fields -> is_Some (toDouble (Trim field)).
Proof.
  unfold is_number_count. induction fields as [|f fields IH]; cbn.
  - split; [intros _ ? H; inversion H|reflexivity].
  - pose proof (List.filter_length_le
                  (fun field => bool_decide (is_Some (toDouble (Trim field)))) fields) as Hle.
    destruct (bool_decide (is_Some (toDouble (Trim f)))) eqn:E; cbn [length].
    + apply bool_decide_eq_true in E. split.
      * intros H field Hin. apply elem_of_cons in Hin as [->|Hin]; [assumption|].
        apply IH; [lia|assumption].
      * intros H. f_equal. apply IH. intros field Hin. apply H. now right.
    + apply bool_decide_eq_false in E. split; [lia|].
      intros H. exfalso. apply E, H. now left.
Qed.

(** X6. A header of numbers only.  When every field of the header line reads
    as a number, the column names are [_Column_0], [_Column_1], ... in
    order, and they are pairwise different. *)
Theorem ParseHeaderLine_all_numbers (header_line : string) (delimiter : ascii) :
  (forall field, field ∈ SplitLine header_line delimiter ->
                 is_Some (toDouble (Trim field))) ->
  ParseHeaderLine header_line delimiter
  = map generated_name (seq 0 (length (SplitLine header_line delimiter)))
  /\ NoDup (ParseHeaderLine header_line delimiter).
Proof.
  intros Hnum. unfold ParseHeaderLine, initial_names.
  apply is_number_count_all in Hnum. rewrite Hnum, Nat.eqb_refl.
  rewrite (imap_seq_0 (SplitLine header_line delimiter) generated_name).
  assert (Hnd : NoDup (generated_name <$> seq 0 (length (SplitLine header_line delimiter)))).
  { apply NoDup_fmap_2; [|apply NoDup_seq].
    intros i j. apply generated_name_inj. }
  rewrite handle_duplicates_NoDup by exact Hnd. split; [reflexivity|exact Hnd].
Qed.

Lemma imap_named (g : nat -> string) fields :
  (forall field, field ∈ fields -> Trim field <> EmptyString) ->
  imap (fun i field => let name := Trim field in
                       if String.eqb name EmptyString then g i else name) fields
  = map Trim fields.
Proof.
  revert g. induction fields as [|f fields IH]; intros g Hne; [reflexivity|].
  rewrite imap_cons. cbn [map].
  pose proof (Hne f ltac:(now left)) as Hf. apply String.eqb_neq in Hf.
  cbv zeta. rewrite Hf. f_equal.
  apply (IH (fun i => g (S i))). intros ? ?. apply Hne. now right.
Qed.

(** X7. A header of distinct names.  When the trimmed fields are pairwise
    different, none is empty and not all of them read as numbers, the
    column names are the trimmed fields, unchanged. *)
Theorem ParseHeaderLine_distinct_names (header_line : string) (delimiter : ascii) :
  let fields := SplitLine header_line delimiter in
  NoDup (map Trim fields) ->
  (forall field, field ∈ fields -> Trim field <> EmptyString) ->
  (exists field, field ∈ fields /\ toDouble (Trim field) = None) ->
  ParseHeaderLine header_line delimiter = map Trim fields.
Proof.
  cbv zeta. intros Hnd Hne (field & Hin & Hnot).
  unfold ParseHeaderLine, initial_names.
  destruct (Nat.eqb_spec (is_number_count (SplitLine header_line delimiter))
                         (length (SplitLine header_line delimiter))) as [E|_].
  { pose proof (proj1 (is_number_count_all _) E field Hin) as [? E'].
    congruence. }
  rewrite (imap_named generated_name) by exact Hne.
  now apply handle_duplicates_NoDup.
Qed.

(* --------------------------------------------------------------------- *)
(** ** DetectCombinedDateTimeColumns                                      *)
(* --------------------------------------------------------------------- *)

(** Columns [i] and [i + 1] are a date next to a time, in either order. *)
Definition date_time_at (types : list ColumnTypeInfo) (i : nat) : Prop :=
  exists a b, types !! i = Some a /\ types !! S i = Some b
              /\ ((type a = DATE_ONLY /\ type b = TIME_ONLY)
                  \/ (type a = TIME_ONLY /\ type b = DATE_ONLY)).

(** [p] is the pair made of the columns [i] and [i + 1]. *)
Definition pair_at (column_names : list string) (types : list ColumnTypeInfo)
           (i : nat) (p : CombinedColumnPair.t) : Prop :=
  exists a b, types !! i = Some a /\ types !! S i = Some b
    /\ ((type a = DATE_ONLY /\ type b = TIME_ONLY
         /\ p = CombinedColumnPair.mk (Z.of_nat i) (Z.of_nat (i + 1))
                  (at_ column_names i +:+ " + " +:+ at_ column_names (i + 1)))
        \/ (type a = TIME_ONLY /\ type b = DATE_ONLY
            /\ p = CombinedColumnPair.mk (Z.of_nat (i + 1)) (Z.of_nat i)
                     (at_ column_names (i + 1) +:+ " + " +:+ at_ column_names i))).

(** The first columns of the pairs: each one lies at least two past the
    one before, the first at [from] or later. *)
Fixpoint spaced (from : nat) (starts : list nat) : Prop :=
  match starts with
  | [] => True
  | i :: rest => from <= i /\ spaced (i + 2) rest
  end.

Lemma spaced_weaken from from' starts :
  from' <= from -> spaced from starts -> spaced from' starts.
Proof. destruct starts; cbn; [auto|]. intros ? [? ?]. split; [lia|assumption]. Qed.

Lemma combined_loop_pairs column_names all n : forall rest pre,
  length rest <= n ->
  all = pre ++ rest ->
  exists starts,
    Forall2 (pair_at column_names all) starts
            (combined_loop column_names (length pre) rest)
    /\ spaced (length pre) starts
    /\ (starts = [] ->
        forall i, length pre <= i -> ~ date_time_at all i).
Proof.
  induction n as [|n IH]; intros rest pre Hn Hall.
  { destruct rest; [|cbn in Hn; lia]. exists []. cbn. repeat split; try constructor.
    intros _ i Hi (a & b & Ha & _). apply lookup_lt_Some in Ha.
    rewrite Hall, length_app in Ha. cbn in Ha. lia. }
  destruct rest as [|a [|b rest]].
  - exists []. cbn. repeat split; try constructor.
    intros _ i Hi (a & b & Ha & _). apply lookup_lt_Some in Ha.
    rewrite Hall, length_app in Ha. cbn in Ha. lia.
  - exists []. cbn. repeat split; try constructor.
    intros _ i Hi (x & y & _ & Hy & _). apply lookup_lt_Some in Hy.
    rewrite Hall, length_app in Hy. cbn in Hy. lia.
  - assert (Ha : all !! length pre = Some a).
    { rewrite Hall, lookup_app_r, Nat.sub_diag by lia. reflexivity. }
    assert (Hb : all !! S (length pre) = Some b).
    { rewrite Hall, lookup_app_r by lia.
      replace (S (length pre) - length pre) with 1 by lia. reflexivity. }
    cbn [combined_loop].
    assert (Hskip : all = (pre ++ [a; b]) ++ rest) by (rewrite Hall, <- app_assoc; reflexivity).
    assert (Hnext : all = (pre ++ [a]) ++ b :: rest) by (rewrite Hall, <- app_assoc; reflexivity).
    pose proof (IH rest (pre ++ [a; b]) ltac:(cbn in Hn; lia) Hskip) as IH2.
    pose proof (IH (b :: rest) (pre ++ [a]) ltac:(cbn in Hn |- *; lia) Hnext) as IH1.
    rewrite length_app in IH1, IH2. cbn [length] in IH1, IH2.
    destruct (bool_decide (type a = DATE_ONLY) && bool_decide (type b = TIME_ONLY)) eqn:E1;
      [|destruct (bool_decide (type a = TIME_ONLY) && bool_decide (type b = DATE_ONLY)) eqn:E2].
    + apply andb_prop in E1 as [Ea Eb].
      apply bool_decide_eq_true in Ea, Eb.
      destruct IH2 as (starts & HF & Hs & _).
      exists (length pre :: starts). split; [|split].
      * constructor; [|exact HF]. exists a, b. repeat split; try assumption. left. auto.
      * cbn. split; [lia|exact Hs].
      * discriminate.
    + apply andb_prop in E2 as [Ea Eb].
      apply bool_decide_eq_true in Ea, Eb.
      destruct IH2 as (starts & HF & Hs & _).
      exists (length pre :: starts). split; [|split].
      * constructor; [|exact HF]. exists a, b. repeat split; try assumption. right. auto.
      * cbn. split; [lia|exact Hs].
      * discriminate.
    + destruct IH1 as (starts & HF & Hs & Hnone).
      exists starts. split; [|split].
      * exact HF.
      * eapply spaced_weaken; [|exact Hs]. lia.
      * intros Hnil i Hi Hdt.
        destruct (decide (i = length pre)) as [->|Hne].
        -- destruct Hdt as (x & y & Hx & Hy & Hxy).
           rewrite Ha in Hx. rewrite Hb in Hy. injection Hx as <-. injection Hy as <-.
           destruct Hxy as [[Hx Hy]|[Hx Hy]].
           ++ rewrite (bool_decide_eq_true_2 _ Hx), (bool_decide_eq_true_2 _ Hy) in E1.
              discriminate.
           ++ rewrite (bool_decide_eq_true_2 _ Hx), (bool_decide_eq_true_2 _ Hy) in E2.
              discriminate.
        -- apply (Hnone Hnil i); [lia|exact Hdt].
Qed.

(** X8. The pairs found.  Every pair returned is made of two adjacent columns,
    one typed [DATE_ONLY] and the other [TIME_ONLY], and is named after
    them, date first; the pairs come in column order and share no column;
    and no pair is returned only when no date stands next to a time. *)
Theorem DetectCombinedDateTimeColumns_pairs
        (column_names : list string) (column_types : list ColumnTypeInfo) :
  let pairs := DetectCombinedDateTimeColumns column_names column_types in
  exists starts,
    Forall2 (pair_at column_names column_types) starts pairs
    /\ spaced 0 starts
    /\ (pairs = [] <-> forall i, ~ date_time_at column_types i).
Proof.
  cbv zeta. unfold DetectCombinedDateTimeColumns.
  destruct (combined_loop_pairs column_names column_types (length column_types)
              column_types [] ltac:(lia) eq_refl) as (starts & HF & Hs & Hnone).
  cbn [length] in HF, Hs, Hnone. exists starts. split; [exact HF|]. split; [exact Hs|]. split.
  - intros Hnil i. apply Hnone; [|lia].
    rewrite Hnil in HF. inversion HF. reflexivity.
  - intros Hno. destruct starts as [|i starts].
    + inversion HF. reflexivity.
    + inversion HF as [|? p ? ? Hp _]. exfalso. apply (Hno i).
      destruct Hp as (a & b & Ha & Hb & Hab). exists a, b.
      split; [exact Ha|]. split; [exact Hb|].
      destruct Hab as [(Hx & Hy & _)|(Hx & Hy & _)]; [left|right]; split; assumption.
Qed.

(* --------------------------------------------------------------------- *)
(** ** ParseCsvData: what a parse leaves in the result                    *)
(* --------------------------------------------------------------------- *)

(** The three ways one turn of the loop can go: an empty line is passed
    over; a line is skipped with a warning; a line is processed. *)
Lemma row_body_cases config progress num_columns total line st :
  let fields := SplitLine (strip_cr line) (delimiter config) in
  let ln := (linenumber st + 1)%Z in
  let st' := flow_state (row_body config progress num_columns total line st) in
  (strip_cr line = EmptyString
   /\ result st' = result st /\ samplecount st' = samplecount st /\ linenumber st' = ln)
  \/ (strip_cr line <> EmptyString
      /\ exists warn,
           (warning_type warn = WRONG_COLUMN_COUNT \/ warning_type warn = INVALID_TIMESTAMP)
           /\ line_number warn = ln
           /\ result st' = incr_lines_skipped (push_warning warn (result st))
           /\ samplecount st' = samplecount st /\ linenumber st' = ln)
  \/ (strip_cr line <> EmptyString
      /\ length fields = num_columns
      /\ exists valid ts,
           determine_timestamp config num_columns fields
             (detect_types (column_types st) fields) ln (samplecount st) = inr (valid, ts)
           /\ (let r1 := if valid
                         then check_monotonic ts ln (prev_time st) (result st)
                         else result st in
               result st'
               = set_columns
                   (imap (parse_column (combined_component_indices r1) ts fields
                                       (detect_types (column_types st) fields))
                         (columns r1)) r1)
           /\ samplecount st' = (samplecount st + 1)%Z /\ linenumber st' = ln).
Proof.
  cbv zeta. unfold row_body.
  destruct (Nat.eqb_spec (length (SplitLine (strip_cr line) (delimiter config))) 0) as [E0|E0].
  { left. apply length_zero_iff_nil, SplitLine_nil_iff in E0. auto. }
  assert (Hne : strip_cr line <> EmptyString).
  { intros H. apply E0. rewrite H. reflexivity. }
  destruct (Nat.eqb_spec (length (SplitLine (strip_cr line) (delimiter config))) num_columns)
    as [En|En]; cbn [negb].
  2: { right. left. split; [exact Hne|].
       match goal with |- context [push_warning ?w _] => exists w end.
       cbn. auto 10. }
  destruct (determine_timestamp _ _ _ _ _ _) as [warn|[valid ts]] eqn:Hts.
  - right. left. split; [exact Hne|]. exists warn.
    assert (Hk : warning_type warn = INVALID_TIMESTAMP /\ line_number warn = (linenumber st + 1)%Z).
    { unfold determine_timestamp in Hts.
      repeat match type of Hts with
             | context [match ?x with _ => _ end] => destruct x
             end; inversion Hts; split; reflexivity. }
    destruct Hk as [Hk Hl]. cbn. auto 10.
  - right. right. split; [exact Hne|]. split; [exact En|]. exists valid, ts.
    split; [reflexivity|].
    destruct progress as [cb|]; [destruct (_ && negb (cb _ _))|]; cbn; auto.
Qed.

Lemma check_monotonic_fields ts ln prev r :
  success (check_monotonic ts ln prev r) = success r
  /\ columns (check_monotonic ts ln prev r) = columns r
  /\ column_names (check_monotonic ts ln prev r) = column_names r
  /\ lines_processed (check_monotonic ts ln prev r) = lines_processed r
  /\ lines_skipped (check_monotonic ts ln prev r) = lines_skipped r
  /\ combined_component_indices (check_monotonic ts ln prev r)
     = combined_component_indices r
  /\ exists ws, warnings (check_monotonic ts ln prev r) = warnings r ++ ws
                /\ Forall (fun w => warning_type w = NON_MONOTONIC_TIME) ws.
Proof.
  unfold check_monotonic. destruct (dgt prev ts && negb (time_is_non_monotonic r)); cbn.
  - repeat split. eexists. split; [reflexivity|]. repeat constructor.
  - repeat split. exists []. rewrite app_nil_r. split; [reflexivity|constructor].
Qed.

Lemma parse_column_name comb ts fields types i col :
  name (parse_column comb ts fields types i col) = name col.
Proof.
  unfold parse_column.
  repeat match goal with
         | |- context [match ?x with _ => _ end] => destruct x
         end; reflexivity.
Qed.

(** Number of points a column holds. *)
Definition points (col : CsvColumnData) : nat :=
  length (numeric_points col) + length (string_points col).

Lemma parse_column_points comb ts fields types i col :
  points (parse_column comb ts fields types i col) <= S (points col)
  /\ (Z.of_nat i ∈ comb -> parse_column comb ts fields types i col = col).
Proof.
  unfold parse_column, points. split.
  - repeat match goal with
           | |- context [match ?x with _ => _ end] => destruct x
           end; cbn; rewrite ?length_app; cbn; lia.
  - intros Hin. now rewrite bool_decide_eq_true_2.
Qed.

Lemma warning_count_single k w :
  warning_count k [w] = if bool_decide (warning_type w = k) then 1 else 0.
Proof. unfold warning_count. cbn. now destruct (bool_decide _). Qed.

(** What holds of the result of a parse at every moment of the loop. *)
Record shaped (st : LoopState) : Prop := {
  sh_names : map name (columns (result st)) = column_names (result st);
  sh_skipped :
    lines_skipped (result st)
    = Z.of_nat (warning_count WRONG_COLUMN_COUNT (warnings (result st))
                + warning_count INVALID_TIMESTAMP (warnings (result st)));
  sh_count : (0 <= samplecount st)%Z;
  sh_points :
    Forall (fun col => (Z.of_nat (points col) <= samplecount st)%Z) (columns (result st));
  sh_components : forall i col,
    columns (result st) !! i = Some col ->
    Z.of_nat i ∈ combined_component_indices (result st) ->
    numeric_points col = [] /\ string_points col = []
}.

Lemma map_name_imap_parse_column comb ts fields types cols :
  map name (imap (parse_column comb ts fields types) cols) = map name cols.
Proof.
  change (map name) with (fmap (M := list) name).
  rewrite fmap_imap. rewrite <- imap_const. apply imap_ext.
  intros i col _. cbn. apply parse_column_name.
Qed.

Lemma row_body_shaped config progress num_columns total line st :
  shaped st -> shaped (flow_state (row_body config progress num_columns total line st)).
Proof.
  intros [Hn Hs Hc Hp Hk].
  destruct (row_body_cases config progress num_columns total line st)
    as [(_ & Hr & Hsc & _) | [(_ & warn & Hw & _ & Hr & Hsc & _)
                              | (_ & _ & valid & ts & _ & Hr & Hsc & _)]];
    cbv zeta in Hr.
  - split; rewrite ?Hr, ?Hsc; assumption.
  - split; rewrite ?Hr, ?Hsc;
      cbn [columns column_names lines_skipped warnings combined_component_indices
           incr_lines_skipped push_warning]; try assumption.
    rewrite !warning_count_app, !warning_count_single, Hs.
    destruct Hw as [Hw|Hw]; rewrite !Hw; repeat case_bool_decide; (congruence || lia).
  - set (r1 := if valid then check_monotonic ts (linenumber st + 1) (prev_time st) (result st)
               else result st) in Hr.
    assert (H1 : columns r1 = columns (result st)
                 /\ column_names r1 = column_names (result st)
                 /\ lines_skipped r1 = lines_skipped (result st)
                 /\ combined_component_indices r1 = combined_component_indices (result st)
                 /\ exists ws, warnings r1 = warnings (result st) ++ ws
                               /\ Forall (fun w => warning_type w = NON_MONOTONIC_TIME) ws).
    { subst r1. destruct valid.
      - destruct (check_monotonic_fields ts (linenumber st + 1) (prev_time st) (result st))
          as (_ & ? & ? & _ & ? & ? & ?). auto.
      - repeat split. exists []. rewrite app_nil_r. split; [reflexivity|constructor]. }
    destruct H1 as (Hcols & Hnames & Hsk & Hcomb & ws & Hws & Hkind).
    assert (Hzero : forall k, k <> NON_MONOTONIC_TIME -> warning_count k ws = 0).
    { intros k Hk'. unfold warning_count. clear Hws.
      induction Hkind as [|w ws' Hw _ IH]; [reflexivity|]. cbn.
      rewrite Hw. rewrite bool_decide_eq_false_2 by congruence. exact IH. }
    split; rewrite ?Hr, ?Hsc; cbn [columns column_names lines_skipped warnings
                                  combined_component_indices result set_columns].
    + rewrite map_name_imap_parse_column, Hcols, Hnames. exact Hn.
    + rewrite Hsk, Hws, !warning_count_app, !Hzero by discriminate. rewrite Hs. lia.
    + lia.
    + rewrite Hcols. apply Forall_forall. intros col' Hin.
      apply list_elem_of_lookup in Hin as [i Hi].
      rewrite list_lookup_imap in Hi.
      destruct (columns (result st) !! i) as [col|] eqn:Ei; [|discriminate].
      cbn in Hi. injection Hi as <-.
      pose proof (proj1 (parse_column_points (combined_component_indices r1) ts
                           (SplitLine (strip_cr line) (delimiter config))
                           (detect_types (column_types st)
                              (SplitLine (strip_cr line) (delimiter config))) i col)) as Hle.
      rewrite Forall_forall in Hp.
      specialize (Hp col (list_elem_of_lookup_2 _ _ _ Ei)). lia.
    + rewrite Hcols, Hcomb. intros i col' Hi Hin.
      rewrite list_lookup_imap in Hi.
      destruct (columns (result st) !! i) as [col|] eqn:Ei; [|discriminate].
      cbn in Hi. injection Hi as <-.
      rewrite (proj2 (parse_column_points (combined_component_indices (result st)) ts
                        (SplitLine (strip_cr line) (delimiter config))
                        (detect_types (column_types st)
                           (SplitLine (strip_cr line) (delimiter config))) i col) Hin).
      exact (Hk i col Ei Hin).
Qed.

Lemma row_loop_shaped config progress num_columns total lines : forall st,
  shaped st -> shaped (flow_state (row_loop config progress num_columns total lines st)).
Proof.
  induction lines as [|line rest IH]; intros st Hst; [exact Hst|].
  cbn [row_loop].
  pose proof (row_body_shaped config progress num_columns total line st Hst) as Hb.
  destruct (row_body config progress num_columns total line st) as [st1|st1];
    cbn [flow_state] in Hb |- *; [apply IH|]; exact Hb.
Qed.

Lemma loop_entry_shaped config header_line : shaped (loop_entry config header_line).
Proof.
  unfold loop_entry, header_result.
  destruct (has_duplicates (SplitLine header_line (delimiter config))); split; cbn.
  all: try (rewrite map_map; cbn; apply map_id).
  all: try reflexivity.
  all: try lia.
  all: try (apply Forall_forall; intros col Hin;
            apply list_elem_of_In, in_map_iff in Hin;
            destruct Hin as (n & <- & _); cbn; lia).
  all: intros i col Hi _; apply list_elem_of_lookup_2, list_elem_of_In, in_map_iff in Hi;
    destruct Hi as (n & <- & _); auto.
Qed.

(** What the loop never touches. *)
Lemma row_body_fixed config progress num_columns total line st :
  let r' := result (flow_state (row_body config progress num_columns total line st)) in
  success r' = success (result st)
  /\ column_names r' = column_names (result st)
  /\ lines_processed r' = lines_processed (result st)
  /\ combined_component_indices r' = combined_component_indices (result st).
Proof.
  cbv zeta.
  destruct (row_body_cases config progress num_columns total line st)
    as [(_ & Hr & _) | [(_ & warn & _ & _ & Hr & _) | (_ & _ & valid & ts & _ & Hr & _)]];
    cbv zeta in Hr; rewrite Hr; [auto|cbn; auto|].
  cbn [success column_names lines_processed combined_component_indices set_columns].
  destruct valid; [|auto].
  destruct (check_monotonic_fields ts (linenumber st + 1) (prev_time st) (result st))
    as (? & _ & ? & ? & _ & ? & _). auto.
Qed.

Lemma row_loop_fixed config progress num_columns total lines : forall st,
  let r' := result (flow_state (row_loop config progress num_columns total lines st)) in
  success r' = success (result st)
  /\ column_names r' = column_names (result st)
  /\ lines_processed r' = lines_processed (result st)
  /\ combined_component_indices r' = combined_component_indices (result st).
Proof.
  induction lines as [|line rest IH]; intros st; [cbn; auto|].
  cbn [row_loop].
  pose proof (row_body_fixed config progress num_columns total line st) as Hb.
  cbv zeta in Hb.
  destruct (row_body config progress num_columns total line st) as [st1|st1];
    cbn [flow_state] in Hb |- *; [|exact Hb].
  specialize (IH st1). cbv zeta in IH.
  destruct IH as (-> & -> & -> & ->). exact Hb.
Qed.

(** The two ways a parse ends once it has found its header line. *)
Lemma ParseCsvData_stream_run input config progress :
  (length (pending input) <= Z.to_nat (skip_rows config)
   /\ ParseCsvData_stream input config progress = empty_result)
  \/ exists header_line0 rest,
       drop (Z.to_nat (skip_rows config)) (pending input) = header_line0 :: rest
       /\ let st0 := loop_entry config (strip_cr header_line0) in
          ParseCsvData_stream input config progress
          = match row_loop config progress (length (column_names (result st0)))
                           (count_total input config progress rest) rest st0 with
            | Next st => finish st
            | Cancelled st => result st
            end.
Proof.
  unfold ParseCsvData_stream.
  destruct (Nat.ltb_spec (length (pending input)) (Z.to_nat (skip_rows config))) as [Hlt|Hge].
  { left. split; [lia|reflexivity]. }
  destruct (drop (Z.to_nat (skip_rows config)) (pending input)) as [|h rest] eqn:Hd.
  - left. split; [|reflexivity].
    apply (f_equal length) in Hd. rewrite length_drop in Hd. cbn in Hd. lia.
  - right. exists h, rest. split; reflexivity.
Qed.

Lemma finish_columns st :
  map name (columns (finish st)) = map name (columns (result st))
  /\ map points (columns (finish st)) = map points (columns (result st))
  /\ (forall i col', columns (finish st) !! i = Some col' ->
        exists col, columns (result st) !! i = Some col
                    /\ numeric_points col' = numeric_points col
                    /\ string_points col' = string_points col).
Proof.
  unfold finish. cbn [columns]. split; [|split].
  - change (map name) with (fmap (M := list) name).
    rewrite fmap_imap, <- imap_const. apply imap_ext. reflexivity.
  - change (map points) with (fmap (M := list) points).
    rewrite fmap_imap, <- imap_const. apply imap_ext. reflexivity.
  - intros i col' H. rewrite list_lookup_imap in H.
    destruct (columns (result st) !! i) as [col|]; [|discriminate].
    cbn in H. injection H as <-. exists col. auto.
Qed.

(** When the stream holds no line after the rows to skip, the result is
    the default-constructed one. *)
Lemma too_few_lines_empty input config progress :
  length (pending input) <= Z.to_nat (skip_rows config) ->
  ParseCsvData_stream input config progress = empty_result.
Proof.
  intros Hle.
  destruct (ParseCsvData_stream_run input config progress)
    as [[_ H] | (h & rest & Hd & _)]; [exact H|].
  apply (f_equal length) in Hd. rewrite length_drop in Hd. cbn in Hd. lia.
Qed.



(** X10. The columns follow the header.  Once the header line is read, the
    result names the columns as [ParseHeaderLine] does, and holds one
    column per name, in the same order, whether the parse ran to the end
    or was cancelled. *)
Theorem columns_follow_header input config progress skipped header_line0 rest :
  pending input = skipped ++ header_line0 :: rest ->
  length skipped = Z.to_nat (skip_rows config) ->
  let r := ParseCsvData_stream input config progress in
  column_names r = ParseHeaderLine (strip_cr header_line0) (delimiter config)
  /\ map name (columns r) = column_names r.
Proof.
  intros Hp Hlen. cbv zeta.
  destruct (ParseCsvData_stream_run input config progress)
    as [[Hle _] | (h & rest' & Hd & ->)].
  { rewrite Hp, length_app in Hle. cbn in Hle. lia. }
  rewrite Hp, <- Hlen, drop_app_length in Hd. injection Hd as <- <-.
  set (st0 := loop_entry config (strip_cr header_line0)).
  pose proof (row_loop_shaped config progress (length (column_names (result st0)))
                (count_total input config progress rest) rest st0
                (loop_entry_shaped config (strip_cr header_line0))) as [Hn _ _ _ _].
  pose proof (row_loop_fixed config progress (length (column_names (result st0)))
                (count_total input config progress rest) rest st0) as Hf.
  cbv zeta in Hf. destruct Hf as (_ & Hnames & _).
  destruct (row_loop _ _ _ _ _ _) as [st|st]; cbn [flow_state] in Hn, Hnames.
  - destruct (finish_columns st) as (Hfn & _).
    rewrite Hfn. cbn [finish column_names]. rewrite Hn, Hnames. split; reflexivity.
  - rewrite Hn, Hnames. split; reflexivity.
Qed.

(** Lines with nothing on them, once a final carriage return is removed. *)
Definition blank_lines (lines : list string) : nat :=
  length (List.filter (fun l => String.eqb (strip_cr l) EmptyString) lines).

Lemma row_loop_accounting config progress num_columns total lines : forall st st',
  row_loop config progress num_columns total lines st = Next st' ->
  (samplecount st' + lines_skipped (result st') + Z.of_nat (blank_lines lines)
   = samplecount st + lines_skipped (result st) + Z.of_nat (length lines))%Z.
Proof.
  induction lines as [|line rest IH]; intros st st' H.
  - cbn in H. injection H as <-. cbn. lia.
  - cbn [row_loop] in H.
    pose proof (row_body_cases config progress num_columns total line st) as Hb.
    cbv zeta in Hb.
    destruct (row_body config progress num_columns total line st) as [st1|st1];
      [|discriminate].
    cbn [flow_state] in Hb. specialize (IH st1 st' H).
    unfold blank_lines in *. cbn [List.filter length].
    destruct Hb as [(Hl & Hr & Hsc & _)
                   | [(Hl & warn & _ & _ & Hr & Hsc & _)
                     | (Hl & _ & valid & ts & _ & Hr & Hsc & _)]].
    + rewrite Hl. cbn [String.eqb length]. rewrite Hr, Hsc in IH. lia.
    + apply String.eqb_neq in Hl. rewrite Hl.
      rewrite Hr, Hsc in IH. cbn [lines_skipped incr_lines_skipped push_warning] in IH. lia.
    + apply String.eqb_neq in Hl. rewrite Hl.
      cbv zeta in Hr. rewrite Hr, Hsc in IH. cbn [lines_skipped set_columns] in IH.
      destruct valid; [|lia].
      destruct (check_monotonic_fields ts (linenumber st + 1) (prev_time st) (result st))
        as (_ & _ & _ & _ & Hsk & _).
      rewrite Hsk in IH. lia.
Qed.

Lemma loop_entry_success config header_line :
  success (result (loop_entry config header_line)) = false.
Proof. reflexivity. Qed.

(** A parse that succeeded went through [finish]. *)
Lemma success_finished input config progress :
  success (ParseCsvData_stream input config progress) = true ->
  exists header_line0 rest st,
    drop (Z.to_nat (skip_rows config)) (pending input) = header_line0 :: rest
    /\ row_loop config progress
         (length (column_names (result (loop_entry config (strip_cr header_line0)))))
         (count_total input config progress rest) rest
         (loop_entry config (strip_cr header_line0)) = Next st
    /\ ParseCsvData_stream input config progress = finish st.
Proof.
  intros Hs.
  destruct (ParseCsvData_stream_run input config progress)
    as [[_ H] | (h & rest & Hd & H)].
  { rewrite H in Hs. discriminate. }
  cbv zeta in H. exists h, rest.
  pose proof (row_loop_fixed config progress
                (length (column_names (result (loop_entry config (strip_cr h)))))
                (count_total input config progress rest) rest
                (loop_entry config (strip_cr h))) as Hf.
  cbv zeta in Hf. destruct Hf as (Hsucc & _).
  destruct (row_loop _ _ _ _ _ _) as [st|st] eqn:Hl; cbn [flow_state] in Hsucc.
  - exists st. auto.
  - rewrite H, Hsucc in Hs. discriminate.
Qed.

(** X11. Every data line is accounted for.  After a parse that succeeded, each
    line below the header was processed, or skipped with a warning, or
    was empty: the three counts add up to the number of data lines. *)
Theorem ParseCsvData_lines_accounted input config progress skipped header_line0 rest :
  pending input = skipped ++ header_line0 :: rest ->
  length skipped = Z.to_nat (skip_rows config) ->
  let r := ParseCsvData_stream input config progress in
  success r = true ->
  (lines_processed r + lines_skipped r + Z.of_nat (blank_lines rest)
   = Z.of_nat (length rest))%Z.
Proof.
  intros Hp Hlen. cbv zeta. intros Hs.
  destruct (success_finished input config progress Hs) as (h & rest' & st & Hd & Hl & ->).
  rewrite Hp, <- Hlen, drop_app_length in Hd. injection Hd as <- <-.
  apply row_loop_accounting in Hl. cbn in Hl. cbn [finish lines_processed lines_skipped].
  lia.
Qed.

(** X13. At most one point per line.  After a parse that succeeded, no column
    holds more points, numeric and string together, than lines were
    processed. *)
Theorem ParseCsvData_points_bounded input config progress :
  let r := ParseCsvData_stream input config progress in
  success r = true ->
  Forall (fun col => (Z.of_nat (points col) <= lines_processed r)%Z) (columns r).
Proof.
  cbv zeta. intros Hs.
  destruct (success_finished input config progress Hs) as (h & rest & st & _ & Hl & ->).
  pose proof (row_loop_shaped config progress
                (length (column_names (result (loop_entry config (strip_cr h)))))
                (count_total input config progress rest) rest _
                (loop_entry_shaped config (strip_cr h))) as [_ _ _ Hpts _].
  rewrite Hl in Hpts. cbn [flow_state] in Hpts.
  destruct (finish_columns st) as (_ & Hfp & _).
  cbn [lines_processed finish] in *.
  apply Forall_forall. intros col' Hin.
  assert (Hin' : points col' ∈ map points (columns (finish st))).
  { apply list_elem_of_In, in_map, list_elem_of_In. exact Hin. }
  rewrite Hfp in Hin'. apply list_elem_of_In, in_map_iff in Hin'.
  destruct Hin' as (col & Hpc & Hc). rewrite <- Hpc.
  rewrite Forall_forall in Hpts. apply Hpts. apply list_elem_of_In. exact Hc.
Qed.

Lemma header_result_components config header_line combo :
  selected_pair config = Some combo ->
  combined_component_indices (header_result config header_line)
  = {[ CombinedColumnPair.date_column_index combo ]}
    ∪ {[ CombinedColumnPair.time_column_index combo ]}.
Proof. intros H. unfold header_result. cbn. now rewrite H. Qed.

(** X14. Date and time components are not plotted.  When the configuration
    selects a combined date + time pair, the two columns of the pair
    receive no point at all. *)
Theorem ParseCsvData_components_empty input config progress combo :
  selected_pair config = Some combo ->
  let r := ParseCsvData_stream input config progress in
  forall i col,
    columns r !! i = Some col ->
    Z.of_nat i = CombinedColumnPair.date_column_index combo
    \/ Z.of_nat i = CombinedColumnPair.time_column_index combo ->
    numeric_points col = [] /\ string_points col = [].
Proof.
  intros Hsel. cbv zeta. intros i col Hi Hcomp.
  destruct (ParseCsvData_stream_run input config progress)
    as [[_ H] | (h & rest & _ & H)].
  { rewrite H in Hi. cbn in Hi. rewrite lookup_nil in Hi. discriminate. }
  cbv zeta in H. rewrite H in Hi. clear H.
  set (st0 := loop_entry config (strip_cr h)) in *.
  pose proof (row_loop_shaped config progress (length (column_names (result st0)))
                (count_total input config progress rest) rest st0
                (loop_entry_shaped config (strip_cr h))) as [_ _ _ _ Hk].
  pose proof (row_loop_fixed config progress (length (column_names (result st0)))
                (count_total input config progress rest) rest st0) as Hf.
  cbv zeta in Hf. destruct Hf as (_ & _ & _ & Hcomb).
  assert (Hin : Z.of_nat i ∈ combined_component_indices (result st0)).
  { unfold st0, loop_entry. cbn [result].
    rewrite (header_result_components config (strip_cr h) combo Hsel).
    destruct Hcomp as [-> | ->]; set_solver. }
  rewrite <- Hcomb in Hin.
  destruct (row_loop _ _ _ _ _ _) as [st|st]; cbn [flow_state] in Hk, Hin.
  - destruct (finish_columns st) as (_ & _ & Hfc).
    destruct (Hfc i col Hi) as (col0 & Hi0 & -> & ->). exact (Hk i col0 Hi0 Hin).
  - exact (Hk i col Hi Hin).
Qed.

(** The callback, when there is one, never asks to stop. *)
Definition never_cancels (progress : option (Z -> Z -> bool)) : Prop :=
  forall callback, progress = Some callback -> forall current total, callback current total = true.

Lemma row_loop_never_cancelled config progress num_columns total lines :
  never_cancels progress ->
  forall st, exists st', row_loop config progress num_columns total lines st = Next st'.
Proof.
  intros Hnc. induction lines as [|line rest IH]; intros st; [eexists; reflexivity|].
  cbn [row_loop].
  assert (Hb : exists st1, row_body config progress num_columns total line st = Next st1).
  { unfold row_body.
    destruct (Nat.eqb _ 0); [eexists; reflexivity|].
    destruct (negb _); [eexists; reflexivity|].
    destruct (determine_timestamp _ _ _ _ _ _) as [warn|[valid ts]]; [eexists; reflexivity|].
    destruct progress as [cb|]; [|eexists; reflexivity].
    rewrite (Hnc cb eq_refl). cbn [negb]. rewrite andb_false_r. eexists; reflexivity. }
  destruct Hb as [st1 ->]. apply IH.
Qed.

(** X9. Success.  With no progress callback, or one that never asks to stop,
    the parse succeeds exactly when the stream holds a header line after
    the rows to skip; when it holds none, the result is the
    default-constructed one: no column, no warning, nothing counted. *)
Theorem ParseCsvData_success_iff input config progress :
  never_cancels progress ->
  let r := ParseCsvData_stream input config progress in
  (success r = true <-> Z.to_nat (skip_rows config) < length (pending input))
  /\ (length (pending input) <= Z.to_nat (skip_rows config) -> r = empty_result).
Proof.
  intros Hnc. cbv zeta. split; [|apply too_few_lines_empty].
  destruct (ParseCsvData_stream_run input config progress)
    as [[Hle ->] | (h & rest & Hd & ->)].
  { cbn. split; [discriminate|lia]. }
  destruct (row_loop_never_cancelled config progress
              (length (column_names (result (loop_entry config (strip_cr h)))))
              (count_total input config progress rest) rest Hnc
              (loop_entry config (strip_cr h))) as [st ->].
  cbn. split; [intros _|reflexivity].
  apply (f_equal length) in Hd. rewrite length_drop in Hd. cbn in Hd. lia.
Qed.

(* --------------------------------------------------------------------- *)
(** ** ParseCsvData: the row number as time                               *)
(* --------------------------------------------------------------------- *)

Lemma determine_timestamp_row_number config num_columns fields types ln sc :
  selected_pair config = None ->
  (time_column_index config < 0)%Z ->
  determine_timestamp config num_columns fields types ln sc = inr (false, of_int sc).
Proof.
  intros Hsel Hneg. unfold determine_timestamp. rewrite Hsel.
  destruct (Z.leb_spec 0 (time_column_index config)); [lia|reflexivity].
Qed.

(** [t] is the number of a row, counted from 0 and below [bound]. *)
Definition row_number (bound : Z) (t : double) : Prop :=
  exists k, (0 <= k < bound)%Z /\ t = of_int k.

Definition timed_by_row (bound : Z) (col : CsvColumnData) : Prop :=
  Forall (fun p => row_number bound (fst p)) (numeric_points col)
  /\ Forall (fun p => row_number bound (fst p)) (string_points col).

Lemma row_number_mono b b' t : (b <= b')%Z -> row_number b t -> row_number b' t.
Proof. intros Hle (k & Hk & ->). exists k. split; [lia|reflexivity]. Qed.

Lemma timed_by_row_mono b b' col : (b <= b')%Z -> timed_by_row b col -> timed_by_row b' col.
Proof.
  intros Hle [H1 H2]. split; (eapply Forall_impl; [eassumption|]);
    intros p; cbn; apply row_number_mono; exact Hle.
Qed.

Lemma parse_column_timed comb ts fields types i col bound :
  row_number bound ts -> timed_by_row bound col ->
  timed_by_row bound (parse_column comb ts fields types i col).
Proof.
  intros Hts [H1 H2]. unfold parse_column, timed_by_row.
  repeat match goal with
         | |- context [match ?x with _ => _ end] => destruct x
         end; cbn [numeric_points string_points]; split; try assumption;
    apply Forall_app; (split; [assumption|]); repeat constructor; exact Hts.
Qed.

(** The invariant of the loop when the row number is the time. *)
Record row_timed (st : LoopState) : Prop := {
  rt_count : (0 <= samplecount st)%Z;
  rt_flag : time_is_non_monotonic (result st) = false;
  rt_warnings : Forall (fun w => warning_type w = WRONG_COLUMN_COUNT
                                 \/ warning_type w = DUPLICATE_COLUMN_NAMES)
                       (warnings (result st));
  rt_points : Forall (timed_by_row (samplecount st)) (columns (result st))
}.

Lemma row_body_row_timed config progress num_columns total line st :
  selected_pair config = None ->
  (time_column_index config < 0)%Z ->
  row_timed st ->
  row_timed (flow_state (row_body config progress num_columns total line st)).
Proof.
  intros Hsel Hneg [Hc Hf Hw Hp]. unfold row_body.
  destruct (Nat.eqb _ 0).
  { cbn. split; assumption. }
  destruct (negb _).
  { cbn. split; cbn; try assumption.
    apply Forall_app. split; [assumption|]. repeat constructor. }
  rewrite (determine_timestamp_row_number config num_columns _ _ _ _ Hsel Hneg).
  assert (H : row_timed
                (mkLoop
                   (set_columns
                      (imap (parse_column (combined_component_indices (result st))
                               (of_int (samplecount st))
                               (SplitLine (strip_cr line) (delimiter config))
                               (detect_types (column_types st)
                                  (SplitLine (strip_cr line) (delimiter config))))
                            (columns (result st))) (result st))
                   (detect_types (column_types st)
                      (SplitLine (strip_cr line) (delimiter config)))
                   (prev_time st) (linenumber st + 1) (samplecount st + 1))).
  { split; cbn; try assumption; [lia|].
    apply Forall_forall. intros col' Hin.
    apply list_elem_of_lookup in Hin as [i Hi]. rewrite list_lookup_imap in Hi.
    destruct (columns (result st) !! i) as [col|] eqn:Ei; [|discriminate].
    cbn in Hi. injection Hi as <-.
    rewrite Forall_forall in Hp. specialize (Hp col (list_elem_of_lookup_2 _ _ _ Ei)).
    apply parse_column_timed.
    - exists (samplecount st). split; [lia|reflexivity].
    - eapply timed_by_row_mono; [|exact Hp]. lia. }
  destruct progress as [cb|]; [destruct (_ && negb (cb _ _))|]; exact H.
Qed.

Lemma row_loop_row_timed config progress num_columns total lines :
  selected_pair config = None ->
  (time_column_index config < 0)%Z ->
  forall st, row_timed st ->
  row_timed (flow_state (row_loop config progress num_columns total lines st)).
Proof.
  intros Hsel Hneg. induction lines as [|line rest IH]; intros st Hst; [exact Hst|].
  cbn [row_loop].
  pose proof (row_body_row_timed config progress num_columns total line st Hsel Hneg Hst) as Hb.
  destruct (row_body config progress num_columns total line st) as [st1|st1];
    cbn [flow_state] in Hb |- *; [apply IH|]; exact Hb.
Qed.

Lemma loop_entry_row_timed config header_line : row_timed (loop_entry config header_line).
Proof.
  unfold loop_entry, header_result.
  destruct (has_duplicates (SplitLine header_line (delimiter config))); split; cbn.
  all: try lia.
  all: try reflexivity.
  all: try (repeat constructor; fail).
  all: apply Forall_forall; intros col Hin; apply list_elem_of_In, in_map_iff in Hin;
    destruct Hin as (n & <- & _); split; constructor.
Qed.

(** X15. The row number as time.  When no pair is selected and the time column
    index is negative, every point of every column is stamped with the
    number of a processed row, counted from 0; the time is never found
    non-monotonic; and the only warnings are wrong column counts and
    duplicate column names. *)
Theorem ParseCsvData_row_number_time input config progress :
  selected_pair config = None ->
  (time_column_index config < 0)%Z ->
  let r := ParseCsvData_stream input config progress in
  time_is_non_monotonic r = false
  /\ Forall (fun w => warning_type w = WRONG_COLUMN_COUNT
                      \/ warning_type w = DUPLICATE_COLUMN_NAMES) (warnings r)
  /\ (success r = true -> Forall (timed_by_row (lines_processed r)) (columns r)).
Proof.
  intros Hsel Hneg. cbv zeta.
  destruct (ParseCsvData_stream_run input config progress)
    as [[_ ->] | (h & rest & _ & ->)].
  { cbn. repeat split; [constructor|discriminate]. }
  set (st0 := loop_entry config (strip_cr h)).
  pose proof (row_loop_row_timed config progress (length (column_names (result st0)))
                (count_total input config progress rest) rest Hsel Hneg st0
                (loop_entry_row_timed config (strip_cr h))) as [Hc Hf Hw Hp].
  pose proof (row_loop_fixed config progress (length (column_names (result st0)))
                (count_total input config progress rest) rest st0) as Hfix.
  cbv zeta in Hfix. destruct Hfix as (Hsucc & _).
  destruct (row_loop _ _ _ _ _ _) as [st|st]; cbn [flow_state] in Hc, Hf, Hw, Hp, Hsucc.
  - cbn [finish time_is_non_monotonic warnings success lines_processed columns].
    split; [exact Hf|]. split; [exact Hw|]. intros _.
    apply Forall_forall. intros col' Hin.
    apply list_elem_of_lookup in Hin as [i Hi]. rewrite list_lookup_imap in Hi.
    destruct (columns (result st) !! i) as [col|] eqn:Ei; [|discriminate].
    cbn in Hi. injection Hi as <-.
    rewrite Forall_forall in Hp. exact (Hp col (list_elem_of_lookup_2 _ _ _ Ei)).
  - split; [exact Hf|]. split; [exact Hw|]. rewrite Hsucc. discriminate.
Qed.

(* --------------------------------------------------------------------- *)
(** ** ParseCsvData: Windows line endings                                 *)
(* --------------------------------------------------------------------- *)

Lemma strip_cr_snoc line : strip_cr (line +:+ String CR EmptyString) = line.
Proof.
  induction line as [|c line IH]; [reflexivity|].
  rewrite append_cons. cbn [strip_cr]. rewrite IH.
  destruct (line +:+ String CR EmptyString) eqn:E; [|reflexivity].
  apply (f_equal String.length) in E. rewrite length_append in E. cbn in E. lia.
Qed.

Lemma strip_cr_id line : last_char line <> Some CR -> strip_cr line = line.
Proof.
  induction line as [|c line IH]; [reflexivity|]. intros H.
  destruct line as [|c' line'].
  - cbn in *. destruct (Ascii.eqb_spec c CR) as [->|_]; [congruence|reflexivity].
  - cbn [strip_cr]. f_equal. apply IH. exact H.
Qed.

Lemma row_body_strip_cr config progress num_columns total line line' st :
  strip_cr line = strip_cr line' ->
  row_body config progress num_columns total line st
  = row_body config progress num_columns total line' st.
Proof. intros H. unfold row_body. rewrite H. reflexivity. Qed.

Lemma row_loop_strip_cr config progress num_columns total lines lines' :
  map strip_cr lines = map strip_cr lines' ->
  forall st,
    row_loop config progress num_columns total lines st
    = row_loop config progress num_columns total lines' st.
Proof.
  revert lines'. induction lines as [|l lines IH]; intros [|l' lines'] H st;
    try discriminate; [reflexivity|].
  cbn [map] in H. injection H as Hl Hrest. cbn [row_loop].
  rewrite (row_body_strip_cr _ _ _ _ l l' st Hl).
  destruct (row_body _ _ _ _ l' st); [apply IH; exact Hrest|reflexivity].
Qed.

(** X16. Windows line endings.  A stream whose lines each carry a final
    carriage return is parsed to the same result as the stream of the
    lines without it. *)
Theorem ParseCsvData_crlf (lines : list string) (can_seek : bool) config progress :
  Forall (fun l => last_char l <> Some CR) lines ->
  ParseCsvData_stream
    (mkStream (map (fun l => l +:+ String CR EmptyString) lines) can_seek) config progress
  = ParseCsvData_stream (mkStream lines can_seek) config progress.
Proof.
  intros Hcr. unfold ParseCsvData_stream. cbn [pending]. rewrite length_map.
  destruct (Nat.ltb (length lines) (Z.to_nat (skip_rows config))); [reflexivity|].
  change (map (fun l => l +:+ String CR EmptyString) lines)
    with ((fun l => l +:+ String CR EmptyString) <$> lines).
  rewrite <- fmap_drop.
  assert (Hd : Forall (fun l => last_char l <> Some CR)
                      (drop (Z.to_nat (skip_rows config)) lines))
    by (apply Forall_drop; exact Hcr).
  destruct (drop (Z.to_nat (skip_rows config)) lines) as [|h rest]; [reflexivity|].
  cbn [fmap list_fmap]. inversion Hd as [|? ? Hh Hrest]; subst.
  rewrite strip_cr_snoc, (strip_cr_id h Hh).
  assert (Ht : count_total
                 (mkStream ((fun l => l +:+ String CR EmptyString) <$> lines) can_seek)
                 config progress
                 ((fun l => l +:+ String CR EmptyString) <$> rest)
               = count_total (mkStream lines can_seek) config progress rest).
  { unfold count_total. cbn [seekable]. now rewrite length_fmap. }
  rewrite Ht.
  rewrite (row_loop_strip_cr config progress _ _
             ((fun l => l +:+ String CR EmptyString) <$> rest) rest);
    [reflexivity|].
  clear - Hrest. induction Hrest as [|l rest Hl _ IH]; [reflexivity|].
  cbn. rewrite strip_cr_snoc, (strip_cr_id l Hl). f_equal. exact IH.
Qed.

(* --------------------------------------------------------------------- *)
(** ** The loader and the parser together (dataload_csv.cpp)              *)
(* --------------------------------------------------------------------- *)



Lemma find_column_None names k axis :
  axis ∉ names -> find_column names k axis = None.
Proof.
  revert k. induction names as [|n names IH]; intros k H; [reflexivity|].
  cbn. destruct (String.eqb_spec n axis) as [->|_].
  - exfalso. apply H. now left.
  - apply IH. intros Hin. apply H. now right.
Qed.

Lemma find_column_NoDup names k i :
  NoDup names -> i < length names ->
  find_column names k (nth i names EmptyString) = Some (k + i).
Proof.
  revert k i. induction names as [|n names IH]; intros k i Hnd Hi; [cbn in Hi; lia|].
  inversion Hnd as [|? ? Hnin Hnd']; subst. destruct i as [|i]; cbn.
  - rewrite String.eqb_refl. f_equal. lia.
  - destruct (String.eqb_spec n (nth i names EmptyString)) as [E|_].
    + exfalso. apply Hnin. rewrite E. apply list_elem_of_In, nth_In. cbn in Hi. lia.
    + rewrite IH by (assumption || (cbn in Hi; lia)). f_equal. lia.
Qed.

(** X20. The saved time axis comes back.  When the column names are pairwise
    different, none of them is the reserved name for the row number and
    none is the name of a date + time pair, the time axis stored after a
    load resolves, on the next load of the layout, to the choice that was
    made: the row number, the first date + time pair, or the column. *)
Theorem time_axis_round_trip (column_names : list string)
        (combined : list CombinedColumnPair.t) (time_index : Z) (previous : string) :
  NoDup column_names ->
  INDEX_AS_TIME ∉ column_names ->
  (forall p, p ∈ combined ->
             (CombinedColumnPair.virtual_name p ∉ column_names)
             /\ CombinedColumnPair.virtual_name p <> INDEX_AS_TIME) ->
  time_index = TIME_INDEX_GENERATED
  \/ (time_index = TIME_INDEX_COMBINED /\ combined <> [])
  \/ (0 <= time_index < Z.of_nat (length column_names))%Z ->
  resolve_time_index (updated_time_axis time_index combined column_names previous)
                     column_names combined
  = time_index.
Proof.
  intros Hnd Hres Hcomb Hti. unfold updated_time_axis, resolve_time_index.
  destruct Hti as [-> | [[-> Hne] | Hrange]].
  - change (TIME_INDEX_GENERATED =? TIME_INDEX_COMBINED)%Z with false. cbn [andb].
    change (0 <=? TIME_INDEX_GENERATED)%Z with false. cbn [andb].
    rewrite Z.eqb_refl. rewrite String.eqb_refl. reflexivity.
  - rewrite Z.eqb_refl. destruct combined as [|p combined]; [congruence|].
    cbn [length Nat.eqb negb andb].
    destruct (Hcomb p ltac:(left)) as [Hnin Hp].
    apply String.eqb_neq in Hp. rewrite Hp.
    rewrite (find_column_None _ _ _ Hnin). cbn [existsb].
    rewrite String.eqb_refl. reflexivity.
  - assert (Hc : (time_index =? TIME_INDEX_COMBINED)%Z = false).
    { apply Z.eqb_neq. unfold TIME_INDEX_COMBINED. lia. }
    rewrite Hc. cbn [andb].
    destruct (Z.leb_spec 0 time_index); [|lia].
    destruct (Z.ltb_spec time_index (Z.of_nat (length column_names))); [|lia].
    cbn [andb]. unfold vec_at.
    destruct (Z.ltb_spec time_index 0); [lia|].
    assert (Hin : nth (Z.to_nat time_index) column_names EmptyString ∈ column_names).
    { apply list_elem_of_In, nth_In. lia. }
    destruct (String.eqb_spec (nth (Z.to_nat time_index) column_names EmptyString)
                              INDEX_AS_TIME) as [E|_].
    { exfalso. apply Hres. rewrite <- E. exact Hin. }
    rewrite (find_column_NoDup column_names 0 (Z.to_nat time_index) Hnd) by lia.
    cbn [Nat.add]. lia.
Qed.

End Engine.

(* --------------------------------------------------------------------- *)
(** ** Properties of DetectDelimiter                                      *)
(* --------------------------------------------------------------------- *)

(** Quote state at position [i] when the scan enters the line in state [b]. *)
Definition inside_at (b : bool) (line : string) (i : nat) : bool :=
  xorb b (Nat.odd (quotes_before line i)).

Definition occ_gen (b : bool) (line : string) (d : ascii) (i : nat) : bool :=
  match String.get i line with
  | Some c => Ascii.eqb c d && negb (Ascii.eqb c dquote) && negb (inside_at b line i)
  | None => false
  end.

Definition run_gen (b p : bool) (line : string) (i : nat) : bool :=
  occ_gen b line space i
  && match i with
     | 0 => negb p
     | S j => match String.get j line with
              | Some c => negb (Ascii.eqb c space)
              | None => true
              end
     end.

Lemma occurs_outside_gen line d i : occurs_outside line d i = occ_gen false line d i.
Proof.
  unfold occurs_outside, occ_gen, inside_at.
  destruct (String.get i line); [|reflexivity].
  now rewrite xorb_false_l, Nat.negb_odd.
Qed.

Lemma starts_space_run_gen line i : starts_space_run line i = run_gen false false line i.
Proof.
  unfold starts_space_run, run_gen. rewrite occurs_outside_gen.
  destruct i; reflexivity.
Qed.

Lemma inside_at_S b c r i :
  inside_at b (String c r) (S i) = inside_at (xorb b (Ascii.eqb c dquote)) r i.
Proof.
  unfold inside_at. cbn [quotes_before].
  destruct (Ascii.eqb c dquote).
  - change (1 + quotes_before r i) with (S (quotes_before r i)).
    rewrite Nat.odd_succ, <- Nat.negb_odd.
    destruct b, (Nat.odd (quotes_before r i)); reflexivity.
  - cbn. now rewrite xorb_false_r.
Qed.

Lemma occ_gen_S b c r d i :
  occ_gen b (String c r) d (S i) = occ_gen (xorb b (Ascii.eqb c dquote)) r d i.
Proof. unfold occ_gen. cbn [String.get]. now rewrite inside_at_S. Qed.

Lemma occ_gen_0 b c r d :
  occ_gen b (String c r) d 0 = Ascii.eqb c d && negb (Ascii.eqb c dquote) && negb b.
Proof.
  unfold occ_gen, inside_at. cbn. now rewrite xorb_false_r.
Qed.

(** Counting over the positions of [String c r]: position 0, then the
    positions of [r] shifted by one. *)
Lemma count_positions_cons (f : nat -> bool) n :
  length (List.filter f (seq 0 (S n)))
  = (if f 0 then 1 else 0) + length (List.filter (fun i => f (S i)) (seq 0 n)).
Proof.
  cbn [seq List.filter]. rewrite <- seq_shift, filter_map_swap. destruct (f 0); cbn [length]; rewrite List.length_map; reflexivity.
Qed.

Lemma countOutsideQuotes_loop_spec line d : forall count b,
  countOutsideQuotes_loop line d count b
  = (count + Z.of_nat (length (List.filter (occ_gen b line d)
                                           (seq 0 (String.length line)))))%Z.
Proof.
  induction line as [|c r IH]; intros count b.
  - cbn. lia.
  - cbn [countOutsideQuotes_loop String.length].
    rewrite count_positions_cons, occ_gen_0.
    rewrite (filter_ext _ _ (occ_gen_S b c r d)).
    destruct (Ascii.eqb c dquote) eqn:Hq.
    + rewrite IH. rewrite xorb_true_r, andb_false_r. cbn. lia.
    + rewrite xorb_false_r.
      destruct b; cbn [negb andb].
      * rewrite IH, andb_false_r. cbn. lia.
      * destruct (Ascii.eqb c d); rewrite IH; cbn [andb]; lia.
Qed.

Lemma run_gen_inside p1 p2 line i : run_gen true p1 line i = run_gen true p2 line i.
Proof.
  unfold run_gen. destruct i; [|reflexivity].
  unfold occ_gen, inside_at. destruct (String.get 0 line); [|reflexivity].
  cbn. now rewrite !andb_false_r.
Qed.

Lemma run_gen_S b p c r i :
  run_gen b p (String c r) (S i)
  = run_gen (xorb b (Ascii.eqb c dquote)) (Ascii.eqb c space) r i.
Proof.
  unfold run_gen. rewrite occ_gen_S. destruct i; reflexivity.
Qed.

Lemma space_count_loop_spec line : forall n b p,
  space_count_loop line n b p
  = (n + Z.of_nat (length (List.filter (run_gen b p line)
                                       (seq 0 (String.length line)))))%Z.
Proof.
  induction line as [|c r IH]; intros n b p.
  - cbn. lia.
  - cbn [space_count_loop String.length].
    rewrite count_positions_cons.
    rewrite (filter_ext _ _ (run_gen_S b p c r)).
    unfold run_gen at 1. rewrite occ_gen_0.
    destruct (Ascii.eqb c dquote) eqn:Hq.
    + apply Ascii.eqb_eq in Hq. subst c.
      rewrite IH, xorb_true_r. change (Ascii.eqb dquote space) with false.
      cbn [andb]. lia.
    + rewrite xorb_false_r. destruct b; cbn [negb andb].
      * rewrite IH, andb_false_r. cbn [andb].
        rewrite (filter_ext _ _ (run_gen_inside (Ascii.eqb c space) false r)). lia.
      * destruct (Ascii.eqb c space); cbn [andb].
        -- rewrite IH. destruct p; cbn; lia.
        -- rewrite IH. lia.
Qed.

Lemma countOutsideQuotes_spec line d :
  countOutsideQuotes line d = spec_occurrences line d.
Proof.
  unfold countOutsideQuotes, spec_occurrences, positions.
  rewrite countOutsideQuotes_loop_spec.
  rewrite (filter_ext _ _ (occurs_outside_gen line d)). lia.
Qed.

Lemma space_count_spec line : space_count_of line = spec_space_runs line.
Proof.
  unfold space_count_of, spec_space_runs, positions.
  rewrite space_count_loop_spec.
  rewrite (filter_ext _ _ (starts_space_run_gen line)). lia.
Qed.

(** The loop over the four candidates, for arbitrary counts. *)
Definition pick (T S C P : Z) : ascii :=
  match fold_left consider
          [mkCandidate tab T 4; mkCandidate semicolon S 3;
           mkCandidate comma C 2; mkCandidate space P 1] None with
  | Some best => delim best
  | None => comma
  end.

Ltac pick_finish :=
  first [ left; repeat split; first [lia | reflexivity]
        | right; left; split; [reflexivity | lia]
        | right; right; left; split; [reflexivity | lia]
        | right; right; right; left; split; [reflexivity | lia]
        | right; right; right; right; split; [reflexivity | lia] ].

Lemma pick_cases (T S C P : Z) :
  (T < 1 /\ S < 1 /\ C < 1 /\ P < 2 /\ pick T S C P = comma)%Z
  \/ (pick T S C P = tab /\ 1 <= T /\ (S < 1 \/ S <= T) /\ (C < 1 \/ C <= T) /\ (P < 2 \/ P <= T))%Z
  \/ (pick T S C P = semicolon /\ 1 <= S /\ (T < 1 \/ T < S) /\ (C < 1 \/ C <= S) /\ (P < 2 \/ P <= S))%Z
  \/ (pick T S C P = comma /\ 1 <= C /\ (T < 1 \/ T < C) /\ (S < 1 \/ S < C) /\ (P < 2 \/ P <= C))%Z
  \/ (pick T S C P = space /\ 2 <= P /\ (T < 1 \/ T < P) /\ (S < 1 \/ S < P) /\ (C < 1 \/ C < P))%Z.
Proof.
  unfold pick, consider. cbn [fold_left delim count priority].
  change (Ascii.eqb tab space) with false.
  change (Ascii.eqb semicolon space) with false.
  change (Ascii.eqb comma space) with false.
  change (Ascii.eqb space space) with true.
  repeat first
    [ progress rewrite ?Z.geb_leb, ?Z.gtb_ltb
    | match goal with
      | |- context [(?a <=? ?b)%Z] => destruct (Z.leb_spec a b)
      | |- context [(?a <? ?b)%Z] => destruct (Z.ltb_spec a b)
      | |- context [(?a =? ?b)%Z] => destruct (Z.eqb_spec a b)
      end
    | progress cbn [andb delim count priority] ].
  all: cbn [count priority delim] in *; pick_finish.
Qed.

Lemma DetectDelimiter_pick line :
  DetectDelimiter line
  = pick (spec_count line tab) (spec_count line semicolon)
         (spec_count line comma) (spec_count line space).
Proof.
  unfold DetectDelimiter, pick, candidates_of.
  rewrite !countOutsideQuotes_spec, space_count_spec. reflexivity.
Qed.

Ltac priorities :=
  change (spec_priority tab) with 4%Z;
  change (spec_priority semicolon) with 3%Z;
  change (spec_priority comma) with 2%Z;
  change (spec_priority space) with 1%Z.

(** C8. For every first line, [DetectDelimiter] returns the delimiter the
    specification describes.  With the counts taken position by position
    (occurrences of comma, semicolon and tab outside double-quoted spans;
    runs of consecutive spaces outside quotes, a run counting once) and the
    thresholds 1, 1, 1 and 2: when no candidate reaches its threshold the
    result is the comma; otherwise the result reaches its threshold, and
    every other candidate that reaches its threshold has a strictly smaller
    count, or the same count and a lower priority in the order
    tab > semicolon > comma > space. *)
Theorem DetectDelimiter_spec (line : string) : spec_choice line (DetectDelimiter line).
Proof.
  rewrite DetectDelimiter_pick.
  set (T := spec_count line tab). set (S := spec_count line semicolon).
  set (C := spec_count line comma). set (P := spec_count line space).
  assert (Hq : forall d, qualifies line d <->
             (d = comma /\ 1 <= C)%Z \/ (d = semicolon /\ 1 <= S)%Z
             \/ (d = tab /\ 1 <= T)%Z \/ (d = space /\ 2 <= P)%Z).
  { intros d. unfold qualifies, spec_candidates. cbn [In]. split.
    - intros [[<-|[<-|[<-|[<-|[]]]]] H]; cbn in H; tauto.
    - intros [[-> H]|[[-> H]|[[-> H]|[-> H]]]]; (split; [tauto|exact H]). }
  unfold spec_choice.
  destruct (pick_cases T S C P) as [H|[H|[H|[H|H]]]].
  - left. destruct H as (HT & HS & HC & HP & ->). split; [|reflexivity].
    intros d Hd. apply Hq in Hd. lia.
  - right. destruct H as (-> & H). rewrite Hq. split; [right; right; left; split; [reflexivity|lia]|].
    intros d Hd Hne. apply Hq in Hd.
    destruct Hd as [[-> Hd]|[[-> Hd]|[[-> Hd]|[-> Hd]]]]; try congruence;
      priorities; lia.
  - right. destruct H as (-> & H). rewrite Hq. split; [right; left; split; [reflexivity|lia]|].
    intros d Hd Hne. apply Hq in Hd.
    destruct Hd as [[-> Hd]|[[-> Hd]|[[-> Hd]|[-> Hd]]]]; try congruence;
      priorities; lia.
  - right. destruct H as (-> & H). rewrite Hq. split; [left; split; [reflexivity|lia]|].
    intros d Hd Hne. apply Hq in Hd.
    destruct Hd as [[-> Hd]|[[-> Hd]|[[-> Hd]|[-> Hd]]]]; try congruence;
      priorities; lia.
  - right. destruct H as (-> & H). rewrite Hq. split; [right; right; right; split; [reflexivity|lia]|].
    intros d Hd Hne. apply Hq in Hd.
    destruct Hd as [[-> Hd]|[[-> Hd]|[[-> Hd]|[-> Hd]]]]; try congruence;
      priorities; lia.
Qed.

(* --------------------------------------------------------------------- *)
(** ** The detected delimiter put to use                                  *)
(* --------------------------------------------------------------------- *)

Lemma DetectDelimiter_candidates line :
  let d := DetectDelimiter line in
  (d = comma
   \/ (d = tab /\ 1 <= countOutsideQuotes line tab)
   \/ (d = semicolon /\ 1 <= countOutsideQuotes line semicolon)
   \/ (d = space /\ 2 <= space_count_of line))%Z.
Proof.
  cbv zeta. rewrite DetectDelimiter_pick.
  unfold spec_count.
  change (Ascii.eqb tab space) with false.
  change (Ascii.eqb semicolon space) with false.
  change (Ascii.eqb comma space) with false.
  change (Ascii.eqb space space) with true.
  cbv iota. rewrite <- !countOutsideQuotes_spec, <- space_count_spec.
  destruct (pick_cases (countOutsideQuotes line tab) (countOutsideQuotes line semicolon)
              (countOutsideQuotes line comma) (space_count_of line))
    as [H|[H|[H|[H|H]]]].
  - left. tauto.
  - right. left. tauto.
  - right. right. left. tauto.
  - left. tauto.
  - right. right. right. tauto.
Qed.

(** X18. The detected delimiter is one the dialog offers.  Whatever the first
    line, the loop of [launchDialog] finds the detected delimiter among
    the four of the combo box; the index it sets selects that delimiter
    again, both in the handler of the combo box and in [xmlLoadState]. *)
Theorem detected_delimiter_offered (line : string) (current : Z) (previous : ascii) :
  let d := DetectDelimiter line in
  let i := combo_index_of d current in
  (0 <= i <= 3)%Z /\ delimiter_of_index i = d /\ xml_delimiter i previous = d.
Proof.
  cbv zeta.
  destruct (DetectDelimiter_candidates line) as [H|[[H _]|[[H _]|[H _]]]];
    rewrite H; vm_compute; repeat split; congruence.
Qed.

(** Runs of spaces are fewer than spaces. *)
Lemma space_runs_le_spaces line n inside prev :
  (space_count_loop line n inside prev
   <= n + countOutsideQuotes_loop line space 0 inside)%Z.
Proof.
  revert n inside prev. induction line as [|c rest IH]; intros n inside prev; cbn; [lia|].
  destruct (Ascii.eqb c dquote); [apply IH|].
  destruct (negb inside && Ascii.eqb c space); [|apply IH].
  specialize (IH (if negb prev then n + 1 else n)%Z inside true).
  pose proof (countOutsideQuotes_loop_nonneg rest space inside).
  rewrite (countOutsideQuotes_loop_acc rest space (0 + 1)%Z).
  destruct prev; cbn [negb] in IH |- *; lia.
Qed.

(** X17. Detection and splitting agree.  When [DetectDelimiter] settles on a
    delimiter other than the default comma, [SplitLine] with that
    delimiter cuts the line into at least two fields, at least three when
    the delimiter is the space. *)
Theorem detected_delimiter_splits (Trim : string -> string) (line : string) :
  let d := DetectDelimiter line in
  d <> comma ->
  (if Ascii.eqb d space then 3 else 2) <= length (SplitLine Trim line d).
Proof.
  cbv zeta. intros Hd.
  assert (Hlen : forall d n, d <> dquote -> (n <= countOutsideQuotes line d)%Z -> (1 <= n)%Z ->
                 (n + 1 <= Z.of_nat (length (SplitLine Trim line d)))%Z).
  { intros d n Hq Hn H1. rewrite (SplitLine_length Trim line d Hq).
    destruct line as [|c rest]; [cbn in Hn; lia|].
    destruct (ends_inside_quote d (String c rest) false); lia. }
  destruct (DetectDelimiter_candidates line) as [H|[[H Hc]|[[H Hc]|[H Hc]]]];
    [congruence| | |]; rewrite H.
  - change (Ascii.eqb tab space) with false. cbv iota.
    specialize (Hlen tab 1%Z ltac:(discriminate) Hc ltac:(lia)). lia.
  - change (Ascii.eqb semicolon space) with false. cbv iota.
    specialize (Hlen semicolon 1%Z ltac:(discriminate) Hc ltac:(lia)). lia.
  - change (Ascii.eqb space space) with true. cbv iota.
    pose proof (space_runs_le_spaces line 0 false false) as Hr.
    fold (space_count_of line) in Hr. fold (countOutsideQuotes line space) in Hr.
    specialize (Hlen space 2%Z ltac:(discriminate) ltac:(lia) ltac:(lia)). lia.
Qed.

(* --------------------------------------------------------------------- *)
(** ** A concrete instance, to run the engine on examples                 *)
(* --------------------------------------------------------------------- *)

(** Modelled from the spec: [Trim] (timestamp_parsing.h is not among the
    sources) removes whitespace on both ends of a field. *)
Definition is_whitespace (c : ascii) : bool :=
  let n := nat_of_ascii c in
  Nat.eqb n 32 || (Nat.leb 9 n && Nat.leb n 13).

Fixpoint trim_left (s : string) : string :=
  match s with
  | EmptyString => EmptyString
  | String c rest => if is_whitespace c then trim_left rest else s
  end.

Definition Trim (s : string) : string :=
  String.rev (trim_left (String.rev (trim_left s))).

(** Whole numbers stand for [double] in the examples: timestamps and values
    are integers, [toDouble] reads an unsigned decimal literal, a column is
    [NUMBER] when its first cell is one and [STRING] otherwise, and there
    are no date or time formats. *)
Definition digit_value (c : ascii) : option Z :=
  let n := nat_of_ascii c in
  if Nat.leb 48 n && Nat.leb n 57 then Some (Z.of_nat (n - 48)) else None.

Fixpoint read_digits (acc : Z) (s : string) : option Z :=
  match s with
  | EmptyString => Some acc
  | String c rest =>
      match digit_value c with
      | Some d => read_digits (10 * acc + d) rest
      | None => None
      end
  end.

Definition toDouble_int (s : string) : option Z :=
  match s with
  | EmptyString => None
  | _ => read_digits 0 s
  end.

Definition DetectColumnType_int (s : string) : ColumnTypeInfo :=
  match toDouble_int s with
  | Some _ => mkTypeInfo NUMBER EmptyString false
  | None => mkTypeInfo STRING EmptyString false
  end.

Definition ParseWithType_int (s : string) (t : ColumnTypeInfo) : option Z :=
  match type t with
  | NUMBER => toDouble_int s
  | _ => None
  end.

Definition no_combined (d t : string) (dt tt : ColumnTypeInfo) : option Z := None.
Definition no_format (s fmt : string) : option Z := None.
Definition lowest_int : Z := - 2 ^ 1024.

(** [ParseCsvData] over that instance. *)
Definition parse_int (input : istream) (config : CsvParseConfig)
           (progress : option (Z -> Z -> bool)) : CsvParseResult Z :=
  ParseCsvData_stream Trim Z toDouble_int DetectColumnType_int ParseWithType_int
                      no_combined no_format lowest_int Z.gtb (fun z => z)
                      input config progress.


Definition time_in_column_0 : CsvParseConfig :=
  mkConfig comma 0 EmptyString 0 0 [] (-1).

(** The seed scenarios of the test-suite that involve no fractions. *)
Example split_basic : SplitLine Trim "a,b,c" "," = ["a"; "b"; "c"].
Proof. reflexivity. Qed.

Example split_trailing_separator : SplitLine Trim "a,b," "," = ["a"; "b"; ""].
Proof. reflexivity. Qed.

Example split_trims : SplitLine Trim "  a , b , c  " "," = ["a"; "b"; "c"].
Proof. reflexivity. Qed.

Example split_quoted_comma :
  SplitLine Trim (String dquote "a,b" +:+ String dquote ",c,d") "," = ["a,b"; "c"; "d"].
Proof. reflexivity. Qed.

Example detect_space : DetectDelimiter "a b c d" = space.
Proof. reflexivity. Qed.

Example detect_one_space_falls_back : DetectDelimiter "a b" = comma.
Proof. reflexivity. Qed.

Example detect_tab_over_comma :
  DetectDelimiter ("a" +:+ String tab "b,c") = tab.
Proof. reflexivity. Qed.

Example header_duplicates :
  ParseHeaderLine Trim Z toDouble_int "x,y,x,y" "," = ["x_00"; "y_01"; "x_02"; "y_03"].
Proof. vm_compute. reflexivity. Qed.

Example header_numeric :
  ParseHeaderLine Trim Z toDouble_int "1,2,3" "," = ["_Column_0"; "_Column_1"; "_Column_2"].
Proof. vm_compute. reflexivity. Qed.

Example header_empty_fields :
  ParseHeaderLine Trim Z toDouble_int ",x,,z" "," = ["_Column_0"; "x"; "_Column_2"; "z"].
Proof. vm_compute. reflexivity. Qed.

Example lines_of_text :
  lines_of ("x,y" +:+ String LF "1,2" +:+ String LF EmptyString) = ["x,y"; "1,2"].
Proof. reflexivity. Qed.

Example parse_non_monotonic :
  let input := mkStream ["time,val"; "1,10"; "3,30"; "2,20"] true in
  let r := parse_int input time_in_column_0 None in
  success Z r = true
  /\ time_is_non_monotonic Z r = true
  /\ lines_processed Z r = 3%Z
  /\ map (fun w => (warning_type w, line_number w)) (warnings Z r)
     = [(NON_MONOTONIC_TIME, 4%Z)]
  /\ map (numeric_points Z) (columns Z r)
     = [[(1, 1); (3, 3); (2, 2)]; [(1, 10); (3, 30); (2, 20)]]%Z
  /\ run_timestamps Trim Z toDouble_int DetectColumnType_int ParseWithType_int
                    no_combined no_format lowest_int Z.gtb (fun z => z)
                    input time_in_column_0 None = [1; 3; 2]%Z.
Proof. vm_compute. repeat split; reflexivity. Qed.

(** The timestamps of three files, read off their lines, and what the
    parser reports for each: a descent in the middle, a descent from the
    first row on, and no descent. *)
Abbreviation file_timestamps input :=
  (spec_file_timestamps Trim Z toDouble_int DetectColumnType_int ParseWithType_int
                        no_combined no_format input time_in_column_0 None)
  (only parsing).

Abbreviation reported input :=
  (let r := parse_int input time_in_column_0 None in
   (time_is_non_monotonic Z r,
    map (fun w => (warning_type w, line_number w)) (warnings Z r)))
  (only parsing).

Example timestamps_up_down :
  let input := mkStream ["time,val"; "1,10"; "x,0"; "3,30"; ""; "2,20"; "1,5"] true in
  file_timestamps input = [1; 3; 2; 1]%Z
  /\ reported input = (true, [(INVALID_TIMESTAMP, 3%Z); (NON_MONOTONIC_TIME, 6%Z)]).
Proof. vm_compute. split; reflexivity. Qed.

Example timestamps_down :
  let input := mkStream ["time,val"; "3,10"; "2,20"; "1,30"] true in
  file_timestamps input = [3; 2; 1]%Z
  /\ reported input = (true, [(NON_MONOTONIC_TIME, 3%Z)]).
Proof. vm_compute. split; reflexivity. Qed.

Example timestamps_up :
  let input := mkStream ["time,val"; "1,10"; "2,20"; "2,25"; "3,30"] true in
  file_timestamps input = [1; 2; 2; 3]%Z
  /\ reported input = (false, []).
Proof. vm_compute. split; reflexivity. Qed.

(** C4, counterexample.  The field ["a"b"c"] holds two quoted spans.  The
    text between its first opening quote and its last closing quote is
    [a"b"c]; [SplitLine] emits [c], the text of the last span. *)
Definition two_spans : string :=
  String dquote "a" +:+ String dquote "b" +:+ String dquote "c" +:+ String dquote EmptyString.

Lemma quoted_field_is_not_first_to_last :
  SplitLine Trim two_spans "," = ["c"]
  /\ SplitLine_spec Trim claimed_field_text two_spans ","
     = ["a" +:+ String dquote "b" +:+ String dquote "c"]
  /\ SplitLine Trim two_spans "," <> SplitLine_spec Trim claimed_field_text two_spans ",".
Proof.
  split; [reflexivity|]. split; [reflexivity|].
  vm_compute. discriminate.
Qed.

Lemma SplitLine_emits_last_quoted_span_witness :
  let line := two_spans +:+ ",x," in
  ("," %char <> dquote
   /\ (forall body, line = body +:+ String "," EmptyString ->
                    Nat.even (quote_count body) = true))
  /\ SplitLine Trim line "," = SplitLine_spec Trim field_text line ",".
Proof.
  cbv zeta.
  assert (H1 : ","%char <> dquote) by discriminate.
  assert (H2 : forall body, two_spans +:+ ",x," = body +:+ String "," EmptyString ->
                            Nat.even (quote_count body) = true)
    by (apply trailing_separator_closed_spec; reflexivity).
  split; [split; assumption|].
  exact (SplitLine_emits_last_quoted_span Trim (two_spans +:+ ",x,") "," H1 H2).
Defined.

Example split_two_spans :
  SplitLine Trim (two_spans +:+ ",x,") "," = ["c"; "x"; ""].
Proof. reflexivity. Qed.

(** A single unclosed quote leaves the field as it is. *)
Example split_unclosed_quote :
  SplitLine Trim ("a" +:+ String dquote "b,c") "," = ["a" +:+ String dquote "b,c"].
Proof. reflexivity. Qed.

(** C5, at the concrete instance. *)
Lemma ParseHeaderLine_repeats_a_name_witness :
  (Trim "x" = "x" /\ Trim "x_00" = "x_00" /\ toDouble_int "x" = None)
  /\ ParseHeaderLine Trim Z toDouble_int "x,x,x_00" "," = ["x_00"; "x_01"; "x_00"]
  /\ ~ NoDup (ParseHeaderLine Trim Z toDouble_int "x,x,x_00" ",").
Proof.
  split; [repeat split; reflexivity|].
  exact (ParseHeaderLine_repeats_a_name Trim Z toDouble_int eq_refl eq_refl eq_refl).
Defined.





(* --------------------------------------------------------------------- *)
(** ** The further properties, at the concrete instance                   *)
(* --------------------------------------------------------------------- *)

(** A statement about the engine, taken at the instance of the examples. *)
Abbreviation at_instance statement :=
  (statement Trim Z toDouble_int DetectColumnType_int ParseWithType_int
             no_combined no_format lowest_int Z.gtb (fun z : Z => z))
  (only parsing).

(** In the examples a date and a time are whole numbers, and the two
    combine by juxtaposition of their digits. *)
Definition combined_int (d t : string) (dt tt : ColumnTypeInfo) : option Z :=
  toDouble_int (d +:+ t).

Definition parse_combined_int (input : istream) (config : CsvParseConfig)
           (progress : option (Z -> Z -> bool)) : CsvParseResult Z :=
  ParseCsvData_stream Trim Z toDouble_int DetectColumnType_int ParseWithType_int
                      combined_int no_format lowest_int Z.gtb (fun z => z)
                      input config progress.

(** A file with a comment row, a header, four data lines of which one is
    empty and one is short. *)
Definition sample_lines : list string :=
  ["# units"; "t,name,v"; "1,a,10"; ""; "2,b"; "3,c,30"].

Definition skip_one : CsvParseConfig := mkConfig comma (-1) EmptyString 1 0 [] (-1).

Example sample_parse :
  let r := parse_int (mkStream sample_lines true) skip_one None in
  success Z r = true
  /\ column_names Z r = ["t"; "name"; "v"]
  /\ lines_processed Z r = 2%Z /\ lines_skipped Z r = 1%Z
  /\ map (fun w => (warning_type w, line_number w)) (warnings Z r)
     = [(WRONG_COLUMN_COUNT, 5%Z)]
  /\ map (numeric_points Z) (columns Z r)
     = [[(0, 1); (1, 3)]; []; [(0, 10); (1, 30)]]%Z
  /\ map (string_points Z) (columns Z r)
     = [[]; [(0%Z, "a"); (1%Z, "c")]; []].
Proof. vm_compute. repeat split; reflexivity. Qed.

Lemma SplitLine_field_count_witness :
  ","%char <> dquote
  /\ Z.of_nat (length (SplitLine Trim (two_spans +:+ ",x,") ","))
     = (countOutsideQuotes (two_spans +:+ ",x,") "," + 1
        + (if ends_inside_quote "," (two_spans +:+ ",x,") false then 1 else 0))%Z.
Proof.
  split; [discriminate|].
  exact (SplitLine_field_count Trim (two_spans +:+ ",x,") "," ltac:(discriminate)).
Defined.

(** A separator at the end of the line, inside a quote that is never
    closed, still adds an empty field. *)
Example split_unclosed_trailing_separator :
  SplitLine Trim (String dquote "a,") "," = [String dquote "a"; ""]
  /\ countOutsideQuotes (String dquote "a,") "," = 0%Z
  /\ ends_inside_quote "," (String dquote "a,") false = true.
Proof. repeat split; reflexivity. Qed.

Lemma fields_of_1_2_3 : SplitLine Trim "1,2,3" "," = ["1"; "2"; "3"].
Proof. reflexivity. Qed.

Lemma ParseHeaderLine_all_numbers_witness :
  (forall field, field ∈ SplitLine Trim "1,2,3" "," ->
                 is_Some (toDouble_int (Trim field)))
  /\ ParseHeaderLine Trim Z toDouble_int "1,2,3" ","
     = map generated_name (seq 0 (length (SplitLine Trim "1,2,3" ",")))
  /\ NoDup (ParseHeaderLine Trim Z toDouble_int "1,2,3" ",").
Proof.
  assert (H : forall field, field ∈ SplitLine Trim "1,2,3" "," ->
                            is_Some (toDouble_int (Trim field))).
  { rewrite fields_of_1_2_3. intros field Hin.
    repeat (apply elem_of_cons in Hin as [->|Hin]; [vm_compute; eauto|]).
    inversion Hin. }
  split; [exact H|].
  exact (ParseHeaderLine_all_numbers Trim Z toDouble_int "1,2,3" "," H).
Defined.

Lemma fields_of_t_name_v : SplitLine Trim "t,name,v" "," = ["t"; "name"; "v"].
Proof. reflexivity. Qed.

Lemma ParseHeaderLine_distinct_names_witness :
  let fields := SplitLine Trim "t,name,v" "," in
  (NoDup (map Trim fields)
   /\ (forall field, field ∈ fields -> Trim field <> EmptyString)
   /\ (exists field, field ∈ fields /\ toDouble_int (Trim field) = None))
  /\ ParseHeaderLine Trim Z toDouble_int "t,name,v" "," = map Trim fields.
Proof.
  cbv zeta.
  assert (H1 : NoDup (map Trim (SplitLine Trim "t,name,v" ","))).
  { rewrite fields_of_t_name_v. refine (bool_decide_unpack _ _). vm_compute. exact I. }
  assert (H2 : forall field, field ∈ SplitLine Trim "t,name,v" "," ->
                             Trim field <> EmptyString).
  { rewrite fields_of_t_name_v. intros field Hin.
    repeat (apply elem_of_cons in Hin as [->|Hin]; [vm_compute; discriminate|]).
    inversion Hin. }
  assert (H3 : exists field, field ∈ SplitLine Trim "t,name,v" ","
                             /\ toDouble_int (Trim field) = None).
  { exists "t". rewrite fields_of_t_name_v. split; [left|reflexivity]. }
  split; [repeat split; assumption|].
  exact (ParseHeaderLine_distinct_names Trim Z toDouble_int "t,name,v" "," H1 H2 H3).
Defined.

Lemma columns_follow_header_witness :
  let input := mkStream sample_lines true in
  (pending input = ["# units"] ++ "t,name,v" :: ["1,a,10"; ""; "2,b"; "3,c,30"]
   /\ length ["# units"] = Z.to_nat (skip_rows skip_one))
  /\ column_names Z (parse_int input skip_one None)
     = ParseHeaderLine Trim Z toDouble_int (strip_cr "t,name,v") (delimiter skip_one)
  /\ map (name Z) (columns Z (parse_int input skip_one None))
     = column_names Z (parse_int input skip_one None).
Proof.
  split; [split; reflexivity|].
  exact (at_instance columns_follow_header (mkStream sample_lines true) skip_one None
           ["# units"] "t,name,v" ["1,a,10"; ""; "2,b"; "3,c,30"] eq_refl eq_refl).
Defined.

Lemma ParseCsvData_lines_accounted_witness :
  let input := mkStream sample_lines true in
  let r := parse_int input skip_one None in
  (pending input = ["# units"] ++ "t,name,v" :: ["1,a,10"; ""; "2,b"; "3,c,30"]
   /\ length ["# units"] = Z.to_nat (skip_rows skip_one)
   /\ success Z r = true)
  /\ (lines_processed Z r + lines_skipped Z r
      + Z.of_nat (blank_lines ["1,a,10"; ""; "2,b"; "3,c,30"])
      = Z.of_nat (length ["1,a,10"; ""; "2,b"; "3,c,30"]))%Z.
Proof.
  split; [repeat split; vm_compute; reflexivity|].
  apply (at_instance ParseCsvData_lines_accounted (mkStream sample_lines true) skip_one None
           ["# units"] "t,name,v" ["1,a,10"; ""; "2,b"; "3,c,30"] eq_refl eq_refl).
  vm_compute. reflexivity.
Defined.

Lemma ParseCsvData_points_bounded_witness :
  let r := parse_int (mkStream sample_lines true) skip_one None in
  success Z r = true
  /\ Forall (fun col => (Z.of_nat (points Z col) <= lines_processed Z r)%Z) (columns Z r).
Proof.
  split; [vm_compute; reflexivity|].
  apply (at_instance ParseCsvData_points_bounded (mkStream sample_lines true) skip_one None).
  vm_compute. reflexivity.
Defined.

(** A date in column 0 and a time in column 1, combined into the time. *)
Definition date_and_time : CsvParseConfig :=
  mkConfig comma (-1) EmptyString 0 0 [CombinedColumnPair.mk 0 1 "d + t"] 0.

Example combined_parse :
  let r := parse_combined_int (mkStream ["d,t,v"; "1,5,10"; "2,0,20"] true)
                              date_and_time None in
  success Z r = true
  /\ map (numeric_points Z) (columns Z r) = [[]; []; [(15, 10); (20, 20)]]%Z.
Proof. vm_compute. split; reflexivity. Qed.

Lemma ParseCsvData_components_empty_witness :
  let r := parse_combined_int (mkStream ["d,t,v"; "1,5,10"; "2,0,20"] true)
                              date_and_time None in
  selected_pair date_and_time = Some (CombinedColumnPair.mk 0 1 "d + t")
  /\ forall i col,
       columns Z r !! i = Some col ->
       Z.of_nat i = 0%Z \/ Z.of_nat i = 1%Z ->
       numeric_points Z col = [] /\ string_points Z col = [].
Proof.
  split; [reflexivity|].
  exact (ParseCsvData_components_empty Trim Z toDouble_int DetectColumnType_int
           ParseWithType_int combined_int no_format lowest_int Z.gtb (fun z => z)
           (mkStream ["d,t,v"; "1,5,10"; "2,0,20"] true) date_and_time None
           (CombinedColumnPair.mk 0 1 "d + t") eq_refl).
Defined.

Lemma ParseCsvData_success_iff_witness :
  let input := mkStream sample_lines true in
  let r := parse_int input skip_one None in
  never_cancels None
  /\ (success Z r = true <-> Z.to_nat (skip_rows skip_one) < length (pending input))
  /\ (length (pending input) <= Z.to_nat (skip_rows skip_one) -> r = empty_result Z).
Proof.
  assert (H : never_cancels None) by (intros cb Hcb; discriminate).
  split; [exact H|].
  exact (at_instance ParseCsvData_success_iff (mkStream sample_lines true) skip_one None H).
Defined.

Lemma ParseCsvData_row_number_time_witness :
  let r := parse_int (mkStream sample_lines true) skip_one None in
  (selected_pair skip_one = None /\ (time_column_index skip_one < 0)%Z)
  /\ time_is_non_monotonic Z r = false
  /\ Forall (fun w => warning_type w = WRONG_COLUMN_COUNT
                      \/ warning_type w = DUPLICATE_COLUMN_NAMES) (warnings Z r)
  /\ (success Z r = true ->
      Forall (timed_by_row Z (fun z => z) (lines_processed Z r)) (columns Z r)).
Proof.
  split; [split; reflexivity|].
  exact (at_instance ParseCsvData_row_number_time (mkStream sample_lines true) skip_one None
           eq_refl eq_refl).
Defined.

Lemma ParseCsvData_crlf_witness :
  Forall (fun l => last_char l <> Some CR) sample_lines
  /\ parse_int (mkStream (map (fun l => l +:+ String CR EmptyString) sample_lines) true)
               skip_one None
     = parse_int (mkStream sample_lines true) skip_one None.
Proof.
  assert (H : Forall (fun l => last_char l <> Some CR) sample_lines)
    by (repeat constructor; vm_compute; discriminate).
  split; [exact H|].
  exact (at_instance ParseCsvData_crlf sample_lines true skip_one None H).
Defined.

Lemma time_axis_round_trip_witness :
  let names := ["d"; "t"; "v"] in
  let combined := [CombinedColumnPair.mk 0 1 "d + t"] in
  (NoDup names
   /\ (INDEX_AS_TIME ∉ names)
   /\ (forall p, p ∈ combined ->
                 (CombinedColumnPair.virtual_name p ∉ names)
                 /\ CombinedColumnPair.virtual_name p <> INDEX_AS_TIME)
   /\ (2%Z = TIME_INDEX_GENERATED
       \/ (2%Z = TIME_INDEX_COMBINED /\ combined <> [])
       \/ (0 <= 2 < Z.of_nat (length names))%Z))
  /\ resolve_time_index (updated_time_axis 2 combined names EmptyString) names combined
     = 2%Z.
Proof.
  cbv zeta.
  assert (H1 : NoDup ["d"; "t"; "v"]).
  { refine (bool_decide_unpack _ _). vm_compute. exact I. }
  assert (H2 : INDEX_AS_TIME ∉ ["d"; "t"; "v"]).
  { refine (bool_decide_unpack _ _). vm_compute. exact I. }
  assert (H3 : forall p, p ∈ [CombinedColumnPair.mk 0 1 "d + t"] ->
                 (CombinedColumnPair.virtual_name p ∉ ["d"; "t"; "v"])
                 /\ CombinedColumnPair.virtual_name p <> INDEX_AS_TIME).
  { intros p Hp. apply list_elem_of_singleton in Hp as ->. split.
    - refine (bool_decide_unpack _ _). vm_compute. exact I.
    - discriminate. }
  assert (H4 : 2%Z = TIME_INDEX_GENERATED
               \/ (2%Z = TIME_INDEX_COMBINED /\ [CombinedColumnPair.mk 0 1 "d + t"] <> [])
               \/ (0 <= 2 < Z.of_nat (length ["d"; "t"; "v"]))%Z).
  { right. right. cbn. lia. }
  split; [exact (conj H1 (conj H2 (conj H3 H4)))|].
  exact (time_axis_round_trip ["d"; "t"; "v"] [CombinedColumnPair.mk 0 1 "d + t"]
           2 EmptyString H1 H2 H3 H4).
Defined.

Lemma detected_delimiter_splits_witness :
  DetectDelimiter "a b c d" <> comma
  /\ (if Ascii.eqb (DetectDelimiter "a b c d") space then 3 else 2)
     <= length (SplitLine Trim "a b c d" (DetectDelimiter "a b c d")).
Proof.
  split; [vm_compute; discriminate|].
  apply (detected_delimiter_splits Trim "a b c d"). vm_compute. discriminate.
Defined.

End CSV.

(* ===================================================================== *)
(** * WebSocket bridge client (websocket_client.h, websocket_client.cpp)  *)
(* ===================================================================== *)

Module Ws.

Abbreviation QString := string (only parsing).
Abbreviation bytes := (list byte) (only parsing).

(* --------------------------------------------------------------------- *)
(** ** JSON values, as far as the client inspects them                    *)
(* --------------------------------------------------------------------- *)

(** A [QJsonValue].  A number carries its value when it is a whole number
    ([Some z]) and nothing otherwise: the client only calls [toInt]. *)
Inductive Json :=
| JUndefined
| JNull
| JBool (b : bool)
| JNumber (whole : option Z)
| JString (s : string)
| JArray (items : list Json)
| JObject (members : list (string * Json)).

(** A [QJsonObject]: the first binding of a key is the one that counts. *)
Abbreviation JsonObject := (list (string * Json)) (only parsing).

Fixpoint value (obj : JsonObject) (key : string) : Json :=
  match obj with
  | [] => JUndefined
  | (k, v) :: rest => if String.eqb k key then v else value rest key
  end.

Fixpoint contains (obj : JsonObject) (key : string) : bool :=
  match obj with
  | [] => false
  | (k, _) :: rest => String.eqb k key || contains rest key
  end.

(** [obj[key] = v]. *)
Fixpoint set_member (obj : JsonObject) (key : string) (v : Json) : JsonObject :=
  match obj with
  | [] => [(key, v)]
  | (k, w) :: rest =>
      if String.eqb k key then (k, v) :: rest else (k, w) :: set_member rest key v
  end.

(** [QJsonValue::toString(defaultValue)]. *)
Definition toString (v : Json) (default : QString) : QString :=
  match v with JString s => s | _ => default end.

(** [QJsonValue::toInt()]: the value when it is a whole number that fits an
    [int], else the default 0. *)
Definition toInt (v : Json) : Z :=
  match v with
  | JNumber (Some z) => if (- 2 ^ 31 <=? z)%Z && (z <? 2 ^ 31)%Z then z else 0%Z
  | _ => 0%Z
  end.

Definition isArray (v : Json) : bool := match v with JArray _ => true | _ => false end.
Definition isObject (v : Json) : bool := match v with JObject _ => true | _ => false end.
Definition toArray (v : Json) : list Json := match v with JArray l => l | _ => [] end.
Definition toObject (v : Json) : JsonObject := match v with JObject o => o | _ => [] end.

(* --------------------------------------------------------------------- *)
(** ** Client state                                                       *)
(* --------------------------------------------------------------------- *)

(** [WsState::Mode]. *)
Inductive Mode := GetTopics | Subscribe | Data | Close.

#[global] Instance Mode_eq_dec : EqDecision Mode.
Proof. solve_decision. Defined.

Record WsState := mkWsState { mode : Mode; req_in_flight : bool }.

(** [TopicInfo] (websocket_dialog.h). *)
Record TopicInfo := mkTopic {
  name : QString;
  type : QString;
  schema_name : QString;
  schema_encoding : QString;
  schema_definition : QString
}.

(** What [qWarning()] prints. *)
Inductive WarningMsg :=
| BadMagic (magic : Z)
| BadFlag (flags : Z)
| ZstdError
| ParsedMismatch (header parsed : Z) (decompressed : nat)
| UnhandledMode.

(** What a handler does to the world outside the object. *)
Inductive Effect :=
| SendTextMessage (obj : JsonObject)   (* _socket.sendTextMessage(compact JSON of obj) *)
| SocketOpen (address : QString) (port : Z)
| SocketAbortClose
| QWarning (w : WarningMsg)
| MessageBox (text : QString)
| DialogSetTopics (topics : list Json) (preselect : list QString)
| DialogSetOkButton (text : QString) (enabled : bool)
| DialogSetOkButtonIfSelection (text : QString) (enabled : bool)  (* enabled && hasSelection() *)
| DialogClearTopics
| DialogReject
| SaveDefaultSettings
| ParseMessage (topic : QString) (ts_ns : Z) (cdr : bytes)  (* parser->parseMessage(msg, ts_ns * 1e-9) *)
| DataMapClear
| DataReceived
| Closed.

(** [QUuid::createUuid().toString(QUuid::WithoutBraces)]: the 128 bits as
    32 hexadecimal digits in groups of 8-4-4-4-12. *)
Definition hex_digit (n : N) : ascii :=
  nth (N.to_nat n)
      ["0"; "1"; "2"; "3"; "4"; "5"; "6"; "7"; "8"; "9"; "a"; "b"; "c"; "d"; "e"; "f"]%char
      "0"%char.

Fixpoint hex_fixed (width : nat) (v : N) : string :=
  match width with
  | 0 => EmptyString
  | S w => hex_fixed w (v / 16) +:+ String (hex_digit (v mod 16)) EmptyString
  end.

Definition uuid_toString (u : N) : QString :=
  let h := hex_fixed 32 u in
  substring 0 8 h +:+ "-" +:+ substring 8 4 h +:+ "-" +:+ substring 12 4 h
  +:+ "-" +:+ substring 16 4 h +:+ "-" +:+ substring 20 12 h.

(** Little-endian value of a run of bytes ([memcpy] + [qFromLittleEndian]). *)
Definition le_value (bs : bytes) : Z :=
  fold_right (fun b acc => (Z.of_N (Byte.to_N b) + 256 * acc)%Z) 0%Z bs.

(** [readLE<T>(p, end, out)] with [size = sizeof(T)]: the value and the
    advanced pointer, or [None] when fewer than [size] bytes are left. *)
Definition readLE (size : nat) (p : bytes) : option (Z * bytes) :=
  if Nat.ltb (length p) size then None
  else Some (le_value (take size p), drop size p).

(* --------------------------------------------------------------------- *)
(** ** The payload format, as the specification lays it out               *)
(* --------------------------------------------------------------------- *)

(** A payload block: topic name (UTF-8 bytes), log time in nanoseconds,
    message bytes. *)
Record Block := mkBlock { topic_name : bytes; log_time_ns : Z; message_bytes : bytes }.

(** [v] on [n] bytes, least significant first. *)
Fixpoint le_bytes (n : nat) (v : Z) : bytes :=
  match n with
  | 0 => []
  | S n' =>
      match Byte.of_N (Z.to_N (v mod 256)) with
      | Some b => b :: le_bytes n' (v / 256)
      | None => []
      end
  end.

(** [u16 name_len | name | u64 log_time_ns | u32 data_len | data]. *)
Definition encode_block (b : Block) : bytes :=
  le_bytes 2 (Z.of_nat (length (topic_name b))) ++ topic_name b
  ++ le_bytes 8 (log_time_ns b)
  ++ le_bytes 4 (Z.of_nat (length (message_bytes b))) ++ message_bytes b.

(** The lengths and the time fit their fields. *)
Definition fits (b : Block) : Prop :=
  (Z.of_nat (length (topic_name b)) < 2 ^ 16
   /\ 0 <= log_time_ns b < 2 ^ 64
   /\ Z.of_nat (length (message_bytes b)) < 2 ^ 32)%Z.

(** Blocks are concatenated until payload end; no padding. *)
Definition payload_of (blocks : list Block) : bytes :=
  concat (map encode_block blocks).

Section Client.

#[local] Set Default Proof Using "Type".

(** A message parser ([PJ::MessageParserPtr]); whether [parseMessage]
    returns normally ([true]) or throws a [std::exception]. *)
Variable Parser : Type.
Variable parseMessage : Parser -> bytes -> Z -> bool.

(** [parserFactories()]: is there a factory for an encoding, and what
    [createParser(name, schema_name, schema_definition, dataMap())] gives
    (a null pointer is [None]). *)
Variable has_factory : QString -> bool.
Variable createParser : QString -> QString -> QString -> QString -> option Parser.

(** [QString::fromUtf8]. *)
Variable fromUtf8 : bytes -> QString.

(** The content a Zstandard frame decodes to, [None] when it is corrupt
    (zstd is an external library). *)
Variable zstd_content : bytes -> option bytes.

(** The members of [WebsocketClient], in the PJ_BUILD configuration.
    [_dialog] is whether the pointer is set; the two timers are whether
    they are active; [socket_connected] is whether [_socket.state()] is
    [ConnectedState]; [warned] is the function-local static set of
    [createParsersForTopics]. *)
Record Client := mkClient {
  _running : bool;
  _paused : bool;
  _closing : bool;
  _state : WsState;
  _pending_request_id : QString;
  _pending_mode : Mode;
  _topics : list TopicInfo;
  _parsers_topic : gmap string Parser;
  _topics_timer : bool;
  _heartbeat_timer : bool;
  _dialog : bool;
  _action_text : QString;
  _config_address : QString;
  _config_port : Z;
  _config_topics : list QString;
  socket_connected : bool;
  warned : gset string
}.

(** The object after the constructor (settings not loaded). *)
Definition initial : Client :=
  mkClient false false false (mkWsState Close false) EmptyString Close [] ∅
           false false false "Pause" EmptyString 0 [] false ∅.

(** *** Handlers as state transformers that log their effects *)

Definition M (A : Type) : Type := Client -> A * Client * list Effect.

#[global] Instance M_ret : MRet M := fun A (a : A) c => (a, c, []).

#[global] Instance M_bind : MBind M := fun A B (k : A -> M B) (m : M A) c =>
  let '(a, c1, e1) := m c in
  let '(b, c2, e2) := k a c1 in
  (b, c2, e1 ++ e2).

Definition get : M Client := fun c => (c, c, []).
Definition emit (e : Effect) : M unit := fun c => (tt, c, [e]).
Definition when (b : bool) (m : M unit) : M unit := if b then m else mret tt.

Definition modify (f : Client -> Client) : M unit := fun c => (tt, f c, []).

(** Member assignments. *)
Definition set_running (b : bool) (c : Client) : Client :=
  mkClient b (_paused c) (_closing c) (_state c) (_pending_request_id c) (_pending_mode c)
           (_topics c) (_parsers_topic c) (_topics_timer c) (_heartbeat_timer c) (_dialog c)
           (_action_text c) (_config_address c) (_config_port c) (_config_topics c)
           (socket_connected c) (warned c).
Definition set_paused (b : bool) (c : Client) : Client :=
  mkClient (_running c) b (_closing c) (_state c) (_pending_request_id c) (_pending_mode c)
           (_topics c) (_parsers_topic c) (_topics_timer c) (_heartbeat_timer c) (_dialog c)
           (_action_text c) (_config_address c) (_config_port c) (_config_topics c)
           (socket_connected c) (warned c).
Definition set_closing (b : bool) (c : Client) : Client :=
  mkClient (_running c) (_paused c) b (_state c) (_pending_request_id c) (_pending_mode c)
           (_topics c) (_parsers_topic c) (_topics_timer c) (_heartbeat_timer c) (_dialog c)
           (_action_text c) (_config_address c) (_config_port c) (_config_topics c)
           (socket_connected c) (warned c).
Definition set_state (s : WsState) (c : Client) : Client :=
  mkClient (_running c) (_paused c) (_closing c) s (_pending_request_id c) (_pending_mode c)
           (_topics c) (_parsers_topic c) (_topics_timer c) (_heartbeat_timer c) (_dialog c)
           (_action_text c) (_config_address c) (_config_port c) (_config_topics c)
           (socket_connected c) (warned c).
Definition set_mode (m : Mode) (c : Client) : Client :=
  set_state (mkWsState m (req_in_flight (_state c))) c.
Definition set_req_in_flight (b : bool) (c : Client) : Client :=
  set_state (mkWsState (mode (_state c)) b) c.
Definition set_pending (id : QString) (m : Mode) (c : Client) : Client :=
  mkClient (_running c) (_paused c) (_closing c) (_state c) id m
           (_topics c) (_parsers_topic c) (_topics_timer c) (_heartbeat_timer c) (_dialog c)
           (_action_text c) (_config_address c) (_config_port c) (_config_topics c)
           (socket_connected c) (warned c).
Definition set_pending_request_id (id : QString) (c : Client) : Client :=
  set_pending id (_pending_mode c) c.
Definition set_pending_mode (m : Mode) (c : Client) : Client :=
  set_pending (_pending_request_id c) m c.
Definition set_topics (t : list TopicInfo) (c : Client) : Client :=
  mkClient (_running c) (_paused c) (_closing c) (_state c) (_pending_request_id c) (_pending_mode c)
           t (_parsers_topic c) (_topics_timer c) (_heartbeat_timer c) (_dialog c)
           (_action_text c) (_config_address c) (_config_port c) (_config_topics c)
           (socket_connected c) (warned c).
Definition set_parsers (p : gmap string Parser) (c : Client) : Client :=
  mkClient (_running c) (_paused c) (_closing c) (_state c) (_pending_request_id c) (_pending_mode c)
           (_topics c) p (_topics_timer c) (_heartbeat_timer c) (_dialog c)
           (_action_text c) (_config_address c) (_config_port c) (_config_topics c)
           (socket_connected c) (warned c).
Definition set_topics_timer (b : bool) (c : Client) : Client :=
  mkClient (_running c) (_paused c) (_closing c) (_state c) (_pending_request_id c) (_pending_mode c)
           (_topics c) (_parsers_topic c) b (_heartbeat_timer c) (_dialog c)
           (_action_text c) (_config_address c) (_config_port c) (_config_topics c)
           (socket_connected c) (warned c).
Definition set_heartbeat_timer (b : bool) (c : Client) : Client :=
  mkClient (_running c) (_paused c) (_closing c) (_state c) (_pending_request_id c) (_pending_mode c)
           (_topics c) (_parsers_topic c) (_topics_timer c) b (_dialog c)
           (_action_text c) (_config_address c) (_config_port c) (_config_topics c)
           (socket_connected c) (warned c).
Definition set_dialog (b : bool) (c : Client) : Client :=
  mkClient (_running c) (_paused c) (_closing c) (_state c) (_pending_request_id c) (_pending_mode c)
           (_topics c) (_parsers_topic c) (_topics_timer c) (_heartbeat_timer c) b
           (_action_text c) (_config_address c) (_config_port c) (_config_topics c)
           (socket_connected c) (warned c).
Definition set_action_text (t : QString) (c : Client) : Client :=
  mkClient (_running c) (_paused c) (_closing c) (_state c) (_pending_request_id c) (_pending_mode c)
           (_topics c) (_parsers_topic c) (_topics_timer c) (_heartbeat_timer c) (_dialog c)
           t (_config_address c) (_config_port c) (_config_topics c)
           (socket_connected c) (warned c).
Definition set_config (a : QString) (p : Z) (c : Client) : Client :=
  mkClient (_running c) (_paused c) (_closing c) (_state c) (_pending_request_id c) (_pending_mode c)
           (_topics c) (_parsers_topic c) (_topics_timer c) (_heartbeat_timer c) (_dialog c)
           (_action_text c) a p (_config_topics c)
           (socket_connected c) (warned c).
Definition set_config_topics (t : list QString) (c : Client) : Client :=
  mkClient (_running c) (_paused c) (_closing c) (_state c) (_pending_request_id c) (_pending_mode c)
           (_topics c) (_parsers_topic c) (_topics_timer c) (_heartbeat_timer c) (_dialog c)
           (_action_text c) (_config_address c) (_config_port c) t
           (socket_connected c) (warned c).
Definition set_socket_connected (b : bool) (c : Client) : Client :=
  mkClient (_running c) (_paused c) (_closing c) (_state c) (_pending_request_id c) (_pending_mode c)
           (_topics c) (_parsers_topic c) (_topics_timer c) (_heartbeat_timer c) (_dialog c)
           (_action_text c) (_config_address c) (_config_port c) (_config_topics c)
           b (warned c).
Definition set_warned (w : gset string) (c : Client) : Client :=
  mkClient (_running c) (_paused c) (_closing c) (_state c) (_pending_request_id c) (_pending_mode c)
           (_topics c) (_parsers_topic c) (_topics_timer c) (_heartbeat_timer c) (_dialog c)
           (_action_text c) (_config_address c) (_config_port c) (_config_topics c)
           (socket_connected c) w.

(** *** Commands *)

Fixpoint for_each {A} (l : list A) (f : A -> M unit) : M unit :=
  match l with
  | [] => mret tt
  | x :: rest => f x;; for_each rest f
  end.

(** [QString sendCommand(QJsonObject obj)]; [uuid] is what
    [QUuid::createUuid()] returns if it is called. *)
Definition sendCommand (uuid : N) (obj : JsonObject) : M QString :=
  c ← get;
  if negb (socket_connected c) then mret EmptyString
  else if negb (contains obj "command") then mret EmptyString
  else
    let obj1 := if negb (contains obj "id")
                then set_member obj "id" (JString (uuid_toString uuid)) else obj in
    let obj2 := if negb (contains obj1 "protocol_version")
                then set_member obj1 "protocol_version" (JNumber (Some 1%Z)) else obj1 in
    emit (SendTextMessage obj2);;
    mret (toString (value obj2 "id") EmptyString).

Definition command (c : QString) : JsonObject := [("command", JString c)].

Definition is_empty (s : QString) : bool := String.eqb s EmptyString.

(** [bool WebsocketClient::pause()]. *)
Definition pause (uuid : N) : M bool :=
  c ← get;
  if negb (_running c) || req_in_flight (_state c) then mret false
  else id ← sendCommand uuid (command "pause"); mret (negb (is_empty id)).

(** [bool WebsocketClient::resume()]. *)
Definition resume (uuid : N) : M bool :=
  c ← get;
  if negb (_running c) || req_in_flight (_state c) then mret false
  else id ← sendCommand uuid (command "resume"); mret (negb (is_empty id)).

(** The lambda connected to [_action_settings] in [setupSettings]. *)
Definition onActionTriggered (uuid : N) : M unit :=
  c ← get;
  if negb (_running c) then mret tt
  else if req_in_flight (_state c) then mret tt
  else if _paused c then
    ok ← resume uuid;
    when ok (modify (set_paused false);; modify (set_action_text "Pause"))
  else
    ok ← pause uuid;
    when ok (modify (set_paused true);; modify (set_action_text "Resume")).

(** [void WebsocketClient::resetState()]. *)
Definition resetState : M unit :=
  modify (set_topics_timer false);;
  modify (set_heartbeat_timer false);;
  modify (set_mode Close);;
  modify (set_req_in_flight false);;
  modify (set_pending_request_id EmptyString);;
  modify (set_pending_mode Close);;
  modify (set_topics []);;
  modify (set_parsers ∅).

(** [void WebsocketClient::shutdown()]. *)
Definition shutdown : M unit :=
  c ← get;
  if negb (_running c) then mret tt
  else
    modify (set_running false);;
    modify (set_paused false);;
    modify (set_action_text "Pause");;
    resetState;;
    c1 ← get;
    when (_dialog c1) (emit DialogReject);;
    modify (set_dialog false);;
    emit DataMapClear;;
    emit DataReceived;;
    modify (set_closing true);;
    emit SocketAbortClose;;
    modify (set_socket_connected false).

(** [void WebsocketClient::updateOkButton()]. *)
Definition updateOkButton : M unit :=
  c ← get;
  if negb (_dialog c) then mret tt
  else if negb (_running c) then emit (DialogSetOkButton "Connect" true)
  else if bool_decide (mode (_state c) = GetTopics) then
    emit (DialogSetOkButtonIfSelection "Subscribe" (negb (req_in_flight (_state c))))
  else emit (DialogSetOkButton "OK" false).

(** [void WebsocketClient::onConnected()]. *)
Definition onConnected (uuid : N) : M unit :=
  modify (set_running true);;
  modify (set_mode GetTopics);;
  modify (set_req_in_flight true);;
  modify (set_pending_mode GetTopics);;
  id ← sendCommand uuid (command "get_topics");
  modify (set_pending_request_id id);;
  modify (set_topics_timer true).

(** [void WebsocketClient::onDisconnected()]. *)
Definition onDisconnected : M unit :=
  c ← get;
  (if _dialog c then emit DialogClearTopics;; emit (DialogSetOkButton "Connect" true)
   else when (negb (_closing c)) (emit (MessageBox "Server closed the connection")));;
  if negb (_running c) then mret tt
  else
    when (_closing c) (modify (set_closing false));;
    resetState;;
    modify (set_running false).

(** [void WebsocketClient::onError(QAbstractSocket::SocketError)]. *)
Definition onError (errorString : QString) : M unit :=
  emit (MessageBox errorString);;
  onDisconnected.

(** [void WebsocketClient::requestTopics()]. *)
Definition requestTopics (uuid : N) : M unit :=
  c ← get;
  if negb (socket_connected c) then mret tt
  else if negb (_running c) || negb (bool_decide (mode (_state c) = GetTopics))
          || req_in_flight (_state c) then mret tt
  else
    modify (set_req_in_flight true);;
    modify (set_pending_mode GetTopics);;
    id ← sendCommand uuid (command "get_topics");
    modify (set_pending_request_id id).

(** [void WebsocketClient::sendHeartBeat()]. *)
Definition sendHeartBeat (uuid : N) : M unit :=
  c ← get;
  if negb (socket_connected c) || negb (_running c)
     || negb (bool_decide (mode (_state c) = Data)) then mret tt
  else _ ← sendCommand uuid (command "heartbeat"); mret tt.

(** [void WebsocketClient::createParsersForTopics()] (PJ_BUILD). *)
Definition createParserFor (t : TopicInfo) : M unit :=
  c ← get;
  if bool_decide (is_Some (_parsers_topic c !! name t)) then mret tt
  else if negb (has_factory (schema_encoding t)) then
    if bool_decide (schema_encoding t ∈ warned c) then mret tt
    else
      modify (set_warned ({[ schema_encoding t ]} ∪ warned c));;
      emit (MessageBox ("No parser available for encoding [" +:+ schema_encoding t +:+ "]"))
  else
    match createParser (schema_encoding t) (name t) (schema_name t) (schema_definition t) with
    | None => mret tt
    | Some parser => modify (fun c => set_parsers (<[name t := parser]> (_parsers_topic c)) c)
    end.

Definition createParsersForTopics : M unit :=
  c ← get; for_each (_topics c) createParserFor.

(** "Fill schema fields per topic". *)
Definition fill_schema (schemas : JsonObject) (t : TopicInfo) : TopicInfo :=
  let s := toObject (value schemas (name t)) in
  mkTopic (name t) (type t)
          (toString (value s "name") (type t))
          (toString (value s "encoding") EmptyString)
          (toString (value s "definition") EmptyString).

(** [void WebsocketClient::onTextMessageReceived(const QString& message)];
    [doc] is what [QJsonDocument::fromJson] makes of the message, [None]
    on a parse error. *)
Definition onTextMessageReceived (doc : option Json) : M unit :=
  c ← get;
  if negb (_running c) then mret tt
  else
    match doc with
    | Some (JObject obj) =>
        if negb (contains obj "protocol_version")
           || negb (toInt (value obj "protocol_version") =? 1)%Z then mret tt
        else
          let status := toString (value obj "status") EmptyString in
          let id := toString (value obj "id") EmptyString in
          if req_in_flight (_state c)
             && (is_empty (_pending_request_id c)
                 || negb (String.eqb id (_pending_request_id c)))
          then mret tt
          else if String.eqb status "error" then
            modify (set_req_in_flight false);;
            modify (set_pending_request_id EmptyString);;
            modify (set_pending_mode Close);;
            emit (MessageBox (toString (value obj "message") "Unknown error"))
          else if negb (String.eqb status "success") then mret tt
          else
            modify (set_req_in_flight false);;
            let handledMode := _pending_mode c in
            modify (set_pending_request_id EmptyString);;
            modify (set_pending_mode Close);;
            match handledMode with
            | GetTopics =>
                if negb (_dialog c) || negb (contains obj "topics")
                   || negb (isArray (value obj "topics")) then mret tt
                else
                  emit (DialogSetTopics (toArray (value obj "topics")) (_config_topics c));;
                  modify (set_config_topics []);;
                  updateOkButton
            | Subscribe =>
                if negb (contains obj "schemas") || negb (isObject (value obj "schemas"))
                then modify (set_topics []);; modify (set_parsers ∅)
                else
                  let schemas := toObject (value obj "schemas") in
                  modify (fun c =>
                    set_topics
                      (map (fill_schema schemas)
                           (List.filter (fun t => contains schemas (name t)) (_topics c)))
                      c);;
                  createParsersForTopics;;
                  modify (set_mode Data);;
                  modify (set_topics_timer false);;
                  modify (set_heartbeat_timer true)
            | Data => mret tt
            | Close => mret tt
            end
    | _ => mret tt
    end.

(** *** Binary frames *)

(** [void WebsocketClient::onRos2CdrMessage(topic, ts_sec, cdr, len)]
    (PJ_BUILD); the timestamp is kept in nanoseconds.  The box shows the
    text below followed by a line with the exception's [what()], which
    [parseMessage] does not carry here. *)
Definition onRos2CdrMessage (topic : QString) (ts_ns : Z) (cdr : bytes) : M unit :=
  c ← get;
  match _parsers_topic c !! topic with
  | None => mret tt
  | Some parser =>
      emit (ParseMessage topic ts_ns cdr);;
      if parseMessage parser cdr ts_ns then mret tt
      else
        emit (MessageBox "Problem parsing the message. WebSocket Client will be stopped.");;
        shutdown;;
        emit Closed
  end.

(** The [while (q < qend)] loop of [parseDecompressedPayload]; [q] is the
    unread rest of the payload and [parsed] the [uint32_t] counter.  The
    result is [None] for the early [return false], else the final count.
    Every turn consumes at least 14 bytes, so the size of the payload is
    enough [fuel] ([parse_blocks_fuel]). *)
Fixpoint parse_blocks (fuel : nat) (q : bytes) (parsed : Z) : M (option Z) :=
  match q, fuel with
  | [], _ => mret (Some parsed)
  | _, 0 => mret None
  | _, S fuel' =>
      match readLE 2 q with
      | None => mret None
      | Some (name_len, q1) =>
          if Nat.ltb (length q1) (Z.to_nat name_len) then mret None
          else
            let topic := fromUtf8 (take (Z.to_nat name_len) q1) in
            let q2 := drop (Z.to_nat name_len) q1 in
            match readLE 8 q2 with
            | None => mret None
            | Some (ts_ns, q3) =>
                match readLE 4 q3 with
                | None => mret None
                | Some (data_len, q4) =>
                    if Nat.ltb (length q4) (Z.to_nat data_len) then mret None
                    else
                      let cdr := take (Z.to_nat data_len) q4 in
                      let q5 := drop (Z.to_nat data_len) q4 in
                      onRos2CdrMessage topic ts_ns cdr;;
                      parse_blocks fuel' q5 ((parsed + 1) mod 2 ^ 32)%Z
                end
            end
      end
  end.

(** [bool WebsocketClient::parseDecompressedPayload(decompressed, expected_count)]. *)
Definition parseDecompressedPayload (decompressed : bytes) (expected_count : Z) : M bool :=
  r ← parse_blocks (length decompressed) decompressed 0%Z;
  match r with
  | None => mret false
  | Some parsed =>
      if negb (parsed =? expected_count)%Z then
        emit (QWarning (ParsedMismatch expected_count parsed (length decompressed)));;
        mret false
      else mret true
  end.

(** [ZSTD_decompress(dst, dstCapacity, src, srcSize)] (zstd.h): the bytes
    written, or [None] for an error code; a content that does not fit the
    destination is an error. *)
Definition ZSTD_decompress (dstCapacity : nat) (src : bytes) : option bytes :=
  match zstd_content src with
  | Some out => if Nat.leb (length out) dstCapacity then Some out else None
  | None => None
  end.

(** The size [decompressed.resize(static_cast<int>(uncompressed_size))]
    leaves: the cast wraps at 2^31 and [QByteArray::resize] takes a
    negative size as 0. *)
Definition resize_capacity (uncompressed_size : Z) : nat :=
  let as_int := if (uncompressed_size <? 2 ^ 31)%Z then uncompressed_size
                else (uncompressed_size - 2 ^ 32)%Z in
  Z.to_nat (Z.max 0 as_int).

Definition PJRB_MAGIC : Z := 0x42524A50.

(** [void WebsocketClient::onBinaryMessageReceived(const QByteArray& message)]. *)
Definition onBinaryMessageReceived (message : bytes) : M unit :=
  c ← get;
  if negb (_running c) then mret tt
  else if Nat.ltb (length message) 16 then mret tt
  else
    match readLE 4 message with
    | None => mret tt
    | Some (magic, p1) =>
    match readLE 4 p1 with
    | None => mret tt
    | Some (message_count, p2) =>
    match readLE 4 p2 with
    | None => mret tt
    | Some (uncompressed_size, p3) =>
    match readLE 4 p3 with
    | None => mret tt
    | Some (flags, _) =>
        if negb (magic =? PJRB_MAGIC)%Z then emit (QWarning (BadMagic magic))
        else if negb (flags =? 0)%Z then emit (QWarning (BadFlag flags))
        else
          let header_size := 16 in
          let compressed_size := length message - header_size in
          if Nat.eqb compressed_size 0 then mret tt
          else
            match ZSTD_decompress (resize_capacity uncompressed_size)
                                  (drop header_size message) with
            | None => emit (QWarning ZstdError)
            | Some decompressed =>
                _ ← parseDecompressedPayload decompressed message_count;
                emit DataReceived
            end
    end end end end.

(** *** The dialog of [start()] *)

(** The OK button of the dialog ([QDialogButtonBox::accepted]); [port] is
    what [dialog.port(&ok)] gives ([None] when not ok) and [selection] the
    selected rows of the topic list. *)
Definition onDialogAccepted (uuid : N) (port : option Z) (address : QString)
           (selection : list TopicInfo) : M unit :=
  c ← get;
  if negb (_running c) then
    match port with
    | None => emit (MessageBox "Invalid Port")
    | Some p =>
        if is_empty address then emit (MessageBox "Invalid Address")
        else
          emit (DialogSetOkButton "Connect" false);;
          modify (set_config address p);;
          emit SaveDefaultSettings;;
          emit (SocketOpen address p)
    end
  else if negb (bool_decide (mode (_state c) = GetTopics)) || req_in_flight (_state c)
          || Nat.eqb (length selection) 0 then mret tt
  else
    let selected := List.filter (fun t => negb (is_empty (name t))) selection in
    modify (set_topics selected);;
    modify (set_config_topics (map name selected));;
    emit SaveDefaultSettings;;
    modify (set_mode Subscribe);;
    modify (set_req_in_flight true);;
    modify (set_pending_mode Subscribe);;
    id ← sendCommand uuid
           [("command", JString "subscribe");
            ("topics", JArray (map JString (map name selected)))];
    modify (set_pending_request_id id);;
    emit (DialogSetOkButton "Subscribe" false);;
    emit DialogReject.

(** The Cancel button ([QDialogButtonBox::rejected]). *)
Definition onDialogRejected : M unit := shutdown;; emit DialogReject.

(** [start()] after [dialog.exec()] has returned. *)
Definition afterDialog : M unit :=
  modify (set_dialog false);;
  c ← get;
  if negb (_running c) then shutdown else mret tt.

(** *** The event loop *)

(** What the event loop can deliver to the object.  A [uuid] is the value
    [QUuid::createUuid()] returns in that handler. *)
Inductive Event :=
| EvStart                       (* start() opens the dialog *)
| EvDialogAccepted (uuid : N) (port : option Z) (address : QString) (selection : list TopicInfo)
| EvDialogRejected
| EvDialogSelectionChanged
| EvDialogClosed                (* dialog.exec() returns *)
| EvShutdown                    (* the host calls shutdown() *)
| EvActionTriggered (uuid : N)  (* the Pause / Resume action *)
| EvConnected (uuid : N)
| EvDisconnected
| EvError (errorString : QString)
| EvSocketState (connected : bool)  (* the transport changes state silently *)
| EvTextMessage (doc : option Json)
| EvBinaryMessage (message : bytes)
| EvTopicsTimer (uuid : N)
| EvHeartbeatTimer (uuid : N).

Definition handle (e : Event) : M unit :=
  c ← get;
  match e with
  | EvStart => if _running c then mret tt else modify (set_dialog true)
  | EvDialogAccepted uuid port address selection =>
      if _dialog c then onDialogAccepted uuid port address selection else mret tt
  | EvDialogRejected => if _dialog c then onDialogRejected else mret tt
  | EvDialogSelectionChanged => updateOkButton
  | EvDialogClosed => afterDialog
  | EvShutdown => shutdown
  | EvActionTriggered uuid => onActionTriggered uuid
  | EvConnected uuid => modify (set_socket_connected true);; onConnected uuid
  | EvDisconnected => modify (set_socket_connected false);; onDisconnected
  | EvError errorString => onError errorString
  | EvSocketState b => modify (set_socket_connected b)
  | EvTextMessage doc => onTextMessageReceived doc
  | EvBinaryMessage message => onBinaryMessageReceived message
  | EvTopicsTimer uuid => if _topics_timer c then requestTopics uuid else mret tt
  | EvHeartbeatTimer uuid => if _heartbeat_timer c then sendHeartBeat uuid else mret tt
  end.

(** State and effects of handling one event. *)
Definition step (e : Event) (c : Client) : Client * list Effect :=
  let '(_, c', effects) := handle e c in (c', effects).

(** The states the object can be in: from the constructed object, after any
    sequence of events. *)
Inductive reachable : Client -> Prop :=
| reachable_initial : reachable initial
| reachable_step e c : reachable c -> reachable (fst (step e c)).

(* --------------------------------------------------------------------- *)
(** ** Properties of the text-message handler                             *)
(* --------------------------------------------------------------------- *)

Lemma run_get {A} (k : Client -> M A) (c : Client) : (get ≫= k) c = k c c.
Proof.
  unfold mbind, M_bind, get. destruct (k c c) as [[a c'] es]. reflexivity.
Qed.

Lemma run_modify {A} (f : Client -> Client) (k : M A) (c : Client) :
  (modify f;; k) c = k (f c).
Proof.
  unfold mbind, M_bind, modify. destruct (k (f c)) as [[a c'] es]. reflexivity.
Qed.

Lemma run_emit {A} (e : Effect) (k : M A) (c : Client) :
  (emit e;; k) c = let '(a, c', es) := k c in (a, c', e :: es).
Proof. reflexivity. Qed.

Lemma run_ret {A B} (a : A) (k : A -> M B) (c : Client) : (mret a ≫= k) c = k a c.
Proof.
  unfold mbind, M_bind, mret, M_ret. destruct (k a c) as [[b c'] es]. reflexivity.
Qed.

Lemma run_assoc {A B C} (m : M A) (k : A -> M B) (h : B -> M C) (c : Client) :
  ((m ≫= k) ≫= h) c = (m ≫= (fun a => k a ≫= h)) c.
Proof.
  unfold mbind, M_bind. destruct (m c) as [[a c1] e1].
  destruct (k a c1) as [[b c2] e2]. destruct (h b c2) as [[d c3] e3].
  now rewrite app_assoc.
Qed.

(** C7. Whenever a request is in flight, an incoming JSON text message
    whose [id] differs from [_pending_request_id] is dropped: handling it
    returns the client exactly as it was (mode, [req_in_flight], pending
    request id and mode, topic list, parsers, both timers and every other
    member) and produces no effect at all. *)
Theorem text_reply_with_other_id_dropped (c : Client) (obj : JsonObject) :
  req_in_flight (_state c) = true ->
  toString (value obj "id") EmptyString <> _pending_request_id c ->
  step (EvTextMessage (Some (JObject obj))) c = (c, []).
Proof.
  intros Hflight Hid.
  unfold step, handle. rewrite run_get.
  unfold onTextMessageReceived. rewrite run_get.
  destruct (_running c); cbn [negb]; [|reflexivity].
  destruct (negb (contains obj "protocol_version") || _); [reflexivity|].
  rewrite Hflight.
  apply String.eqb_neq in Hid. rewrite Hid.
  cbn [negb andb orb]. rewrite orb_true_r. reflexivity.
Qed.

(* --------------------------------------------------------------------- *)
(** ** Properties of the binary frame decoder                             *)
(* --------------------------------------------------------------------- *)

Lemma byte_of_to_N (v : Z) :
  (0 <= v < 256)%Z ->
  exists b, Byte.of_N (Z.to_N v) = Some b /\ Z.of_N (Byte.to_N b) = v.
Proof.
  intros Hv. destruct (Byte.of_N (Z.to_N v)) as [b|] eqn:E.
  - exists b. split; [reflexivity|].
    apply Byte.to_of_N in E. rewrite E. lia.
  - exfalso. apply Byte.of_N_None_iff in E. lia.
Qed.

Lemma length_le_bytes n v : length (le_bytes n v) = n.
Proof.
  revert v. induction n as [|n IH]; intros v; cbn; [reflexivity|].
  destruct (byte_of_to_N (v mod 256)) as (b & -> & _);
    [apply Z.mod_pos_bound; lia|].
  cbn. now rewrite IH.
Qed.

Lemma le_value_le_bytes n v :
  (0 <= v < 256 ^ Z.of_nat n)%Z -> le_value (le_bytes n v) = v.
Proof.
  revert v. induction n as [|n IH]; intros v Hv.
  - cbn in *. lia.
  - cbn [le_bytes].
    destruct (byte_of_to_N (v mod 256)) as (b & -> & Hb);
      [apply Z.mod_pos_bound; lia|].
    cbn [le_value fold_right]. fold (le_value (le_bytes n (v / 256))).
    rewrite IH, Hb.
    + pose proof (Z.div_mod v 256). lia.
    + rewrite Nat2Z.inj_succ, Z.pow_succ_r in Hv by lia.
      split; [apply Z.div_pos; lia|].
      apply Z.div_lt_upper_bound; lia.
Qed.

(** Reading back a field that was written little-endian. *)
Lemma readLE_le_bytes n v rest :
  (0 <= v < 256 ^ Z.of_nat n)%Z ->
  readLE n (le_bytes n v ++ rest) = Some (v, rest).
Proof.
  intros Hv. unfold readLE.
  rewrite length_app, length_le_bytes.
  destruct (Nat.ltb_spec (n + length rest) n) as [H|_]; [lia|].
  rewrite take_app_length', drop_app_length'
    by first [apply length_le_bytes | symmetry; apply length_le_bytes].
  now rewrite le_value_le_bytes.
Qed.

(** The handlers of the blocks of a payload, one after the other. *)
Definition deliver (blocks : list Block) : M unit :=
  for_each blocks (fun b =>
    onRos2CdrMessage (fromUtf8 (topic_name b)) (log_time_ns b) (message_bytes b)).

Lemma parse_blocks_encoded b rest fuel parsed c :
  fits b ->
  parse_blocks (S fuel) (encode_block b ++ rest) parsed c
  = (onRos2CdrMessage (fromUtf8 (topic_name b)) (log_time_ns b) (message_bytes b);;
     parse_blocks fuel rest ((parsed + 1) mod 2 ^ 32)%Z) c.
Proof.
  intros (Hn & Ht & Hd). unfold encode_block. rewrite <- !app_assoc.
  cbn [parse_blocks].
  destruct (le_bytes 2 _ ++ _) as [|x l] eqn:E.
  { apply (f_equal length) in E. rewrite length_app, length_le_bytes in E.
    cbn in E. lia. }
  rewrite <- E. clear E x l.
  rewrite readLE_le_bytes by (change (256 ^ Z.of_nat 2)%Z with (2 ^ 16)%Z; lia).
  rewrite Nat2Z.id.
  destruct (Nat.ltb_spec (length (topic_name b ++ le_bytes 8 (log_time_ns b)
              ++ le_bytes 4 (Z.of_nat (length (message_bytes b)))
              ++ message_bytes b ++ rest)) (length (topic_name b))) as [H|_].
  { rewrite length_app in H. lia. }
  rewrite take_app_length, drop_app_length.
  rewrite readLE_le_bytes by (change (256 ^ Z.of_nat 8)%Z with (2 ^ 64)%Z; lia).
  rewrite readLE_le_bytes by (change (256 ^ Z.of_nat 4)%Z with (2 ^ 32)%Z; lia).
  rewrite Nat2Z.id.
  destruct (Nat.ltb_spec (length (message_bytes b ++ rest))
                         (length (message_bytes b))) as [H|_].
  { rewrite length_app in H. lia. }
  now rewrite take_app_length, drop_app_length.
Qed.

Lemma length_encode_block b : 14 <= length (encode_block b).
Proof.
  unfold encode_block. rewrite !length_app, !length_le_bytes. lia.
Qed.

Lemma bind_ext {A B} (m : M A) (k1 k2 : A -> M B) (c : Client) :
  (forall a c', k1 a c' = k2 a c') -> (m ≫= k1) c = (m ≫= k2) c.
Proof.
  intros H. unfold mbind, M_bind. destruct (m c) as [[a c1] e1]. now rewrite H.
Qed.

Lemma length_payload_of blocks : length blocks <= length (payload_of blocks).
Proof.
  induction blocks as [|b blocks IH]; [reflexivity|].
  unfold payload_of in *. cbn [map concat length]. rewrite length_app.
  pose proof (length_encode_block b). lia.
Qed.

(** A payload made of [blocks] is parsed to its end: every block is handed
    to [onRos2CdrMessage] in order and the counter advances once per block. *)
Lemma parse_blocks_payload blocks : forall fuel parsed c,
  Forall fits blocks ->
  length blocks <= fuel ->
  (0 <= parsed < 2 ^ 32)%Z ->
  parse_blocks fuel (payload_of blocks) parsed c
  = (deliver blocks;;
     mret (Some ((parsed + Z.of_nat (length blocks)) mod 2 ^ 32)%Z)) c.
Proof.
  induction blocks as [|b blocks IH]; intros fuel parsed c Hfit Hfuel Hp.
  - unfold deliver. cbn [payload_of map concat for_each length].
    rewrite run_ret, Z.add_0_r, Z.mod_small by lia.
    destruct fuel; reflexivity.
  - destruct fuel as [|fuel]; [cbn in Hfuel; lia|].
    inversion Hfit as [|? ? Hb Hbs]; subst.
    unfold payload_of. cbn [map concat]. fold (payload_of blocks).
    rewrite parse_blocks_encoded by assumption.
    unfold deliver. cbn [for_each]. fold (deliver blocks).
    rewrite run_assoc. apply bind_ext. intros [] c'.
    rewrite IH; [|assumption|cbn in Hfuel; lia|apply Z.mod_pos_bound; lia].
    apply bind_ext. intros [] c''.
    assert (E : (((parsed + 1) mod 2 ^ 32 + Z.of_nat (length blocks)) mod 2 ^ 32
                 = (parsed + Z.of_nat (length (b :: blocks))) mod 2 ^ 32)%Z).
    { rewrite Zplus_mod_idemp_l. f_equal. cbn [length]. lia. }
    now rewrite E.
Qed.

(** The fuel does not matter once it covers the payload: [parse_blocks]
    with the size of the payload as fuel is the loop of the source. *)
Lemma parse_blocks_fuel : forall f1 f2 q parsed c,
  length q <= f1 -> length q <= f2 ->
  parse_blocks f1 q parsed c = parse_blocks f2 q parsed c.
Proof.
  induction f1 as [|f1 IH]; intros f2 q parsed c H1 H2.
  - destruct q; [|cbn in H1; lia]. destruct f2; reflexivity.
  - destruct q as [|x q]; [destruct f2; reflexivity|].
    destruct f2 as [|f2]; [cbn in H2; lia|].
    cbn [parse_blocks]. unfold readLE.
    destruct (Nat.ltb_spec (length (x :: q)) 2); [reflexivity|].
    set (q1 := drop 2 (x :: q)).
    assert (L1 : length q1 + 2 = length (x :: q)) by (unfold q1; rewrite length_drop; lia).
    destruct (Nat.ltb_spec (length q1) (Z.to_nat (le_value (take 2 (x :: q)))));
      [reflexivity|].
    set (q2 := drop (Z.to_nat (le_value (take 2 (x :: q)))) q1).
    assert (L2 : length q2 <= length q1) by (unfold q2; rewrite length_drop; lia).
    destruct (Nat.ltb_spec (length q2) 8); [reflexivity|].
    set (q3 := drop 8 q2).
    assert (L3 : length q3 <= length q2) by (unfold q3; rewrite length_drop; lia).
    destruct (Nat.ltb_spec (length q3) 4); [reflexivity|].
    set (q4 := drop 4 q3).
    assert (L4 : length q4 <= length q3) by (unfold q4; rewrite length_drop; lia).
    destruct (Nat.ltb_spec (length q4) (Z.to_nat (le_value (take 4 q3))));
      [reflexivity|].
    apply bind_ext. intros [] c'. apply IH; rewrite length_drop; cbn [length] in *; lia.
Qed.


(** With the right count the same deliveries happen and nothing is logged. *)
Lemma count_match_delivers (blocks : list Block) (c : Client) :
  Forall fits blocks ->
  (Z.of_nat (length blocks) < 2 ^ 32)%Z ->
  parseDecompressedPayload (payload_of blocks) (Z.of_nat (length blocks)) c
  = (deliver blocks;; mret true) c.
Proof.
  intros Hfit Hlen. unfold parseDecompressedPayload.
  unfold mbind at 1. unfold M_bind at 1.
  rewrite parse_blocks_payload by (auto using length_payload_of; lia).
  rewrite Z.add_0_l, Z.mod_small by lia.
  unfold mbind, M_bind. destruct (deliver blocks c) as [[[] c1] e1].
  cbn [mret M_ret]. rewrite Z.eqb_refl. cbn. now rewrite !app_nil_r.
Qed.

Lemma emit_first {A} (e : Effect) (k : unit -> M A) (c : Client) :
  e ∈ snd ((emit e ≫= k) c).
Proof.
  unfold mbind, M_bind, emit. destruct (k tt c) as [[a c'] es].
  cbn. apply list_elem_of_here.
Qed.

(** A block whose topic has a parser does reach that parser. *)
Lemma deliver_reaches_parser b blocks parser c :
  _parsers_topic c !! fromUtf8 (topic_name b) = Some parser ->
  ParseMessage (fromUtf8 (topic_name b)) (log_time_ns b) (message_bytes b)
  ∈ snd (deliver (b :: blocks) c).
Proof.
  intros Hp. unfold deliver. cbn [for_each].
  unfold onRos2CdrMessage. rewrite run_assoc, run_get, Hp, run_assoc.
  apply emit_first.
Qed.

Lemma le_value_nonneg (bs : bytes) : (0 <= le_value bs)%Z.
Proof.
  induction bs as [|b bs IH]; cbn; [lia|].
  fold (le_value bs). lia.
Qed.

(** The four header fields, read as the frame layout gives them. *)
Definition header_field (k : nat) (message : bytes) : Z :=
  le_value (take 4 (drop (4 * k) message)).

Lemma read_header message :
  16 <= length message ->
  readLE 4 message = Some (header_field 0 message, drop 4 message)
  /\ readLE 4 (drop 4 message) = Some (header_field 1 message, drop 8 message)
  /\ readLE 4 (drop 8 message) = Some (header_field 2 message, drop 12 message)
  /\ readLE 4 (drop 12 message) = Some (header_field 3 message, drop 16 message).
Proof.
  intros Hlen. unfold readLE, header_field. rewrite !length_drop.
  repeat match goal with
         | |- context [Nat.ltb ?a ?b] => destruct (Nat.ltb_spec a b); [lia|]
         end.
  rewrite !drop_drop. repeat split; reflexivity.
Qed.

(** C2 (as amended). For every binary frame with valid magic, zero flags
    and a non-empty compressed part, received while running: the frame is
    rejected (nothing is parsed, no parser is invoked, the client is
    unchanged and only the ZSTD warning is logged) when decompression
    fails, which includes every frame whose content is larger than the
    header's [uncompressed_size]; when the content is smaller than (or equal
    to) an [uncompressed_size] below 2^31, the buffer is shrunk to the
    bytes produced and the payload is parsed as for any accepted frame. *)
Theorem size_mismatch_rejected_only_when_larger (c : Client) (message : bytes) :
  _running c = true ->
  16 < length message ->
  header_field 0 message = PJRB_MAGIC ->
  header_field 3 message = 0%Z ->
  match zstd_content (drop 16 message) with
  | None => onBinaryMessageReceived message c = (tt, c, [QWarning ZstdError])
  | Some content =>
      ((header_field 2 message < Z.of_nat (length content))%Z ->
       onBinaryMessageReceived message c = (tt, c, [QWarning ZstdError]))
      /\ ((Z.of_nat (length content) <= header_field 2 message < 2 ^ 31)%Z ->
          onBinaryMessageReceived message c
          = (_ ← parseDecompressedPayload content (header_field 1 message);
             emit DataReceived) c)
  end.
Proof.
  intros Hrun Hlen Hmagic Hflags.
  assert (Hsize : (0 <= header_field 2 message)%Z) by apply le_value_nonneg.
  assert (Hdec : onBinaryMessageReceived message c
                 = match ZSTD_decompress (resize_capacity (header_field 2 message))
                                         (drop 16 message) with
                   | None => emit (QWarning ZstdError)
                   | Some decompressed =>
                       _ ← parseDecompressedPayload decompressed (header_field 1 message);
                       emit DataReceived
                   end c).
  { unfold onBinaryMessageReceived. rewrite run_get, Hrun. cbn [negb].
    destruct (Nat.ltb_spec (length message) 16); [lia|].
    destruct (read_header message) as (-> & -> & -> & ->); [lia|].
    rewrite Hmagic, Hflags. cbn [Z.eqb negb]. rewrite Z.eqb_refl. cbn [negb].
    destruct (Nat.eqb_spec (length message - 16) 0); [lia|]. reflexivity. }
  rewrite Hdec. unfold ZSTD_decompress, resize_capacity.
  destruct (zstd_content (drop 16 message)) as [content|]; [|reflexivity].
  split; intros H.
  - destruct (Nat.leb_spec (length content)
               (Z.to_nat (Z.max 0 (if (header_field 2 message <? 2 ^ 31)%Z
                                   then header_field 2 message
                                   else (header_field 2 message - 2 ^ 32)%Z))))
      as [Hle|_]; [|reflexivity].
    destruct (Z.ltb_spec (header_field 2 message) (2 ^ 31)); lia.
  - destruct (Z.ltb_spec (header_field 2 message) (2 ^ 31)); [|lia].
    destruct (Nat.leb_spec (length content) (Z.to_nat (Z.max 0 (header_field 2 message))));
      [reflexivity|lia].
Qed.

(* --------------------------------------------------------------------- *)
(** ** Properties of the state machine: pause and resume                  *)
(* --------------------------------------------------------------------- *)

(** The effect is a [pause] or [resume] command going out. *)
Definition pause_or_resume (e : Effect) : bool :=
  match e with
  | SendTextMessage obj =>
      let cmd := toString (value obj "command") EmptyString in
      String.eqb cmd "pause" || String.eqb cmd "resume"
  | _ => false
  end.

Definition sends_pause_or_resume (effects : list Effect) : bool :=
  existsb pause_or_resume effects.

Definition state_of {A} (r : A * Client * list Effect) : Client := snd (fst r).
Definition effects_of {A} (r : A * Client * list Effect) : list Effect := snd r.

(** While running, the mode is not [Close]. *)
Definition running_not_closed (c : Client) : Prop :=
  _running c = true -> mode (_state c) <> Close.

(** What a handler may do to [_running] and the mode without breaking
    [running_not_closed]. *)
Definition ok (c c' : Client) : Prop :=
  _running c' = false
  \/ mode (_state c') <> Close
  \/ (_running c' = _running c /\ mode (_state c') = mode (_state c)).

Lemma ok_refl c : ok c c.
Proof. right. right. auto. Qed.

Lemma ok_trans c1 c2 c3 : ok c1 c2 -> ok c2 c3 -> ok c1 c3.
Proof.
  unfold ok. intros H12 [H|[H|[Hr Hm]]]; [auto|auto|].
  rewrite Hr, Hm. destruct H12 as [H|[H|[Hr' Hm']]]; [auto|auto|].
  right. right. split; congruence.
Qed.

Lemma ok_invariant c c' : running_not_closed c -> ok c c' -> running_not_closed c'.
Proof.
  unfold running_not_closed, ok. intros HI [H|[H|[Hr Hm]]] Hrun; [congruence|auto|].
  rewrite Hm. apply HI. congruence.
Qed.

(** A handler that keeps [ok] and sends neither [pause] nor [resume]. *)
Definition tame {A} (m : M A) : Prop :=
  forall c, ok c (state_of (m c)) /\ sends_pause_or_resume (effects_of (m c)) = false.

Lemma tame_ret {A} (a : A) : tame (mret a).
Proof. intros c. split; [apply ok_refl|reflexivity]. Qed.

Lemma tame_get : tame get.
Proof. intros c. split; [apply ok_refl|reflexivity]. Qed.

Lemma tame_emit e : pause_or_resume e = false -> tame (emit e).
Proof.
  intros He c. split; [apply ok_refl|]. cbn. now rewrite He.
Qed.

Lemma tame_modify f : (forall c, ok c (f c)) -> tame (modify f).
Proof. intros Hf c. split; [apply Hf|reflexivity]. Qed.

Lemma tame_bind {A B} (m : M A) (k : A -> M B) :
  tame m -> (forall a, tame (k a)) -> tame (m ≫= k).
Proof.
  intros Hm Hk c. unfold mbind, M_bind.
  destruct (Hm c) as [Ho He]. destruct (m c) as [[a c1] e1].
  destruct (Hk a c1) as [Ho' He']. destruct (k a c1) as [[b c2] e2].
  unfold state_of, effects_of, sends_pause_or_resume in *. cbn in *.
  split; [eapply ok_trans; eassumption|].
  now rewrite existsb_app, He, He'.
Qed.

Lemma tame_when b m : tame m -> tame (when b m).
Proof. intros H. destruct b; [exact H|apply tame_ret]. Qed.

Lemma tame_for_each {A} (l : list A) (f : A -> M unit) :
  (forall x, tame (f x)) -> tame (for_each l f).
Proof.
  intros Hf. induction l as [|x l IH]; cbn [for_each]; [apply tame_ret|].
  apply tame_bind; [apply Hf|intros _; exact IH].
Qed.

Lemma ok_same c c' :
  _running c' = _running c -> _state c' = _state c -> ok c c'.
Proof. intros Hr Hs. right. right. rewrite Hr, Hs. auto. Qed.

Lemma value_set_member_other obj k k' v :
  k <> k' -> value (set_member obj k v) k' = value obj k'.
Proof.
  intros Hne. induction obj as [|[k0 v0] obj IH]; cbn.
  - apply String.eqb_neq in Hne. now rewrite Hne.
  - destruct (String.eqb_spec k0 k) as [->|Hk0]; cbn.
    + apply String.eqb_neq in Hne. now rewrite Hne.
    + destruct (String.eqb k0 k'); [reflexivity|exact IH].
Qed.

(** [sendCommand] changes no member, and what it sends, if anything, is one
    text message carrying the [command] member it was given. *)
Lemma sendCommand_spec uuid obj c :
  exists id es,
    sendCommand uuid obj c = (id, c, es)
    /\ (es = [] \/ exists obj', es = [SendTextMessage obj']
                               /\ value obj' "command" = value obj "command").
Proof.
  unfold sendCommand. rewrite run_get.
  destruct (socket_connected c); cbn [negb]; [|do 2 eexists; split; [reflexivity|auto]].
  destruct (contains obj "command"); cbn [negb]; [|do 2 eexists; split; [reflexivity|auto]].
  do 2 eexists. split; [reflexivity|]. right. eexists. split; [reflexivity|].
  destruct (contains obj "id"); cbn [negb];
    match goal with
    | |- context [contains ?o "protocol_version"] =>
        destruct (contains o "protocol_version"); cbn [negb]
    end;
    rewrite ?value_set_member_other by discriminate; reflexivity.
Qed.

Lemma tame_sendCommand uuid obj :
  pause_or_resume (SendTextMessage obj) = false -> tame (sendCommand uuid obj).
Proof.
  intros Hq c. destruct (sendCommand_spec uuid obj c) as (id & es & -> & Hes).
  split; [apply ok_refl|]. unfold effects_of. cbn [snd].
  destruct Hes as [->|(obj' & -> & Hv)]; [reflexivity|].
  cbn in *. now rewrite Hv, Hq.
Qed.

(** Symbolic execution of the straight-line part of a handler. *)
Ltac run :=
  repeat first [rewrite run_assoc | rewrite run_modify | rewrite run_get | rewrite run_ret].

(** [shutdown] leaves the client stopped, or does nothing. *)
Lemma tame_shutdown : tame shutdown.
Proof.
  intros c. unfold shutdown. rewrite run_get.
  destruct (_running c) eqn:Hr; cbn [negb]; [|split; [apply ok_refl|reflexivity]].
  unfold resetState. run.
  match goal with |- context [when ?b _] => destruct b end;
    cbn; (split; [left; reflexivity|reflexivity]).
Qed.

Lemma tame_onDisconnected : tame onDisconnected.
Proof.
  intros c. unfold onDisconnected. rewrite run_get.
  destruct (_running c) eqn:Hr, (_dialog c), (_closing c); cbn;
    (split; [first [left; reflexivity | apply ok_same; reflexivity]|reflexivity]).
Qed.

Ltac same_mode := intros ?; apply ok_same; reflexivity.

Ltac tame_auto :=
  repeat first
    [ apply tame_ret
    | apply tame_get
    | apply tame_emit; reflexivity
    | apply tame_modify; same_mode
    | apply tame_modify; intros ?; right; left; discriminate
    | apply tame_when
    | apply tame_shutdown
    | apply tame_onDisconnected
    | apply tame_sendCommand; reflexivity
    | apply tame_for_each; intros ?
    | apply tame_bind; [|intros ?]
    | match goal with
      | |- tame (if ?b then _ else _) => destruct b
      | |- tame (match ?x with _ => _ end) => destruct x
      end ].

Lemma tame_updateOkButton : tame updateOkButton.
Proof. unfold updateOkButton. tame_auto. Qed.

Lemma tame_createParsersForTopics : tame createParsersForTopics.
Proof. unfold createParsersForTopics, createParserFor. tame_auto. Qed.

Lemma tame_onTextMessageReceived doc : tame (onTextMessageReceived doc).
Proof.
  unfold onTextMessageReceived. cbv zeta.
  apply tame_bind; [apply tame_get|intros c].
  destruct (negb (_running c)); [apply tame_ret|].
  destruct doc as [[]|]; try apply tame_ret.
  repeat match goal with
         | |- tame (if ?b then _ else _) => destruct b
         end; try apply tame_ret.
  - tame_auto.
  - apply tame_bind; [tame_auto|intros _].
    apply tame_bind; [tame_auto|intros _].
    apply tame_bind; [tame_auto|intros _].
    destruct (_pending_mode c);
      repeat match goal with
             | |- tame (if ?b then _ else _) => destruct b
             end;
      first [apply tame_ret | idtac].
    + apply tame_bind; [tame_auto|intros _].
      apply tame_bind; [tame_auto|intros _]. apply tame_updateOkButton.
    + tame_auto.
    + apply tame_bind; [tame_auto|intros _].
      apply tame_bind; [apply tame_createParsersForTopics|intros _]. tame_auto.
Qed.

Lemma tame_onRos2CdrMessage topic ts cdr : tame (onRos2CdrMessage topic ts cdr).
Proof. unfold onRos2CdrMessage. tame_auto. Qed.

Lemma tame_parse_blocks fuel : forall q parsed, tame (parse_blocks fuel q parsed).
Proof.
  induction fuel as [|fuel IH]; intros q parsed.
  - destruct q; apply tame_ret.
  - destruct q as [|x q]; [apply tame_ret|].
    cbn [parse_blocks].
    repeat match goal with
           | |- tame (match ?x with _ => _ end) => destruct x
           | |- tame (if ?b then _ else _) => destruct b
           | |- tame (mret _) => apply tame_ret
           end.
    apply tame_bind; [apply tame_onRos2CdrMessage|intros _; apply IH].
Qed.

Lemma tame_onBinaryMessageReceived message : tame (onBinaryMessageReceived message).
Proof.
  unfold onBinaryMessageReceived, parseDecompressedPayload. cbv zeta.
  apply tame_bind; [apply tame_get|intros c].
  repeat match goal with
         | |- tame (match ?x with _ => _ end) => destruct x
         | |- tame (if ?b then _ else _) => destruct b
         | |- tame (mret _) => apply tame_ret
         | |- tame (emit _) => apply tame_emit; reflexivity
         end.
  apply tame_bind; [|intros _; apply tame_emit; reflexivity].
  apply tame_bind; [apply tame_parse_blocks|intros r].
  tame_auto.
Qed.

Lemma tame_onConnected uuid :
  tame (modify (set_socket_connected true);; onConnected uuid).
Proof.
  intros c. unfold onConnected. rewrite !run_modify.
  assert (T : tame (id ← sendCommand uuid (command "get_topics");
                    modify (set_pending_request_id id);;
                    modify (set_topics_timer true))) by tame_auto.
  match goal with
  | |- ok _ (state_of (_ ?c0)) /\ _ => destruct (T c0) as [Ho He]
  end.
  split; [|exact He].
  destruct Ho as [H|[H|[Hr Hm]]];
    [left; exact H|right; left; exact H|right; left; rewrite Hm; discriminate].
Qed.

(** Every handler except the Pause / Resume action is tame. *)
Lemma tame_handle e :
  (forall uuid, e <> EvActionTriggered uuid) -> tame (handle e).
Proof.
  intros Hne. unfold handle.
  apply tame_bind; [apply tame_get|intros c].
  destruct e; try (exfalso; eapply Hne; reflexivity).
  - tame_auto.
  - destruct (_dialog c); [|apply tame_ret].
    unfold onDialogAccepted. cbv zeta. tame_auto.
  - destruct (_dialog c); [|apply tame_ret].
    unfold onDialogRejected. tame_auto.
  - apply tame_updateOkButton.
  - unfold afterDialog. tame_auto.
  - apply tame_shutdown.
  - apply tame_onConnected.
  - tame_auto.
  - unfold onError. tame_auto.
  - tame_auto.
  - apply tame_onTextMessageReceived.
  - apply tame_onBinaryMessageReceived.
  - destruct (_topics_timer c); [|apply tame_ret].
    unfold requestTopics. tame_auto.
  - destruct (_heartbeat_timer c); [|apply tame_ret].
    unfold sendHeartBeat. tame_auto.
Qed.

(** State only: the handler keeps [ok], whatever it sends. *)
Definition steady {A} (m : M A) : Prop := forall c, ok c (state_of (m c)).

Lemma steady_tame {A} (m : M A) : tame m -> steady m.
Proof. intros H c. apply H. Qed.

Lemma steady_bind {A B} (m : M A) (k : A -> M B) :
  steady m -> (forall a, steady (k a)) -> steady (m ≫= k).
Proof.
  intros Hm Hk c. unfold mbind, M_bind.
  pose proof (Hm c) as Ho. destruct (m c) as [[a c1] e1].
  pose proof (Hk a c1) as Ho'. destruct (k a c1) as [[b c2] e2].
  unfold state_of in *. cbn in *. eapply ok_trans; eassumption.
Qed.

Lemma steady_sendCommand uuid obj : steady (sendCommand uuid obj).
Proof.
  intros c. destruct (sendCommand_spec uuid obj c) as (id & es & -> & _).
  apply ok_refl.
Qed.

Lemma steady_pause uuid : steady (pause uuid).
Proof.
  unfold pause. apply steady_bind; [apply steady_tame, tame_get|intros c].
  destruct (_ || _); [apply steady_tame, tame_ret|].
  apply steady_bind; [apply steady_sendCommand|intros id; apply steady_tame, tame_ret].
Qed.

Lemma steady_resume uuid : steady (resume uuid).
Proof.
  unfold resume. apply steady_bind; [apply steady_tame, tame_get|intros c].
  destruct (_ || _); [apply steady_tame, tame_ret|].
  apply steady_bind; [apply steady_sendCommand|intros id; apply steady_tame, tame_ret].
Qed.

Lemma steady_onActionTriggered uuid : steady (onActionTriggered uuid).
Proof.
  unfold onActionTriggered.
  apply steady_bind; [apply steady_tame, tame_get|intros c].
  repeat match goal with
         | |- steady (if ?b then _ else _) => destruct b
         end; try (apply steady_tame, tame_ret).
  - apply steady_bind; [apply steady_resume|intros ok0]. apply steady_tame. tame_auto.
  - apply steady_bind; [apply steady_pause|intros ok0]. apply steady_tame. tame_auto.
Qed.

(** The action sends only when running with no request in flight, and
    touches neither [_running] nor the mode. *)
Lemma onActionTriggered_run uuid c :
  ok c (state_of (handle (EvActionTriggered uuid) c))
  /\ (sends_pause_or_resume (effects_of (handle (EvActionTriggered uuid) c)) = true ->
      _running c = true /\ req_in_flight (_state c) = false).
Proof.
  unfold handle. rewrite run_get. split; [apply steady_onActionTriggered|].
  unfold onActionTriggered. rewrite run_get.
  destruct (_running c) eqn:Hr; cbn [negb]; [|discriminate].
  destruct (req_in_flight (_state c)) eqn:Hf; [discriminate|auto].
Qed.

Lemma step_ok e c : ok c (fst (step e c)).
Proof.
  unfold step.
  destruct e;
    try (match goal with
         | |- context [handle ?ev c] =>
             pose proof (tame_handle ev ltac:(discriminate) c) as [H _];
             unfold state_of in H; destruct (handle ev c) as [[[] c'] es]; exact H
         end).
  pose proof (onActionTriggered_run uuid c) as [H _].
  unfold state_of in H. destruct (handle (EvActionTriggered uuid) c) as [[[] c'] es].
  exact H.
Qed.

Lemma reachable_running_not_closed c : reachable c -> running_not_closed c.
Proof.
  induction 1 as [|e c Hc IH].
  - intros H. discriminate.
  - eapply ok_invariant; [exact IH|apply step_ok].
Qed.

(** C6 (as amended). In every reachable state of the client, a [pause] or
    [resume] command is sent only while the client is running and no
    request is in flight; the mode is then not [Close], and it need not be
    [Data]: the commands also go out in [GetTopics] and [Subscribe]. *)
Theorem pause_resume_only_when_running_and_idle (c : Client) (e : Event) :
  reachable c ->
  sends_pause_or_resume (snd (step e c)) = true ->
  _running c = true
  /\ req_in_flight (_state c) = false
  /\ mode (_state c) <> Close.
Proof.
  intros Hreach Hsend.
  assert (Hact : exists uuid, e = EvActionTriggered uuid).
  { destruct e; eauto; exfalso;
      match goal with
      | H : sends_pause_or_resume (snd (step ?ev c)) = true |- _ =>
          pose proof (tame_handle ev ltac:(discriminate) c) as [_ Hq];
          unfold step, effects_of in *;
          destruct (handle ev c) as [[[] c'] es]; cbn in *; congruence
      end. }
  destruct Hact as [uuid ->].
  pose proof (onActionTriggered_run uuid c) as [_ Hguard].
  unfold step, effects_of in *.
  destruct (handle (EvActionTriggered uuid) c) as [[[] c'] es]. cbn in *.
  destruct (Hguard Hsend) as [Hr Hf].
  split; [exact Hr|]. split; [exact Hf|].
  now apply reachable_running_not_closed.
Qed.

(* --------------------------------------------------------------------- *)
(** ** What the client puts on the wire                                   *)
(* --------------------------------------------------------------------- *)

(** The object [sendCommand] serializes: [obj] with the [id] and
    [protocol_version] members filled in when they are missing. *)
Definition completed (uuid : N) (obj : JsonObject) : JsonObject :=
  let obj1 := if negb (contains obj "id")
              then set_member obj "id" (JString (uuid_toString uuid)) else obj in
  if negb (contains obj1 "protocol_version")
  then set_member obj1 "protocol_version" (JNumber (Some 1%Z)) else obj1.

(** [sendCommand] touches no member; it sends the completed object, and
    returns its [id], when the socket is connected and the object has a
    [command]; otherwise it sends nothing and returns the empty string. *)
Lemma sendCommand_run uuid obj c :
  sendCommand uuid obj c
  = if socket_connected c && contains obj "command"
    then (toString (value (completed uuid obj) "id") EmptyString, c,
          [SendTextMessage (completed uuid obj)])
    else (EmptyString, c, []).
Proof.
  unfold sendCommand, completed. rewrite run_get.
  destruct (socket_connected c); cbn [negb andb]; [|reflexivity].
  destruct (contains obj "command"); reflexivity.
Qed.

Lemma value_set_member_same obj k v : value (set_member obj k v) k = v.
Proof.
  induction obj as [|[k0 v0] obj IH]; cbn.
  - now rewrite String.eqb_refl.
  - destruct (String.eqb_spec k0 k) as [->|Hne]; cbn.
    + now rewrite String.eqb_refl.
    + apply String.eqb_neq in Hne. now rewrite Hne.
Qed.

(** A handler all of whose effects satisfy [E]. *)
Definition emits {A} (E : Effect -> Prop) (m : M A) : Prop :=
  forall c, Forall E (effects_of (m c)).

Lemma emits_ret {A} E (a : A) : emits E (mret a).
Proof. intros c. constructor. Qed.

Lemma emits_get E : emits E get.
Proof. intros c. constructor. Qed.

Lemma emits_modify E f : emits E (modify f).
Proof. intros c. constructor. Qed.

Lemma emits_emit (E : Effect -> Prop) e : E e -> emits E (emit e).
Proof. intros He c. repeat constructor. exact He. Qed.

Lemma emits_bind {A B} E (m : M A) (k : A -> M B) :
  emits E m -> (forall a, emits E (k a)) -> emits E (m ≫= k).
Proof.
  intros Hm Hk c. unfold mbind, M_bind.
  pose proof (Hm c) as H1. destruct (m c) as [[a c1] e1].
  pose proof (Hk a c1) as H2. destruct (k a c1) as [[b c2] e2].
  unfold effects_of in *. cbn in *. apply Forall_app. auto.
Qed.

Lemma emits_when E b m : emits E m -> emits E (when b m).
Proof. intros H. destruct b; [exact H|apply emits_ret]. Qed.

Lemma emits_for_each {A} E (l : list A) (f : A -> M unit) :
  (forall x, emits E (f x)) -> emits E (for_each l f).
Proof.
  intros Hf. induction l as [|x l IH]; cbn [for_each]; [apply emits_ret|].
  apply emits_bind; [apply Hf|intros _; exact IH].
Qed.

Lemma emits_sendCommand (E : Effect -> Prop) uuid obj :
  E (SendTextMessage (completed uuid obj)) -> emits E (sendCommand uuid obj).
Proof.
  intros He c. rewrite sendCommand_run.
  destruct (_ && _); unfold effects_of; cbn; repeat constructor. exact He.
Qed.

(** The effects of a handler, by the structure of its code; [solve_effect]
    settles the predicate on each effect met. *)
Ltac emits_with solve_effect :=
  repeat first
    [ apply emits_ret
    | apply emits_get
    | apply emits_modify
    | apply emits_emit; solve_effect
    | apply emits_sendCommand; solve_effect
    | apply emits_when
    | apply emits_for_each; intros ?
    | apply emits_bind; [|intros ?]
    | match goal with
      | |- emits _ (if ?b then _ else _) => destruct b
      | |- emits _ (match ?x with _ => _ end) => destruct x
      end ].

Lemma emits_parse_blocks E fuel :
  (forall topic ts cdr, emits E (onRos2CdrMessage topic ts cdr)) ->
  forall q parsed, emits E (parse_blocks fuel q parsed).
Proof.
  intros Hcdr. induction fuel as [|fuel IH]; intros q parsed.
  - destruct q; apply emits_ret.
  - destruct q as [|x q]; [apply emits_ret|].
    cbn [parse_blocks].
    repeat match goal with
           | |- emits _ (match ?x with _ => _ end) => destruct x
           | |- emits _ (if ?b then _ else _) => destruct b
           | |- emits _ (mret _) => apply emits_ret
           end.
    apply emits_bind; [apply Hcdr|intros _; apply IH].
Qed.

(** Every handler, by the structure of the event loop. *)
Ltac emits_handlers solve_effect :=
  unfold onDialogAccepted, onDialogRejected, afterDialog, onActionTriggered, pause, resume,
         onConnected, onError, onDisconnected, shutdown, resetState, updateOkButton,
         requestTopics, sendHeartBeat, onTextMessageReceived, createParsersForTopics,
         createParserFor, updateOkButton, onBinaryMessageReceived, parseDecompressedPayload;
  cbv zeta;
  repeat first
    [ apply emits_parse_blocks; intros; unfold onRos2CdrMessage, shutdown, resetState
    | progress emits_with solve_effect ].

(** A message of the protocol: one of the five commands, an [id] drawn
    from [QUuid::createUuid], and protocol version 1. *)
Definition protocol_message (e : Effect) : Prop :=
  match e with
  | SendTextMessage obj =>
      (exists cmd, value obj "command" = JString cmd
                   /\ In cmd ["get_topics"; "subscribe"; "heartbeat"; "pause"; "resume"])
      /\ (exists uuid, value obj "id" = JString (uuid_toString uuid))
      /\ toInt (value obj "protocol_version") = 1%Z
  | _ => True
  end.

Ltac solve_protocol :=
  first [ exact I
        | cbn; split; [eexists; split; [reflexivity|cbn; tauto]|];
          split; [eexists; reflexivity|reflexivity] ].

(** X21. The wire format.  Whatever the event and the state, every text message
    the client sends carries one of the five commands of the protocol, an
    [id] that is a freshly drawn UUID, and [protocol_version] 1. *)
Theorem sent_messages_wellformed (e : Event) (c : Client) :
  Forall protocol_message (snd (step e c)).
Proof.
  assert (H : emits protocol_message (handle e)).
  { unfold handle. apply emits_bind; [apply emits_get|intros c0].
    destruct e; emits_handlers solve_protocol. }
  specialize (H c). unfold step, effects_of in *.
  destruct (handle e c) as [[[] c'] es]. exact H.
Qed.

(** No text message at all. *)
Definition no_send (e : Effect) : Prop :=
  match e with SendTextMessage _ => False | _ => True end.

(** A handler that, entered with the socket not connected, leaves it so
    and sends nothing. *)
Definition quiet {A} (m : M A) : Prop :=
  forall c, socket_connected c = false ->
            socket_connected (state_of (m c)) = false
            /\ Forall no_send (effects_of (m c)).

Lemma quiet_ret {A} (a : A) : quiet (mret a).
Proof. intros c H. split; [exact H|constructor]. Qed.

Lemma quiet_get : quiet get.
Proof. intros c H. split; [exact H|constructor]. Qed.

Lemma quiet_modify f :
  (forall c, socket_connected c = false -> socket_connected (f c) = false) ->
  quiet (modify f).
Proof. intros Hf c H. split; [apply Hf, H|constructor]. Qed.

Lemma quiet_emit e : no_send e -> quiet (emit e).
Proof. intros He c H. split; [exact H|repeat constructor; exact He]. Qed.

Lemma quiet_bind {A B} (m : M A) (k : A -> M B) :
  quiet m -> (forall a, quiet (k a)) -> quiet (m ≫= k).
Proof.
  intros Hm Hk c Hc. unfold mbind, M_bind.
  destruct (Hm c Hc) as [H1 E1]. destruct (m c) as [[a c1] e1].
  unfold state_of, effects_of in *. cbn in H1, E1.
  destruct (Hk a c1 H1) as [H2 E2]. destruct (k a c1) as [[b c2] e2].
  cbn in *. split; [exact H2|apply Forall_app; auto].
Qed.

Lemma quiet_when b m : quiet m -> quiet (when b m).
Proof. intros H. destruct b; [exact H|apply quiet_ret]. Qed.

Lemma quiet_for_each {A} (l : list A) (f : A -> M unit) :
  (forall x, quiet (f x)) -> quiet (for_each l f).
Proof.
  intros Hf. induction l as [|x l IH]; cbn [for_each]; [apply quiet_ret|].
  apply quiet_bind; [apply Hf|intros _; exact IH].
Qed.

Lemma quiet_sendCommand uuid obj : quiet (sendCommand uuid obj).
Proof.
  intros c H. rewrite sendCommand_run, H. cbn. split; [exact H|constructor].
Qed.

Ltac quiet_auto :=
  repeat first
    [ apply quiet_ret
    | apply quiet_get
    | apply quiet_modify; intros ? H; first [exact H | reflexivity]
    | apply quiet_emit; exact I
    | apply quiet_sendCommand
    | apply quiet_when
    | apply quiet_for_each; intros ?
    | apply quiet_bind; [|intros ?]
    | match goal with
      | |- quiet (if ?b then _ else _) => destruct b
      | |- quiet (match ?x with _ => _ end) => destruct x
      end ].

Lemma quiet_parse_blocks fuel : forall q parsed, quiet (parse_blocks fuel q parsed).
Proof.
  induction fuel as [|fuel IH]; intros q parsed.
  - destruct q; apply quiet_ret.
  - destruct q as [|x q]; [apply quiet_ret|].
    cbn [parse_blocks].
    repeat match goal with
           | |- quiet (match ?x with _ => _ end) => destruct x
           | |- quiet (if ?b then _ else _) => destruct b
           | |- quiet (mret _) => apply quiet_ret
           end.
    apply quiet_bind; [|intros _; apply IH].
    unfold onRos2CdrMessage, shutdown, resetState. quiet_auto.
Qed.

(** X22. A silent socket.  When an event other than the connection itself
    finds the socket not connected, handling it sends no text message:
    no command leaves the client before [connected] or after the
    connection is lost. *)
Theorem nothing_sent_when_disconnected (e : Event) (c : Client) :
  socket_connected c = false ->
  (forall uuid, e <> EvConnected uuid) ->
  Forall no_send (snd (step e c)).
Proof.
  intros Hc Hne.
  assert (H : Forall no_send (effects_of (handle e c))).
  { destruct e; try (exfalso; eapply Hne; reflexivity).
    all: try match goal with
             | |- Forall _ (effects_of (handle (EvSocketState _) _)) =>
                 unfold handle; rewrite run_get; constructor
             end.
    all: match goal with
         | Hc0 : socket_connected ?c0 = false |- Forall _ (effects_of (handle ?ev ?c0)) =>
             assert (Hq : quiet (handle ev));
             [|exact (proj2 (Hq c0 Hc0))]
         end.
    all: unfold handle; apply quiet_bind; [apply quiet_get|intros c0].
    all: unfold onDialogAccepted, onDialogRejected, afterDialog, onActionTriggered, pause,
           resume, onError, onDisconnected, shutdown, resetState, updateOkButton,
           requestTopics, sendHeartBeat, onTextMessageReceived, createParsersForTopics,
           createParserFor, updateOkButton, onBinaryMessageReceived,
           parseDecompressedPayload; cbv zeta.
    all: repeat first [apply quiet_parse_blocks | progress quiet_auto]. }
  unfold step, effects_of in *. destruct (handle e c) as [[[] c'] es]. exact H.
Qed.

(* --------------------------------------------------------------------- *)
(** ** Invariants of the state machine                                    *)
(* --------------------------------------------------------------------- *)

Definition value_of {A} (r : A * Client * list Effect) : A := fst (fst r).

Lemma state_bind {A B} (m : M A) (k : A -> M B) c :
  state_of ((m ≫= k) c) = state_of (k (value_of (m c)) (state_of (m c))).
Proof.
  unfold mbind, M_bind, state_of, value_of. destruct (m c) as [[a c1] e1].
  cbn [fst snd]. destruct (k a c1) as [[b c2] e2]. reflexivity.
Qed.

Lemma effects_bind {A B} (m : M A) (k : A -> M B) c :
  effects_of ((m ≫= k) c)
  = effects_of (m c) ++ effects_of (k (value_of (m c)) (state_of (m c))).
Proof.
  unfold mbind, M_bind, state_of, value_of, effects_of. destruct (m c) as [[a c1] e1].
  cbn [fst snd]. destruct (k a c1) as [[b c2] e2]. reflexivity.
Qed.

Lemma value_bind {A B} (m : M A) (k : A -> M B) c :
  value_of ((m ≫= k) c) = value_of (k (value_of (m c)) (state_of (m c))).
Proof.
  unfold mbind, M_bind, state_of, value_of. destruct (m c) as [[a c1] e1].
  cbn [fst snd]. destruct (k a c1) as [[b c2] e2]. reflexivity.
Qed.

Lemma state_sendCommand uuid obj c : state_of (sendCommand uuid obj c) = c.
Proof. rewrite sendCommand_run. now destruct (_ && _). Qed.

Lemma state_get c : state_of (get c) = c.
Proof. reflexivity. Qed.
Lemma value_get c : value_of (get c) = c.
Proof. reflexivity. Qed.
Lemma effects_get c : effects_of (get c) = [].
Proof. reflexivity. Qed.
Lemma state_modify f c : state_of (modify f c) = f c.
Proof. reflexivity. Qed.
Lemma effects_modify f c : effects_of (modify f c) = [].
Proof. reflexivity. Qed.
Lemma state_emit e c : state_of (emit e c) = c.
Proof. reflexivity. Qed.
Lemma effects_emit e c : effects_of (emit e c) = [e].
Proof. reflexivity. Qed.
Lemma state_ret {A} (a : A) c : state_of ((mret a : M A) c) = c.
Proof. reflexivity. Qed.
Lemma value_ret {A} (a : A) c : value_of ((mret a : M A) c) = a.
Proof. reflexivity. Qed.
Lemma effects_ret {A} (a : A) c : effects_of ((mret a : M A) c) = [].
Proof. reflexivity. Qed.

(** The state a handler ends in, step by step. *)
Ltac exec_state :=
  repeat first
    [ rewrite state_bind
    | rewrite state_sendCommand
    | rewrite state_get
    | rewrite value_get
    | rewrite state_modify
    | rewrite state_emit
    | rewrite state_ret
    | rewrite value_ret ].

(** A stopped client is reset; the pending request is tracked exactly
    while a request is in flight; the timers follow the mode. *)
Record consistent (c : Client) : Prop := {
  stopped_is_reset :
    _running c = false ->
    mode (_state c) = Close /\ req_in_flight (_state c) = false
    /\ _topics c = [] /\ _parsers_topic c = ∅
    /\ _topics_timer c = false /\ _heartbeat_timer c = false;
  idle_has_no_pending :
    req_in_flight (_state c) = false ->
    _pending_request_id c = EmptyString /\ _pending_mode c = Close;
  pending_is_mode :
    req_in_flight (_state c) = true ->
    _pending_mode c = mode (_state c)
    /\ (mode (_state c) = GetTopics \/ mode (_state c) = Subscribe);
  data_has_heartbeat :
    mode (_state c) = Data -> _heartbeat_timer c = true /\ _topics_timer c = false;
  selecting_polls :
    mode (_state c) = GetTopics \/ mode (_state c) = Subscribe -> _topics_timer c = true
}.

Lemma consistent_initial : consistent initial.
Proof. split; cbn; intros; repeat split; try congruence; try tauto; destruct H; congruence. Qed.

(** Settles [consistent] of an explicit state from [consistent] of the
    state it was built from. *)
Ltac consistent_auto :=
  match goal with
  | H : consistent ?c |- consistent _ =>
      try clear zstd_content; try clear fromUtf8; try clear createParser;
      try clear has_factory; try clear parseMessage;
      destruct H as [H1 H2 H3 H4 H5];
      split; cbn; intros;
      destruct (_state c) as [md fl] eqn:Est; cbn [mode req_in_flight] in *;
      destruct (_running c) eqn:?; destruct fl; destruct md;
      intuition (congruence || discriminate)
  end.

Lemma consistent_set_socket_connected b c :
  consistent c -> consistent (set_socket_connected b c).
Proof. intros H. consistent_auto. Qed.

Lemma consistent_onConnected uuid c :
  consistent c -> consistent (state_of (onConnected uuid c)).
Proof.
  intros H. unfold onConnected. exec_state. consistent_auto.
Qed.

Lemma state_when b (m : M unit) c :
  state_of (when b m c) = if b then state_of (m c) else c.
Proof. destruct b; reflexivity. Qed.

Lemma state_if {A} (b : bool) (m1 m2 : M A) c :
  state_of ((if b then m1 else m2) c) = if b then state_of (m1 c) else state_of (m2 c).
Proof. destruct b; reflexivity. Qed.

Lemma state_updateOkButton c : state_of (updateOkButton c) = c.
Proof.
  unfold updateOkButton. exec_state.
  repeat match goal with |- context [if ?b then _ else _] => destruct b end; reflexivity.
Qed.

Lemma state_pause uuid c : state_of (pause uuid c) = c.
Proof.
  unfold pause. exec_state. destruct (_ || _); exec_state; reflexivity.
Qed.

Lemma state_resume uuid c : state_of (resume uuid c) = c.
Proof.
  unfold resume. exec_state. destruct (_ || _); exec_state; reflexivity.
Qed.

Lemma consistent_shutdown c : consistent c -> consistent (state_of (shutdown c)).
Proof.
  intros H. unfold shutdown, resetState. exec_state.
  destruct (_running c) eqn:Hr; cbn [negb]; exec_state; [|exact H].
  rewrite state_when. exec_state.
  match goal with |- context [if ?b then _ else _] => destruct b end;
    split; cbn; intros; repeat split; try congruence;
    repeat match goal with H : _ \/ _ |- _ => destruct H end; congruence.
Qed.

Lemma consistent_onDisconnected c :
  consistent c -> consistent (state_of (onDisconnected c)).
Proof.
  intros H. unfold onDisconnected, resetState. exec_state.
  rewrite !state_if, !state_when. exec_state.
  destruct (_running c) eqn:Hr; cbn [negb].
  - rewrite state_when. exec_state.
    repeat match goal with |- context [if ?b then _ else _] => destruct b end;
      split; cbn; intros; repeat split; try congruence;
      repeat match goal with H : _ \/ _ |- _ => destruct H end; congruence.
  - exec_state.
    repeat match goal with |- context [if ?b then _ else _] => destruct b end;
      consistent_auto.
Qed.

(** [createParsersForTopics] changes the parsers and the set of encodings
    warned about, and nothing else. *)
Lemma createParserFor_frame t c p w :
  exists p' w',
    state_of (createParserFor t (set_warned w (set_parsers p c)))
    = set_warned w' (set_parsers p' c).
Proof.
  unfold createParserFor. exec_state.
  repeat match goal with
         | |- context [if ?b then _ else _] => destruct b
         | |- context [match ?x with Some _ => _ | None => _ end] => destruct x
         end; exec_state; do 2 eexists; reflexivity.
Qed.

Lemma for_each_createParserFor_frame l : forall c p w,
  exists p' w',
    state_of (for_each l createParserFor (set_warned w (set_parsers p c)))
    = set_warned w' (set_parsers p' c).
Proof.
  induction l as [|t l IH]; intros c p w; cbn [for_each].
  - do 2 eexists. reflexivity.
  - rewrite state_bind.
    destruct (createParserFor_frame t c p w) as (p1 & w1 & ->). apply IH.
Qed.

Lemma createParsersForTopics_frame c :
  exists p w, state_of (createParsersForTopics c) = set_warned w (set_parsers p c).
Proof.
  unfold createParsersForTopics. exec_state.
  pose proof (for_each_createParserFor_frame (_topics c) c (_parsers_topic c) (warned c))
    as (p & w & Hf).
  replace (set_warned (warned c) (set_parsers (_parsers_topic c) c)) with c in Hf
    by (destruct c; reflexivity).
  eauto.
Qed.

Lemma consistent_onTextMessageReceived doc c :
  consistent c -> consistent (state_of (onTextMessageReceived doc c)).
Proof.
  intros H. unfold onTextMessageReceived. cbv zeta. exec_state.
  destruct (_running c) eqn:Hrun; cbn [negb]; exec_state; [|exact H].
  destruct doc as [[| | | | | |obj]|]; exec_state; try exact H.
  destruct (_ || _); exec_state; [exact H|].
  destruct (_ && _); exec_state; [exact H|].
  destruct (String.eqb _ "error"); exec_state; [consistent_auto|].
  destruct (negb _); exec_state; [exact H|].
  destruct (_pending_mode c) eqn:Hpm.
  - destruct (_ || _); exec_state; [consistent_auto|].
    rewrite state_updateOkButton. consistent_auto.
  - destruct (_ || _); exec_state; [consistent_auto|].
    match goal with
    | |- context [createParsersForTopics ?c0] =>
        destruct (createParsersForTopics_frame c0) as (p & w & ->)
    end.
    consistent_auto.
  - exec_state. consistent_auto.
  - exec_state. consistent_auto.
Qed.

Lemma consistent_onRos2CdrMessage topic ts cdr c :
  consistent c -> consistent (state_of (onRos2CdrMessage topic ts cdr c)).
Proof.
  intros H. unfold onRos2CdrMessage. exec_state.
  destruct (_parsers_topic c !! topic); exec_state; [|exact H].
  destruct (parseMessage _ _ _); exec_state; [exact H|].
  now apply consistent_shutdown.
Qed.

Lemma consistent_parse_blocks fuel : forall q parsed c,
  consistent c -> consistent (state_of (parse_blocks fuel q parsed c)).
Proof.
  induction fuel as [|fuel IH]; intros q parsed c H.
  - destruct q; exact H.
  - destruct q as [|x q]; [exact H|].
    cbn [parse_blocks].
    repeat match goal with
           | |- context [match ?x with Some _ => _ | None => _ end] => destruct x
           | |- context [let (_, _) := ?x in _] => destruct x
           | |- context [if ?b then _ else _] => destruct b
           end; try exact H.
    rewrite state_bind. apply IH. now apply consistent_onRos2CdrMessage.
Qed.

Lemma consistent_onBinaryMessageReceived message c :
  consistent c -> consistent (state_of (onBinaryMessageReceived message c)).
Proof.
  intros H. unfold onBinaryMessageReceived, parseDecompressedPayload. cbv zeta. exec_state.
  repeat match goal with
         | |- context [match ?x with Some _ => _ | None => _ end] => destruct x
         | |- context [let (_, _) := ?x in _] => destruct x
         | |- context [if ?b then _ else _] => destruct b
         end; exec_state; try exact H.
  all: repeat (match goal with
               | |- consistent (state_of ((if ?b then _ else _) _)) => destruct b
               | |- consistent (state_of ((match ?x with Some _ => _ | None => _ end) _)) =>
                   destruct x
               end; exec_state).
  all: try (apply consistent_parse_blocks; exact H).
Qed.

Lemma consistent_requestTopics uuid c :
  consistent c -> consistent (state_of (requestTopics uuid c)).
Proof.
  intros H. unfold requestTopics. exec_state.
  destruct (socket_connected c); cbn [negb]; exec_state; [|exact H].
  destruct (_running c) eqn:Hr; cbn [negb orb]; exec_state; [|exact H].
  destruct (bool_decide (mode (_state c) = GetTopics)) eqn:Hd; cbn [negb orb];
    exec_state; [|exact H].
  apply bool_decide_eq_true in Hd.
  destruct (req_in_flight (_state c)) eqn:Hf; exec_state; [exact H|].
  consistent_auto.
Qed.

Lemma state_sendHeartBeat uuid c : state_of (sendHeartBeat uuid c) = c.
Proof.
  unfold sendHeartBeat. exec_state. destruct (_ || _); exec_state; reflexivity.
Qed.

Lemma consistent_onDialogAccepted uuid port address selection c :
  consistent c -> consistent (state_of (onDialogAccepted uuid port address selection c)).
Proof.
  intros H. unfold onDialogAccepted. cbv zeta. exec_state.
  destruct (_running c) eqn:Hr; cbn [negb]; exec_state.
  - destruct (bool_decide (mode (_state c) = GetTopics)) eqn:Hd; cbn [negb orb];
      exec_state; [|exact H].
    apply bool_decide_eq_true in Hd.
    destruct (req_in_flight (_state c)) eqn:Hf; cbn [orb]; exec_state; [exact H|].
    destruct (Nat.eqb _ 0); exec_state; [exact H|].
    consistent_auto.
  - destruct port as [p|]; exec_state; [|exact H].
    destruct (is_empty address); exec_state; [exact H|].
    consistent_auto.
Qed.

Lemma consistent_onActionTriggered uuid c :
  consistent c -> consistent (state_of (onActionTriggered uuid c)).
Proof.
  intros H. unfold onActionTriggered. exec_state.
  destruct (_running c) eqn:Hr; cbn [negb]; exec_state; [|exact H].
  destruct (req_in_flight (_state c)) eqn:Hf; exec_state; [exact H|].
  destruct (_paused c); exec_state; rewrite ?state_resume, ?state_pause, state_when;
    match goal with |- context [if ?b then _ else _] => destruct b end;
    exec_state; first [exact H | consistent_auto].
Qed.

Lemma consistent_handle e c : consistent c -> consistent (state_of (handle e c)).
Proof.
  intros H. unfold handle. exec_state. destruct e; exec_state.
  - destruct (_running c) eqn:Hr; exec_state; [exact H|consistent_auto].
  - destruct (_dialog c); exec_state; [now apply consistent_onDialogAccepted|exact H].
  - destruct (_dialog c); exec_state; [|exact H].
    unfold onDialogRejected. exec_state. now apply consistent_shutdown.
  - now rewrite state_updateOkButton.
  - unfold afterDialog. exec_state.
    assert (H' : consistent (set_dialog false c)) by consistent_auto.
    cbn [_running set_dialog].
    destruct (_running c); cbn [negb]; exec_state;
      [exact H'|now apply consistent_shutdown].
  - now apply consistent_shutdown.
  - now apply consistent_onActionTriggered.
  - apply consistent_onConnected. now apply consistent_set_socket_connected.
  - apply consistent_onDisconnected. now apply consistent_set_socket_connected.
  - unfold onError. exec_state. now apply consistent_onDisconnected.
  - now apply consistent_set_socket_connected.
  - now apply consistent_onTextMessageReceived.
  - now apply consistent_onBinaryMessageReceived.
  - destruct (_topics_timer c); exec_state; [now apply consistent_requestTopics|exact H].
  - destruct (_heartbeat_timer c); exec_state; [|exact H].
    now rewrite state_sendHeartBeat.
Qed.

(** X23. The invariants.  In every state the client can reach: when it does
    not run, the mode is [Close], no request is in flight, the topic list
    and the parsers are empty and both timers are stopped; when no request
    is in flight, no request id and no mode are pending; when one is, the
    pending mode is the current mode, [GetTopics] or [Subscribe]; in mode
    [Data] the heartbeat timer runs and the topics timer does not; in the
    modes [GetTopics] and [Subscribe] the topics timer runs.  Nothing is
    said of the request id while a request is in flight: it is empty when
    the request was made on a socket that is not connected, as
    [sendCommand] then returns no id. *)
Theorem reachable_consistent (c : Client) : reachable c -> consistent c.
Proof.
  induction 1 as [|e c Hc IH]; [exact consistent_initial|].
  pose proof (consistent_handle e c IH) as H.
  unfold step, state_of in *. destruct (handle e c) as [[[] c'] es]. exact H.
Qed.

(* --------------------------------------------------------------------- *)
(** ** Requests and their replies                                         *)
(* --------------------------------------------------------------------- *)

Lemma effects_sendCommand uuid obj c :
  effects_of (sendCommand uuid obj c)
  = if socket_connected c && contains obj "command"
    then [SendTextMessage (completed uuid obj)] else [].
Proof. rewrite sendCommand_run. now destruct (_ && _). Qed.

Lemma value_sendCommand uuid obj c :
  value_of (sendCommand uuid obj c)
  = if socket_connected c && contains obj "command"
    then toString (value (completed uuid obj) "id") EmptyString else EmptyString.
Proof. rewrite sendCommand_run. now destruct (_ && _). Qed.

(** State, value and effects of a handler, step by step. *)
Ltac exec :=
  repeat first
    [ rewrite state_bind
    | rewrite effects_bind
    | rewrite value_bind
    | rewrite state_sendCommand
    | rewrite effects_sendCommand
    | rewrite value_sendCommand
    | rewrite state_get
    | rewrite value_get
    | rewrite effects_get
    | rewrite state_modify
    | rewrite effects_modify
    | rewrite state_emit
    | rewrite effects_emit
    | rewrite state_ret
    | rewrite value_ret
    | rewrite effects_ret ].

Lemma step_state_effects e c :
  step e c = (state_of (handle e c), effects_of (handle e c)).
Proof. unfold step, state_of, effects_of. now destruct (handle e c) as [[[] c'] es]. Qed.

(** The message is a request: [get_topics] or [subscribe]. *)
Definition request_of (obj : JsonObject) : option Mode :=
  if String.eqb (toString (value obj "command") EmptyString) "get_topics" then Some GetTopics
  else if String.eqb (toString (value obj "command") EmptyString) "subscribe" then Some Subscribe
  else None.

Definition not_request (e : Effect) : Prop :=
  match e with SendTextMessage obj => request_of obj = None | _ => True end.

Lemma uuid_toString_nonempty u : uuid_toString u <> EmptyString.
Proof.
  unfold uuid_toString. intros H. apply (f_equal String.length) in H.
  rewrite !CSV.length_append in H. cbn [String.length] in H. lia.
Qed.

(** X24. A request is tracked.  Whenever the client sends [get_topics] or
    [subscribe], it ends the handler with a request in flight, waiting in
    the mode of that request for a reply carrying the [id] it has just
    sent, which is not empty. *)
Theorem requests_are_tracked (e : Event) (c : Client) (obj : JsonObject) (m : Mode) :
  SendTextMessage obj ∈ snd (step e c) ->
  request_of obj = Some m ->
  let c' := fst (step e c) in
  req_in_flight (_state c') = true
  /\ mode (_state c') = m
  /\ _pending_mode c' = m
  /\ _pending_request_id c' = toString (value obj "id") EmptyString
  /\ _pending_request_id c' <> EmptyString.
Proof.
  rewrite step_state_effects. cbn [fst snd]. intros Hin Hreq.
  assert (Hother : emits not_request (handle e) ->
                   False).
  { intros Hem. specialize (Hem c). rewrite Forall_forall in Hem.
    specialize (Hem _ Hin). cbn in Hem. congruence. }
  destruct e;
    try solve [exfalso; apply Hother;
               unfold handle; apply emits_bind; [apply emits_get|intros c0];
               emits_handlers ltac:(first [exact I | reflexivity])].
  - (* the OK button of the dialog *)
    revert Hin. unfold handle. exec.
    destruct (_dialog c); exec; [|intros Hin; inversion Hin].
    unfold onDialogAccepted. cbv zeta. exec.
    destruct (_running c); cbn [negb]; exec.
    2: { destruct port; exec; [destruct (is_empty address); exec|]; cbn;
         intros Hin; repeat (apply elem_of_cons in Hin as [Hin|Hin]; [discriminate|]);
         inversion Hin. }
    destruct (_ || _); exec; [intros Hin; inversion Hin|].
    cbn [socket_connected set_pending_request_id set_pending_mode set_pending
         set_req_in_flight set_mode set_state set_config_topics set_topics contains
         String.eqb Ascii.eqb Bool.eqb orb andb app].
    destruct (socket_connected c); cbn [andb app];
      intros Hin; repeat (apply elem_of_cons in Hin as [Hin|Hin]; [try discriminate|]);
      try (inversion Hin; fail).
    injection Hin as ->. cbn in Hreq. injection Hreq as <-. cbn.
    repeat split. apply uuid_toString_nonempty.
  - (* connected *)
    revert Hin. unfold handle, onConnected. exec. cbn.
    intros Hin. apply list_elem_of_singleton in Hin. injection Hin as ->.
    cbn in Hreq. injection Hreq as <-. repeat split. apply uuid_toString_nonempty.
  - (* the topics timer *)
    revert Hin. unfold handle. exec.
    destruct (_topics_timer c); exec; [|intros Hin; inversion Hin].
    unfold requestTopics. exec.
    destruct (socket_connected c) eqn:Hs; cbn [negb]; exec; [|intros Hin; inversion Hin].
    destruct (_running c); cbn [negb orb]; exec; [|intros Hin; inversion Hin].
    destruct (bool_decide (mode (_state c) = GetTopics)) eqn:Hd; cbn [negb orb]; exec;
      [|intros Hin; inversion Hin].
    apply bool_decide_eq_true in Hd.
    destruct (req_in_flight (_state c)); exec; [intros Hin; inversion Hin|].
    cbn [socket_connected set_pending_request_id set_pending_mode set_pending
         set_req_in_flight set_mode set_state]. rewrite Hs. cbn.
    intros Hin. apply list_elem_of_singleton in Hin. injection Hin as ->.
    cbn in Hreq. injection Hreq as <-.
    repeat split; first [exact Hd | apply uuid_toString_nonempty].
Qed.

(** X25. The heartbeat belongs to the data phase.  A [heartbeat] command is
    sent only by the heartbeat timer, while the client runs in mode
    [Data] with the socket connected, and sending it changes no member. *)
Theorem heartbeat_only_in_data (e : Event) (c : Client) (obj : JsonObject) :
  SendTextMessage obj ∈ snd (step e c) ->
  toString (value obj "command") EmptyString = "heartbeat" ->
  (exists uuid, e = EvHeartbeatTimer uuid)
  /\ _heartbeat_timer c = true /\ socket_connected c = true
  /\ _running c = true /\ mode (_state c) = Data
  /\ fst (step e c) = c.
Proof.
  rewrite step_state_effects. cbn [fst snd]. intros Hin Hcmd.
  assert (Hother : emits (fun e => match e with
                                   | SendTextMessage o =>
                                       toString (value o "command") EmptyString <> "heartbeat"
                                   | _ => True
                                   end) (handle e) -> False).
  { intros Hem. specialize (Hem c). rewrite Forall_forall in Hem.
    specialize (Hem _ Hin). cbn in Hem. congruence. }
  destruct e;
    try solve [exfalso; apply Hother;
               unfold handle; apply emits_bind; [apply emits_get|intros c0];
               emits_handlers ltac:(first [exact I | cbn; discriminate])].
  revert Hin. unfold handle. exec.
  destruct (_heartbeat_timer c); exec; [|intros Hin; inversion Hin].
  unfold sendHeartBeat. exec.
  destruct (socket_connected c) eqn:Hs; cbn [negb orb]; exec; [|intros Hin; inversion Hin].
  destruct (_running c); cbn [negb orb]; exec; [|intros Hin; inversion Hin].
  destruct (bool_decide (mode (_state c) = Data)) eqn:Hd; cbn [negb orb]; exec;
    [|intros Hin; inversion Hin].
  apply bool_decide_eq_true in Hd. intros _. eauto 10.
Qed.

(* --------------------------------------------------------------------- *)
(** ** Binary frames                                                      *)
(* --------------------------------------------------------------------- *)

(** X26. Frames that are dropped at the door.  A binary frame that arrives
    while the client does not run, or that has no byte after the 16 bytes
    of the header, or whose magic is not [PJRB], or whose flags are not 0,
    changes no member of the client and reaches no parser: at most a
    warning is logged. *)
Theorem binary_frame_rejected (message : bytes) (c : Client) :
  _running c = false
  \/ length message <= 16
  \/ header_field 0 message <> PJRB_MAGIC
  \/ header_field 3 message <> 0%Z ->
  exists es,
    onBinaryMessageReceived message c = (tt, c, es)
    /\ (es = []
        \/ es = [QWarning (BadMagic (header_field 0 message))]
        \/ es = [QWarning (BadFlag (header_field 3 message))]).
Proof.
  intros H. unfold onBinaryMessageReceived. rewrite run_get.
  destruct (_running c); cbn [negb]; [|eexists; split; [reflexivity|auto]].
  destruct (Nat.ltb_spec (length message) 16) as [|Hlen];
    [eexists; split; [reflexivity|auto]|].
  destruct (read_header message) as (-> & -> & -> & ->); [lia|].
  destruct (Z.eqb_spec (header_field 0 message) PJRB_MAGIC) as [Hm|Hm]; cbn [negb];
    [|eexists; split; [reflexivity|auto]].
  destruct (Z.eqb_spec (header_field 3 message) 0) as [Hf|Hf]; cbn [negb];
    [|eexists; split; [reflexivity|auto]].
  cbv zeta.
  destruct (Nat.eqb_spec (length message - 16) 0) as [|Hn];
    [eexists; split; [reflexivity|auto]|].
  exfalso. destruct H as [H|[H|[H|H]]]; (discriminate || lia || contradiction).
Qed.

(** X27. A well-formed frame is delivered.  For a frame received while the
    client runs, with the magic [PJRB], flags 0, an uncompressed size that
    covers the content, and a content made of as many blocks as the header
    announces: every block is handed, in order, to [onRos2CdrMessage],
    nothing is logged, and [dataReceived] is emitted once, at the end. *)
Theorem frame_delivered (blocks : list Block) (message : bytes) (c : Client) :
  _running c = true ->
  16 < length message ->
  header_field 0 message = PJRB_MAGIC ->
  header_field 3 message = 0%Z ->
  zstd_content (drop 16 message) = Some (payload_of blocks) ->
  Forall fits blocks ->
  header_field 1 message = Z.of_nat (length blocks) ->
  (Z.of_nat (length blocks) < 2 ^ 32)%Z ->
  (Z.of_nat (length (payload_of blocks)) <= header_field 2 message < 2 ^ 31)%Z ->
  onBinaryMessageReceived message c = (deliver blocks;; emit DataReceived) c.
Proof.
  intros Hrun Hlen Hmagic Hflags Hz Hfit Hcount Hsmall Hsize.
  unfold onBinaryMessageReceived. rewrite run_get, Hrun. cbn [negb].
  destruct (Nat.ltb_spec (length message) 16); [lia|].
  destruct (read_header message) as (-> & -> & -> & ->); [lia|].
  rewrite Hmagic, Hflags. cbn [Z.eqb negb]. rewrite Z.eqb_refl. cbn [negb].
  destruct (Nat.eqb_spec (length message - 16) 0); [lia|]. cbv zeta.
  unfold ZSTD_decompress, resize_capacity. rewrite Hz.
  destruct (Z.ltb_spec (header_field 2 message) (2 ^ 31)); [|lia].
  destruct (Nat.leb_spec (length (payload_of blocks))
                         (Z.to_nat (Z.max 0 (header_field 2 message)))); [|lia].
  rewrite Hcount.
  unfold mbind at 1. unfold M_bind at 1.
  rewrite count_match_delivers by assumption.
  unfold mbind, M_bind. destruct (deliver blocks c) as [[[] c1] e1].
  cbn. now rewrite !app_nil_r.
Qed.

Lemma deliver_no_parsers blocks c :
  _parsers_topic c = ∅ -> deliver blocks c = (tt, c, []).
Proof.
  intros Hp. unfold deliver. induction blocks as [|b blocks IH]; [reflexivity|].
  cbn [for_each].
  assert (E : onRos2CdrMessage (fromUtf8 (topic_name b)) (log_time_ns b) (message_bytes b) c
              = (tt, c, [])).
  { unfold onRos2CdrMessage. rewrite run_get, Hp, lookup_empty. reflexivity. }
  unfold mbind, M_bind. rewrite E, IH. reflexivity.
Qed.

(** The effects that are calls of a parser. *)
Definition parser_calls (es : list Effect) : list Effect :=
  List.filter (fun e => match e with ParseMessage _ _ _ => true | _ => false end) es.

(** X28. A parser that throws stops the client.  When the parser of the first
    block of a payload throws, the client is shut down on the spot: it no
    longer runs, its mode is [Close], its parsers are gone, the socket is
    closed and [closed] is emitted; the loop goes on over the rest of the
    payload, but finds no parser any more: the failing call is the only
    parser call of the frame. *)
Theorem parser_exception_stops_client
        (b : Block) (rest : list Block) (expected_count : Z) (parser : Parser) (c : Client) :
  _running c = true ->
  _parsers_topic c !! fromUtf8 (topic_name b) = Some parser ->
  parseMessage parser (message_bytes b) (log_time_ns b) = false ->
  Forall fits (b :: rest) ->
  (Z.of_nat (length (b :: rest)) < 2 ^ 32)%Z ->
  let r := parseDecompressedPayload (payload_of (b :: rest)) expected_count c in
  _running (state_of r) = false
  /\ mode (_state (state_of r)) = Close
  /\ _parsers_topic (state_of r) = ∅
  /\ socket_connected (state_of r) = false
  /\ parser_calls (effects_of r)
     = [ParseMessage (fromUtf8 (topic_name b)) (log_time_ns b) (message_bytes b)]
  /\ SocketAbortClose ∈ effects_of r
  /\ Closed ∈ effects_of r.
Proof.
  intros Hrun Hp Hthrow Hfit Hlen. cbv zeta.
  unfold parseDecompressedPayload.
  assert (Hpb : parse_blocks (length (payload_of (b :: rest))) (payload_of (b :: rest)) 0 c
                = (deliver (b :: rest);;
                   mret (Some ((0 + Z.of_nat (length (b :: rest))) mod 2 ^ 32)%Z)) c).
  { apply parse_blocks_payload; [assumption|apply length_payload_of|lia]. }
  pose (first := onRos2CdrMessage (fromUtf8 (topic_name b)) (log_time_ns b) (message_bytes b) c).
  assert (Hfirst : state_of first = state_of (shutdown c)
                   /\ effects_of first
                      = ParseMessage (fromUtf8 (topic_name b)) (log_time_ns b) (message_bytes b)
                        :: MessageBox "Problem parsing the message. WebSocket Client will be stopped."
                        :: effects_of (shutdown c) ++ [Closed]).
  { subst first. unfold onRos2CdrMessage. exec. rewrite Hp. exec. rewrite Hthrow. exec.
    split; reflexivity. }
  assert (Hshut : _running (state_of (shutdown c)) = false
                  /\ mode (_state (state_of (shutdown c))) = Close
                  /\ _parsers_topic (state_of (shutdown c)) = ∅
                  /\ socket_connected (state_of (shutdown c)) = false
                  /\ parser_calls (effects_of (shutdown c)) = []
                  /\ SocketAbortClose ∈ effects_of (shutdown c)).
  { unfold shutdown, resetState. exec. rewrite Hrun. cbn [negb]. exec.
    rewrite state_when. exec.
    match goal with |- context [when ?b _] => destruct b end; cbn;
      repeat split; repeat constructor. }
  destruct Hfirst as [Hs1 He1]. destruct Hshut as (S1 & S2 & S3 & S4 & S5 & S6).
  assert (Hdel : state_of (deliver (b :: rest) c) = state_of first
                 /\ effects_of (deliver (b :: rest) c) = effects_of first).
  { unfold deliver. cbn [for_each]. fold (deliver rest).
    rewrite state_bind, effects_bind.
    change (onRos2CdrMessage (fromUtf8 (topic_name b)) (log_time_ns b) (message_bytes b) c)
      with first.
    rewrite (deliver_no_parsers rest (state_of first)) by (rewrite Hs1; exact S3).
    unfold state_of, effects_of. cbn [fst snd]. now rewrite app_nil_r. }
  destruct Hdel as [Hd1 Hd2].
  rewrite state_bind, effects_bind, Hpb.
  rewrite !state_bind, !effects_bind, !value_bind.
  rewrite Hd1, Hd2, Hs1, He1. exec.
  destruct (negb _); exec; cbn [app]; rewrite ?app_nil_r;
    (split; [assumption|]); (split; [assumption|]); (split; [assumption|]);
    (split; [assumption|]); (split; [|split]).
  all: try (unfold parser_calls in S5 |- *; cbn [List.filter];
            rewrite ?List.filter_app, S5; reflexivity).
  all: rewrite ?elem_of_cons, ?elem_of_app, ?elem_of_cons; auto 10.
Qed.

End Client.

(* --------------------------------------------------------------------- *)
(** ** A concrete client, to run the state machine on examples           *)
(* --------------------------------------------------------------------- *)

(** Parsers that accept every message, a factory for every encoding, topic
    names in ASCII. *)
Definition accept_all (p : unit) (cdr : bytes) (ts_ns : Z) : bool := true.
Definition any_encoding (encoding : QString) : bool := true.
Definition make_parser (encoding topic schema definition : QString) : option unit := Some tt.
Definition fromUtf8_ascii (bs : bytes) : QString :=
  string_of_list_ascii (map ascii_of_byte bs).

(** The smallest Zstandard frames (RFC 8878): magic number [28 B5 2F FD],
    frame header descriptor [20] (single segment, one-byte content size),
    the content size, then one last raw block (3-byte header
    [size * 8 + 1]) holding the content as it is.  Every other input is
    taken as corrupt here; the examples below use only such frames. *)
Definition zstd_raw_content (src : bytes) : option bytes :=
  match src with
  | m0 :: m1 :: m2 :: m3 :: fhd :: fcs :: h0 :: h1 :: h2 :: content =>
      if (le_value [m0; m1; m2; m3] =? 0xFD2FB528)%Z
         && (le_value [fhd] =? 0x20)%Z
         && (le_value [h0; h1; h2] =? 8 * le_value [fcs] + 1)%Z
         && (Z.of_nat (length content) =? le_value [fcs])%Z
      then Some content else None
  | _ => None
  end.

Abbreviation Client0 := (Client unit) (only parsing).

Abbreviation step0 :=
  (step unit accept_all any_encoding make_parser fromUtf8_ascii zstd_raw_content)
  (only parsing).

Definition run0 (events : list Event) : Client0 :=
  fold_left (fun c e => fst (step0 e c)) events (initial unit).

Lemma run0_reachable events :
  reachable unit accept_all any_encoding make_parser fromUtf8_ascii zstd_raw_content
            (run0 events).
Proof.
  unfold run0. generalize (initial unit) (reachable_initial unit accept_all any_encoding
    make_parser fromUtf8_ascii zstd_raw_content).
  induction events as [|e events IH]; intros c Hc; cbn [fold_left]; [exact Hc|].
  apply IH. apply (reachable_step _ _ _ _ _ _ e c Hc).
Qed.

Definition reply (uuid : N) (body : list (string * Json)) : option Json :=
  Some (JObject ([("protocol_version", JNumber (Some 1%Z));
                  ("id", JString (uuid_toString uuid));
                  ("status", JString "success")] ++ body)).

(** Connect, and receive the topic list: mode [GetTopics], nothing in
    flight. *)
Definition to_topics : list Event :=
  [ EvStart;
    EvDialogAccepted 0 (Some 9871%Z) "127.0.0.1" [];
    EvConnected 1;
    EvTextMessage
      (reply 1 [("topics", JArray [JObject [("name", JString "/a");
                                            ("type", JString "std_msgs/msg/Float64")]])]) ].

(** Then subscribe to [/a] and receive its schema: mode [Data], with a
    parser registered for [/a]. *)
Definition to_data : list Event :=
  to_topics ++
  [ EvDialogAccepted 3 None EmptyString
      [mkTopic "/a" "std_msgs/msg/Float64" EmptyString EmptyString EmptyString];
    EvTextMessage
      (reply 3 [("schemas", JObject [("/a", JObject [("name", JString "std_msgs/msg/Float64");
                                                     ("encoding", JString "cdr");
                                                     ("definition", JString "float64 data")])])]) ].

Example topics_state :
  let c := run0 to_topics in
  (_running unit c, mode (_state unit c), req_in_flight (_state unit c), _topics_timer unit c)
  = (true, GetTopics, false, true).
Proof. vm_compute. reflexivity. Qed.

Example data_state :
  let c := run0 to_data in
  (_running unit c, mode (_state unit c), req_in_flight (_state unit c),
   _heartbeat_timer unit c, _parsers_topic unit c !! "/a")
  = (true, Data, false, true, Some tt).
Proof. vm_compute. reflexivity. Qed.

(** One block for [/a] at 1 s carrying the byte [2a]. *)
Definition block_a : Block :=
  mkBlock [x2f; x61] 1000000000 [x2a].

Example payload_a :
  payload_of [block_a]
  = [x02; x00; x2f; x61; x00; xca; x9a; x3b; x00; x00; x00; x00;
     x01; x00; x00; x00; x2a].
Proof. reflexivity. Qed.

(** A frame around that payload: magic, [message_count], [uncompressed_size],
    flags, then the Zstandard frame. *)
Definition frame_a (message_count uncompressed_size : Z) : bytes :=
  le_bytes 4 PJRB_MAGIC ++ le_bytes 4 message_count ++ le_bytes 4 uncompressed_size
  ++ le_bytes 4 0
  ++ [x28; xb5; x2f; xfd; x20; x11; x89; x00; x00] ++ payload_of [block_a].

Example frame_a_bytes :
  take 16 (frame_a 1 17)
  = [x50; x4a; x52; x42; x01; x00; x00; x00; x11; x00; x00; x00; x00; x00; x00; x00]
  /\ zstd_raw_content (drop 16 (frame_a 1 17)) = Some (payload_of [block_a]).
Proof. split; reflexivity. Qed.

(** A well-formed frame: the parser of [/a] gets the message, nothing is
    logged. *)
Example frame_accepted :
  snd (step0 (EvBinaryMessage (frame_a 1 17)) (run0 to_data))
  = [ParseMessage "/a" 1000000000 [x2a]; DataReceived].
Proof. vm_compute. reflexivity. Qed.

(** No parser is invoked. *)
Definition no_parser_invoked (effects : list Effect) : Prop :=
  forall topic ts cdr, ParseMessage topic ts cdr ∉ effects.



(** C2, counterexample.  The header announces 100 uncompressed bytes, the
    content has 17: the frame is not rejected, its block is parsed and the
    parser of [/a] is invoked. *)
Lemma short_content_is_parsed :
  header_field 2 (frame_a 1 100) = 100%Z
  /\ (exists content, zstd_raw_content (drop 16 (frame_a 1 100)) = Some content
                      /\ length content = 17)
  /\ snd (step0 (EvBinaryMessage (frame_a 1 100)) (run0 to_data))
     = [ParseMessage "/a" 1000000000 [x2a]; DataReceived]
  /\ ~ no_parser_invoked (snd (step0 (EvBinaryMessage (frame_a 1 100)) (run0 to_data))).
Proof.
  assert (E : snd (step0 (EvBinaryMessage (frame_a 1 100)) (run0 to_data))
              = [ParseMessage "/a" 1000000000 [x2a]; DataReceived])
    by (vm_compute; reflexivity).
  split; [reflexivity|]. split; [eexists; split; reflexivity|]. split; [exact E|].
  intros H. apply (H "/a" 1000000000%Z [x2a]). rewrite E. apply list_elem_of_here.
Qed.

Lemma size_mismatch_rejected_only_when_larger_witness :
  let c := run0 to_data in
  let message := frame_a 1 100 in
  (_running unit c = true /\ 16 < length message
   /\ header_field 0 message = PJRB_MAGIC /\ header_field 3 message = 0%Z)
  /\ match zstd_raw_content (drop 16 message) with
     | None =>
         onBinaryMessageReceived unit accept_all fromUtf8_ascii zstd_raw_content message c
         = (tt, c, [QWarning ZstdError])
     | Some content =>
         ((header_field 2 message < Z.of_nat (length content))%Z ->
          onBinaryMessageReceived unit accept_all fromUtf8_ascii zstd_raw_content message c
          = (tt, c, [QWarning ZstdError]))
         /\ ((Z.of_nat (length content) <= header_field 2 message < 2 ^ 31)%Z ->
             onBinaryMessageReceived unit accept_all fromUtf8_ascii zstd_raw_content message c
             = (_ ← parseDecompressedPayload unit accept_all fromUtf8_ascii content
                      (header_field 1 message);
                emit unit DataReceived) c)
     end.
Proof.
  cbv zeta.
  assert (Hrun : _running unit (run0 to_data) = true) by (vm_compute; reflexivity).
  assert (Hlen : 16 < length (frame_a 1 100)) by (apply Nat.ltb_lt; reflexivity).
  split; [repeat split; try reflexivity; assumption|].
  exact (size_mismatch_rejected_only_when_larger unit accept_all fromUtf8_ascii
           zstd_raw_content (run0 to_data) (frame_a 1 100)
           Hrun Hlen eq_refl eq_refl).
Defined.

(** C6, counterexample.  After the topic list has arrived the mode is
    [GetTopics] and nothing is in flight; the Pause action then sends
    [pause]. *)
Lemma pause_sent_in_GetTopics :
  ~ (forall (c : Client0) (e : Event),
       reachable unit accept_all any_encoding make_parser fromUtf8_ascii zstd_raw_content c ->
       sends_pause_or_resume (snd (step0 e c)) = true ->
       mode (_state unit c) = Data /\ req_in_flight (_state unit c) = false).
Proof.
  intros H.
  destruct (H (run0 to_topics) (EvActionTriggered 2) (run0_reachable to_topics))
    as [Hmode _]; [vm_compute; reflexivity|].
  vm_compute in Hmode. discriminate.
Qed.

Example pause_command_sent :
  snd (step0 (EvActionTriggered 2) (run0 to_topics))
  = [SendTextMessage [("command", JString "pause");
                      ("id", JString "00000000-0000-0000-0000-000000000002");
                      ("protocol_version", JNumber (Some 1%Z))]].
Proof. vm_compute. reflexivity. Qed.

(** The same in mode [Subscribe]: the server answers the subscription
    with an error, which ends the request and leaves the mode as it is;
    the Pause action then sends [pause]. *)
Definition subscribe_refused : list Event :=
  to_topics ++
  [ EvDialogAccepted 3 None EmptyString
      [mkTopic "/a" "std_msgs/msg/Float64" EmptyString EmptyString EmptyString];
    EvTextMessage
      (Some (JObject [("protocol_version", JNumber (Some 1%Z));
                      ("id", JString (uuid_toString 3));
                      ("status", JString "error");
                      ("message", JString "unknown topic")])) ].

Example pause_sent_in_Subscribe :
  let c := run0 subscribe_refused in
  (_running unit c, mode (_state unit c), req_in_flight (_state unit c))
  = (true, Subscribe, false)
  /\ sends_pause_or_resume (snd (step0 (EvActionTriggered 4) c)) = true.
Proof. vm_compute. split; reflexivity. Qed.

Lemma pause_resume_only_when_running_and_idle_witness :
  let c := run0 to_topics in
  (reachable unit accept_all any_encoding make_parser fromUtf8_ascii zstd_raw_content c
   /\ sends_pause_or_resume (snd (step0 (EvActionTriggered 2) c)) = true)
  /\ _running unit c = true
  /\ req_in_flight (_state unit c) = false
  /\ mode (_state unit c) <> Close.
Proof.
  cbv zeta.
  assert (Hs : sends_pause_or_resume (snd (step0 (EvActionTriggered 2) (run0 to_topics))) = true)
    by (vm_compute; reflexivity).
  split; [split; [apply run0_reachable|exact Hs]|].
  exact (pause_resume_only_when_running_and_idle unit accept_all any_encoding make_parser
           fromUtf8_ascii zstd_raw_content (run0 to_topics) (EvActionTriggered 2)
           (run0_reachable to_topics) Hs).
Defined.

(** While the first [get_topics] is in flight, a reply with another id. *)
Definition stray_reply : list (string * Json) :=
  [("protocol_version", JNumber (Some 1%Z));
   ("id", JString "00000000-0000-0000-0000-0000000000ff");
   ("status", JString "success");
   ("topics", JArray [])].

Lemma text_reply_with_other_id_dropped_witness :
  let c := run0 [EvStart; EvDialogAccepted 0 (Some 9871%Z) "127.0.0.1" []; EvConnected 1] in
  (req_in_flight (_state unit c) = true
   /\ toString (value stray_reply "id") EmptyString <> _pending_request_id unit c)
  /\ step0 (EvTextMessage (Some (JObject stray_reply))) c = (c, []).
Proof.
  cbv zeta.
  set (c := run0 [EvStart; EvDialogAccepted 0 (Some 9871%Z) "127.0.0.1" []; EvConnected 1]).
  assert (Hf : req_in_flight (_state unit c) = true) by (vm_compute; reflexivity).
  assert (Hid : toString (value stray_reply "id") EmptyString <> _pending_request_id unit c)
    by (apply String.eqb_neq; vm_compute; reflexivity).
  split; [split; assumption|].
  exact (text_reply_with_other_id_dropped unit accept_all any_encoding make_parser
           fromUtf8_ascii zstd_raw_content c stray_reply Hf Hid).
Defined.

(* --------------------------------------------------------------------- *)
(** ** The further properties, on the concrete client                     *)
(* --------------------------------------------------------------------- *)

(** The transport drops the connection without a signal while data is
    streaming; the heartbeat timer then fires. *)
Definition silently_dropped : list Event := to_data ++ [EvSocketState false].

Example silently_dropped_state :
  let c := run0 silently_dropped in
  (_running unit c, mode (_state unit c), _heartbeat_timer unit c, socket_connected unit c)
  = (true, Data, true, false).
Proof. vm_compute. reflexivity. Qed.

Lemma nothing_sent_when_disconnected_witness :
  let c := run0 silently_dropped in
  (socket_connected unit c = false /\ forall uuid, EvHeartbeatTimer 9 <> EvConnected uuid)
  /\ Forall no_send (snd (step0 (EvHeartbeatTimer 9) c)).
Proof.
  cbv zeta.
  assert (Hs : socket_connected unit (run0 silently_dropped) = false)
    by (vm_compute; reflexivity).
  assert (He : forall uuid, EvHeartbeatTimer 9 <> EvConnected uuid)
    by (intros uuid; discriminate).
  split; [split; assumption|].
  exact (nothing_sent_when_disconnected unit accept_all any_encoding make_parser
           fromUtf8_ascii zstd_raw_content (EvHeartbeatTimer 9) (run0 silently_dropped)
           Hs He).
Defined.

(** A request in flight without an id: the topic list is shown, the
    transport drops the connection without a signal, and the dialog is
    accepted with [/a] selected.  [sendCommand] sends nothing and returns
    no id, and the request counts as in flight all the same. *)
Definition subscribed_offline : list Event :=
  to_topics ++
  [ EvSocketState false;
    EvDialogAccepted 3 None EmptyString
      [mkTopic "/a" "std_msgs/msg/Float64" EmptyString EmptyString EmptyString] ].

Example in_flight_without_id :
  let c := run0 subscribed_offline in
  (_running unit c, mode (_state unit c), req_in_flight (_state unit c),
   _pending_mode unit c, _pending_request_id unit c, socket_connected unit c)
  = (true, Subscribe, true, Subscribe, EmptyString, false).
Proof. vm_compute. reflexivity. Qed.

Lemma reachable_consistent_witness :
  reachable unit accept_all any_encoding make_parser fromUtf8_ascii zstd_raw_content
            (run0 to_data)
  /\ consistent unit (run0 to_data).
Proof.
  split; [apply run0_reachable|].
  exact (reachable_consistent unit accept_all any_encoding make_parser fromUtf8_ascii
           zstd_raw_content (run0 to_data) (run0_reachable to_data)).
Defined.

(** The request that goes out when the socket connects. *)
Definition get_topics_1 : list (string * Json) :=
  [("command", JString "get_topics");
   ("id", JString "00000000-0000-0000-0000-000000000001");
   ("protocol_version", JNumber (Some 1%Z))].

Definition dialog_accepted : list Event :=
  [EvStart; EvDialogAccepted 0 (Some 9871%Z) "127.0.0.1" []].

Lemma requests_are_tracked_witness :
  let c := run0 dialog_accepted in
  let c' := fst (step0 (EvConnected 1) c) in
  (SendTextMessage get_topics_1 ∈ snd (step0 (EvConnected 1) c)
   /\ request_of get_topics_1 = Some GetTopics)
  /\ req_in_flight (_state unit c') = true
  /\ mode (_state unit c') = GetTopics
  /\ _pending_mode unit c' = GetTopics
  /\ _pending_request_id unit c' = toString (value get_topics_1 "id") EmptyString
  /\ _pending_request_id unit c' <> EmptyString.
Proof.
  cbv zeta.
  assert (E : snd (step0 (EvConnected 1) (run0 dialog_accepted))
              = [SendTextMessage get_topics_1]) by (vm_compute; reflexivity).
  assert (Hin : SendTextMessage get_topics_1 ∈ snd (step0 (EvConnected 1) (run0 dialog_accepted)))
    by (rewrite E; apply list_elem_of_here).
  split; [split; [exact Hin|reflexivity]|].
  exact (requests_are_tracked unit accept_all any_encoding make_parser fromUtf8_ascii
           zstd_raw_content (EvConnected 1) (run0 dialog_accepted) get_topics_1 GetTopics
           Hin eq_refl).
Defined.

Definition heartbeat_9 : list (string * Json) :=
  [("command", JString "heartbeat");
   ("id", JString "00000000-0000-0000-0000-000000000009");
   ("protocol_version", JNumber (Some 1%Z))].

Lemma heartbeat_only_in_data_witness :
  let c := run0 to_data in
  (SendTextMessage heartbeat_9 ∈ snd (step0 (EvHeartbeatTimer 9) c)
   /\ toString (value heartbeat_9 "command") EmptyString = "heartbeat")
  /\ (exists uuid, EvHeartbeatTimer 9 = EvHeartbeatTimer uuid)
  /\ _heartbeat_timer unit c = true /\ socket_connected unit c = true
  /\ _running unit c = true /\ mode (_state unit c) = Data
  /\ fst (step0 (EvHeartbeatTimer 9) c) = c.
Proof.
  cbv zeta.
  assert (E : snd (step0 (EvHeartbeatTimer 9) (run0 to_data))
              = [SendTextMessage heartbeat_9]) by (vm_compute; reflexivity).
  assert (Hin : SendTextMessage heartbeat_9 ∈ snd (step0 (EvHeartbeatTimer 9) (run0 to_data)))
    by (rewrite E; apply list_elem_of_here).
  split; [split; [exact Hin|reflexivity]|].
  exact (heartbeat_only_in_data unit accept_all any_encoding make_parser fromUtf8_ascii
           zstd_raw_content (EvHeartbeatTimer 9) (run0 to_data) heartbeat_9 Hin eq_refl).
Defined.

(** A frame whose magic is not [PJRB]. *)
Definition frame_bad_magic : bytes :=
  le_bytes 4 0x12345678 ++ drop 4 (frame_a 1 17).

Lemma binary_frame_rejected_witness :
  let c := run0 to_data in
  (_running unit c = false
   \/ length frame_bad_magic <= 16
   \/ header_field 0 frame_bad_magic <> PJRB_MAGIC
   \/ header_field 3 frame_bad_magic <> 0%Z)
  /\ exists es,
       onBinaryMessageReceived unit accept_all fromUtf8_ascii zstd_raw_content
                               frame_bad_magic c = (tt, c, es)
       /\ (es = []
           \/ es = [QWarning (BadMagic (header_field 0 frame_bad_magic))]
           \/ es = [QWarning (BadFlag (header_field 3 frame_bad_magic))]).
Proof.
  cbv zeta.
  assert (H : _running unit (run0 to_data) = false
              \/ length frame_bad_magic <= 16
              \/ header_field 0 frame_bad_magic <> PJRB_MAGIC
              \/ header_field 3 frame_bad_magic <> 0%Z).
  { right. right. left. vm_compute. discriminate. }
  split; [exact H|].
  exact (binary_frame_rejected unit accept_all fromUtf8_ascii zstd_raw_content
           frame_bad_magic (run0 to_data) H).
Defined.

Example bad_magic_warns :
  snd (step0 (EvBinaryMessage frame_bad_magic) (run0 to_data))
  = [QWarning (BadMagic 0x12345678)].
Proof. vm_compute. reflexivity. Qed.

Lemma block_a_fits : Forall fits [block_a].
Proof. repeat constructor; cbn; lia. Qed.

Lemma frame_delivered_witness :
  let c := run0 to_data in
  let message := frame_a 1 17 in
  (_running unit c = true
   /\ 16 < length message
   /\ header_field 0 message = PJRB_MAGIC
   /\ header_field 3 message = 0%Z
   /\ zstd_raw_content (drop 16 message) = Some (payload_of [block_a])
   /\ Forall fits [block_a]
   /\ header_field 1 message = Z.of_nat (length [block_a])
   /\ (Z.of_nat (length [block_a]) < 2 ^ 32)%Z
   /\ (Z.of_nat (length (payload_of [block_a])) <= header_field 2 message < 2 ^ 31)%Z)
  /\ onBinaryMessageReceived unit accept_all fromUtf8_ascii zstd_raw_content message c
     = (deliver unit accept_all fromUtf8_ascii [block_a];; emit unit DataReceived) c.
Proof.
  cbv zeta.
  assert (H1 : _running unit (run0 to_data) = true) by (vm_compute; reflexivity).
  assert (H2 : 16 < length (frame_a 1 17)) by (apply Nat.ltb_lt; reflexivity).
  assert (H8 : (Z.of_nat (length [block_a]) < 2 ^ 32)%Z) by (cbn; lia).
  assert (H9 : (Z.of_nat (length (payload_of [block_a])) <= header_field 2 (frame_a 1 17)
                < 2 ^ 31)%Z) by (vm_compute; split; [discriminate|reflexivity]).
  split; [repeat split; try reflexivity; try assumption; try apply block_a_fits; apply H9|].
  exact (frame_delivered unit accept_all fromUtf8_ascii zstd_raw_content [block_a]
           (frame_a 1 17) (run0 to_data) H1 H2 eq_refl eq_refl eq_refl block_a_fits
           eq_refl H8 H9).
Defined.

(** A parser that throws on every message. *)
Definition reject_all (p : unit) (cdr : bytes) (ts_ns : Z) : bool := false.

(** The streaming state of [to_data], with such parsers. *)
Definition run_rejecting (events : list Event) : Client0 :=
  fold_left (fun c e => fst (step unit reject_all any_encoding make_parser fromUtf8_ascii
                                  zstd_raw_content e c))
            events (initial unit).

Lemma parser_exception_stops_client_witness :
  let c := run_rejecting to_data in
  let r := parseDecompressedPayload unit reject_all fromUtf8_ascii
                                    (payload_of [block_a; block_a]) 2 c in
  (_running unit c = true
   /\ _parsers_topic unit c !! fromUtf8_ascii (topic_name block_a) = Some tt
   /\ reject_all tt (message_bytes block_a) (log_time_ns block_a) = false
   /\ Forall fits [block_a; block_a]
   /\ (Z.of_nat (length [block_a; block_a]) < 2 ^ 32)%Z)
  /\ _running unit (state_of unit r) = false
  /\ mode (_state unit (state_of unit r)) = Close
  /\ _parsers_topic unit (state_of unit r) = ∅
  /\ socket_connected unit (state_of unit r) = false
  /\ parser_calls (effects_of unit r)
     = [ParseMessage (fromUtf8_ascii (topic_name block_a)) (log_time_ns block_a)
                     (message_bytes block_a)]
  /\ SocketAbortClose ∈ effects_of unit r
  /\ Closed ∈ effects_of unit r.
Proof.
  cbv zeta.
  assert (H1 : _running unit (run_rejecting to_data) = true) by (vm_compute; reflexivity).
  assert (H2 : _parsers_topic unit (run_rejecting to_data)
               !! fromUtf8_ascii (topic_name block_a) = Some tt)
    by (vm_compute; reflexivity).
  assert (H4 : Forall fits [block_a; block_a]) by (repeat constructor; cbn; lia).
  assert (H5 : (Z.of_nat (length [block_a; block_a]) < 2 ^ 32)%Z) by (cbn; lia).
  split; [repeat split; try reflexivity; try assumption; apply H4|].
  exact (parser_exception_stops_client unit reject_all fromUtf8_ascii
           block_a [block_a] 2 tt (run_rejecting to_data) H1 H2 eq_refl H4 H5).
Defined.

End Ws.

(* ===================================================================== *)
(** * The persisted configuration (websocket_client_config.cpp)           *)
(* ===================================================================== *)

Module WsConfig.

Abbreviation QString := string (only parsing).

Definition isEmpty (s : QString) : bool :=
  match s with EmptyString => true | _ => false end.

(** The persisted fields of [WebsocketClientConfig]. *)
Record WebsocketClientConfig := mkConfig {
  address : QString;
  port : Z;
  topics : list QString
}.

(* --------------------------------------------------------------------- *)
(** ** The DOM, as far as the configuration uses it                       *)
(* --------------------------------------------------------------------- *)

(** A [QDomElement] is a handle on a node that the document owns: setting
    an attribute through a handle changes the node wherever it hangs.  The
    document is therefore a store of nodes; a handle is the position of
    its node and the null element is [None]. *)
Record Node := mkNode {
  tagName : QString;
  attributes : list (QString * QString);
  childNodes : list nat
}.

Abbreviation QDomDocument := (list Node) (only parsing).
Abbreviation QDomElement := (option nat) (only parsing).

(** [doc.createElement(tag)]: a new node without attributes, children or
    parent. *)
Definition createElement (tag : QString) (doc : QDomDocument) : nat * QDomDocument :=
  (length doc, doc ++ [mkNode tag [] []]).

Definition without_child (child : nat) (n : Node) : Node :=
  mkNode (tagName n) (attributes n)
         (List.filter (fun k => negb (Nat.eqb k child)) (childNodes n)).

Definition with_child (child : nat) (n : Node) : Node :=
  mkNode (tagName n) (attributes n) (childNodes n ++ [child]).

(** [parent.appendChild(child)]: the child is taken from the parent it
    had, if any, and becomes the last child of [parent]; on a null
    element nothing happens. *)
Definition appendChild (parent : QDomElement) (child : nat) (doc : QDomDocument)
  : QDomDocument :=
  match parent with
  | None => doc
  | Some p =>
      if Nat.ltb p (length doc)
      then alter (with_child child) p (map (without_child child) doc)
      else doc
  end.

(** An attribute that is set replaces the one of the same name. *)
Fixpoint set_attribute (attrs : list (QString * QString)) (name value : QString)
  : list (QString * QString) :=
  match attrs with
  | [] => [(name, value)]
  | (k, v) :: rest =>
      if String.eqb k name then (k, value) :: rest
      else (k, v) :: set_attribute rest name value
  end.

Fixpoint get_attribute (attrs : list (QString * QString)) (name : QString)
  : option QString :=
  match attrs with
  | [] => None
  | (k, v) :: rest => if String.eqb k name then Some v else get_attribute rest name
  end.

(** [elem.setAttribute(name, value)]. *)
Definition setAttribute (elem : nat) (name value : QString) (doc : QDomDocument)
  : QDomDocument :=
  alter (fun n => mkNode (tagName n) (set_attribute (attributes n) name value)
                         (childNodes n)) elem doc.

(** [elem.attribute(name, defValue)]. *)
Definition attribute (elem : nat) (name defValue : QString) (doc : QDomDocument)
  : QString :=
  match doc !! elem with
  | Some n => default defValue (get_attribute (attributes n) name)
  | None => defValue
  end.

Definition has_tag (tag : QString) (doc : QDomDocument) (k : nat) : bool :=
  match doc !! k with
  | Some n => String.eqb (tagName n) tag
  | None => false
  end.

(** The child elements of an element, in document order; a null element
    has none. *)
Definition children_of (elem : QDomElement) (doc : QDomDocument) : list nat :=
  match elem with
  | Some e => match doc !! e with Some n => childNodes n | None => [] end
  | None => []
  end.

(** [elem.firstChildElement(tag)]: the first child with that tag name, or
    the null element. *)
Definition firstChildElement (tag : QString) (elem : QDomElement) (doc : QDomDocument)
  : QDomElement :=
  List.find (has_tag tag doc) (children_of elem doc).

Section Persistence.

(** [QString::number(int)], which [setAttribute(name, int)] stores, and
    [QString::toInt()], which gives 0 when the text is not a number. *)
Variable number : Z -> QString.
Variable toInt : QString -> Z.

(* --------------------------------------------------------------------- *)
(** ** xmlSaveState, xmlLoadState                                         *)
(* --------------------------------------------------------------------- *)

(** The body of the [for] loop of [xmlSaveState]. *)
Definition save_topic (topics_elem : nat) (doc : QDomDocument) (topic : QString)
  : QDomDocument :=
  let (t, doc) := createElement "topic" doc in
  let doc := setAttribute t "name" topic doc in
  appendChild (Some topics_elem) t doc.

(** [void xmlSaveState(QDomDocument& doc, QDomElement& plugin_elem) const]. *)
Definition xmlSaveState (self : WebsocketClientConfig) (plugin_elem : QDomElement)
           (doc : QDomDocument) : QDomDocument :=
  let (cfg, doc) := createElement "websocket_client" doc in
  let doc := appendChild plugin_elem cfg doc in
  let doc := setAttribute cfg "address" (address self) doc in
  let doc := setAttribute cfg "port" (number (port self)) doc in
  let (topics_elem, doc) := createElement "topics" doc in
  let doc := appendChild (Some cfg) topics_elem doc in
  fold_left (save_topic topics_elem) (topics self) doc.

(** The loop [for (t = topics_elem.firstChildElement("topic"); !t.isNull();
    t = t.nextSiblingElement("topic"))]: it visits the children with tag
    [topic] in document order; [siblings] is what is left to look at. *)
Fixpoint load_topics (doc : QDomDocument) (siblings : list nat) (topics : list QString)
  : list QString :=
  match siblings with
  | [] => topics
  | t :: rest =>
      if has_tag "topic" doc t
      then
        let name := attribute t "name" EmptyString doc in
        load_topics doc rest (if negb (isEmpty name) then topics ++ [name] else topics)
      else load_topics doc rest topics
  end.

(** [void xmlLoadState(const QDomElement& parent_element)]. *)
Definition xmlLoadState (parent_element : QDomElement) (doc : QDomDocument)
           (self : WebsocketClientConfig) : WebsocketClientConfig :=
  match firstChildElement "websocket_client" parent_element doc with
  | None => self
  | Some cfg =>
      let address := attribute cfg "address" "127.0.0.1" doc in
      let port := toInt (attribute cfg "port" "8080" doc) in
      let topics_elem := firstChildElement "topics" (Some cfg) doc in
      mkConfig address port (load_topics doc (children_of topics_elem doc) [])
  end.

(* --------------------------------------------------------------------- *)
(** ** Saving, then loading                                               *)
(* --------------------------------------------------------------------- *)

(** Every child handle of the document points at a node of it. *)
Definition well_formed (doc : QDomDocument) : Prop :=
  Forall (fun n => Forall (fun k => k < length doc) (childNodes n)) doc.

Lemma without_child_fresh child doc :
  Forall (fun n => Forall (fun k => k <> child) (childNodes n)) doc ->
  map (without_child child) doc = doc.
Proof.
  induction 1 as [|n doc Hn _ IH]; [reflexivity|].
  cbn [map]. rewrite IH. f_equal.
  destruct n as [tag attrs kids]. unfold without_child. cbn in *. f_equal.
  induction Hn as [|k kids Hk _ IHk]; [reflexivity|].
  cbn [List.filter]. destruct (Nat.eqb_spec k child); [contradiction|].
  cbn [negb]. now rewrite IHk.
Qed.

Lemma well_formed_fresh doc extra :
  well_formed doc ->
  Forall (fun n => Forall (fun k => k <> length doc + extra) (childNodes n)) doc.
Proof.
  unfold well_formed. intros H. eapply Forall_impl; [exact H|].
  intros n Hn. eapply Forall_impl; [exact Hn|]. cbn. intros k Hk. lia.
Qed.

(** The node of a topic, and where the loop of [xmlSaveState] puts it. *)
Definition topic_node (topic : QString) : Node := mkNode "topic" [("name", topic)] [].

Lemma save_topics_run (topics0 : list QString) :
  forall (before : QDomDocument) (kids : list nat) (done : list Node),
    Forall (fun n => Forall (fun k => k < length before + 1 + length done) (childNodes n))
           (before ++ done) ->
    Forall (fun k => k < length before + 1 + length done) kids ->
    fold_left (save_topic (length before)) topics0
              (before ++ mkNode "topics" [] kids :: done)
    = before
      ++ mkNode "topics" []
                (kids ++ seq (length before + 1 + length done) (length topics0))
      :: done ++ map topic_node topics0.
Proof.
  induction topics0 as [|topic topics0 IH]; intros before kids done Hwf Hkids.
  - cbn. now rewrite !app_nil_r.
  - cbn [fold_left]. unfold save_topic at 2. unfold createElement.
    set (doc := before ++ mkNode "topics" [] kids :: done).
    assert (Hlen : length doc = length before + 1 + length done).
    { unfold doc. rewrite length_app. cbn [length]. lia. }
    assert (Hset : setAttribute (length doc) "name" topic
                                (doc ++ [mkNode "topic" [] []])
                   = doc ++ [topic_node topic]).
    { unfold setAttribute.
      rewrite alter_app_r_alt, Nat.sub_diag by lia. reflexivity. }
    rewrite Hset. unfold appendChild.
    destruct (Nat.ltb_spec (length before) (length (doc ++ [topic_node topic])))
      as [_|Hge]; [|rewrite length_app, Hlen in Hge; lia].
    rewrite without_child_fresh.
    2:{ rewrite Hlen. unfold doc. rewrite <- app_assoc. cbn [app].
        apply Forall_app in Hwf as [Hb Hd].
        apply Forall_app. split; [|apply Forall_cons; split; [|apply Forall_app; split]].
        - eapply Forall_impl; [exact Hb|]. intros n Hn.
          eapply Forall_impl; [exact Hn|]. cbn. intros. lia.
        - cbn. eapply Forall_impl; [exact Hkids|]. cbn. intros. lia.
        - eapply Forall_impl; [exact Hd|]. intros n Hn.
          eapply Forall_impl; [exact Hn|]. cbn. intros. lia.
        - repeat constructor. }
    rewrite Hlen. unfold doc. rewrite <- app_assoc. cbn [app].
    rewrite alter_app_r_alt, Nat.sub_diag by lia.
    cbn [alter list_alter]. unfold with_child. cbn [tagName attributes childNodes].
    rewrite (IH before (kids ++ [length before + 1 + length done])
                (done ++ [topic_node topic])).
    + rewrite length_app. cbn [length map seq].
      rewrite <- !app_assoc. cbn [app].
      replace (length before + 1 + (length done + 1))
        with (S (length before + 1 + length done)) by lia.
      reflexivity.
    + rewrite length_app. cbn [length]. rewrite app_assoc.
      apply Forall_app. split; [|repeat constructor].
      eapply Forall_impl; [exact Hwf|]. intros n Hn.
      eapply Forall_impl; [exact Hn|]. cbn. intros. lia.
    + rewrite length_app. cbn [length].
      apply Forall_app. split; [|repeat constructor; lia].
      eapply Forall_impl; [exact Hkids|]. cbn. intros. lia.
Qed.

(** The document that [xmlSaveState] leaves. *)
Definition saved (self : WebsocketClientConfig) (p : nat) (doc : QDomDocument)
  : QDomDocument :=
  alter (with_child (length doc)) p doc
  ++ mkNode "websocket_client"
            [("address", address self); ("port", number (port self))]
            [length doc + 1]
  :: mkNode "topics" [] (seq (length doc + 2) (length (topics self)))
  :: map topic_node (topics self).

Lemma xmlSaveState_run self p doc :
  well_formed doc -> p < length doc ->
  xmlSaveState self (Some p) doc = saved self p doc.
Proof.
  intros Hwf Hp. unfold xmlSaveState, createElement, appendChild.
  destruct (Nat.ltb_spec p (length (doc ++ [mkNode "websocket_client" [] []])))
    as [_|Hge]; [|rewrite length_app in Hge; cbn in Hge; lia].
  rewrite without_child_fresh.
  2:{ apply Forall_app. split; [|repeat constructor].
      pose proof (well_formed_fresh doc 0 Hwf) as H.
      now rewrite Nat.add_0_r in H. }
  rewrite alter_app_l by assumption.
  set (doc1 := alter (with_child (length doc)) p doc).
  assert (Hlen1 : length doc1 = length doc) by apply length_alter.
  unfold setAttribute.
  rewrite !alter_app_r_alt, Hlen1, Nat.sub_diag by lia.
  cbn [alter list_alter tagName attributes childNodes set_attribute String.eqb
       Ascii.eqb Bool.eqb].
  rewrite !length_app. cbn [length]. rewrite Hlen1.
  destruct (Nat.ltb_spec (length doc) (length doc + 1 + 1)) as [_|]; [|lia].
  assert (Hwf1 : Forall (fun n => Forall (fun k => k < length doc + 1) (childNodes n)) doc1).
  { unfold doc1. apply Forall_forall. intros n Hn.
    apply list_elem_of_lookup in Hn as [i Hi].
    destruct (decide (i = p)) as [->|Hne].
    - rewrite list_lookup_alter_eq in Hi.
      destruct (doc !! p) as [m|] eqn:Em; [|discriminate]. cbn in Hi.
      injection Hi as <-. cbn. apply Forall_app. split; [|repeat constructor; lia].
      unfold well_formed in Hwf. rewrite Forall_forall in Hwf.
      specialize (Hwf m (list_elem_of_lookup_2 _ _ _ Em)).
      eapply Forall_impl; [exact Hwf|]. cbn. intros. lia.
    - rewrite list_lookup_alter_ne in Hi by congruence.
      unfold well_formed in Hwf. rewrite Forall_forall in Hwf.
      specialize (Hwf n (list_elem_of_lookup_2 _ _ _ Hi)).
      eapply Forall_impl; [exact Hwf|]. cbn. intros. lia. }
  rewrite without_child_fresh.
  2:{ rewrite <- app_assoc. cbn [app].
      apply Forall_app. split; [|repeat constructor].
      eapply Forall_impl; [exact Hwf1|]. intros n Hn.
      eapply Forall_impl; [exact Hn|]. cbn. intros. lia. }
  rewrite <- app_assoc. cbn [app].
  rewrite alter_app_r_alt, Hlen1, Nat.sub_diag by lia.
  cbn [alter list_alter app]. unfold with_child at 1.
  cbn [tagName attributes childNodes app].
  pose proof (save_topics_run (topics self)
                (doc1 ++ [mkNode "websocket_client"
                            [("address", address self); ("port", number (port self))]
                            [length doc + 1]])
                [] []) as Hrun.
  rewrite length_app in Hrun. cbn [length] in Hrun. rewrite Hlen1 in Hrun.
  rewrite <- !app_assoc in Hrun. cbn [app] in Hrun.
  rewrite Hrun.
  - unfold saved. fold doc1. cbn [app].
    replace (length doc + 1 + 1 + 0) with (length doc + 2) by lia. reflexivity.
  - apply Forall_app. split; [|repeat constructor; lia].
    eapply Forall_impl; [exact Hwf1|]. intros n Hn.
    eapply Forall_impl; [exact Hn|]. cbn. intros. lia.
  - constructor.
Qed.

Lemma load_topics_saved doc (names : list QString) :
  forall first acc,
    (forall i name, names !! i = Some name -> doc !! (first + i) = Some (topic_node name)) ->
    load_topics doc (seq first (length names)) acc
    = acc ++ List.filter (fun name => negb (isEmpty name)) names.
Proof.
  induction names as [|name names IH]; intros first acc H.
  - cbn. now rewrite app_nil_r.
  - cbn [length seq load_topics List.filter].
    pose proof (H 0 name eq_refl) as H0. rewrite Nat.add_0_r in H0.
    unfold has_tag, attribute. rewrite H0. cbn [tagName topic_node attributes].
    cbn [String.eqb Ascii.eqb Bool.eqb get_attribute default]. unfold id.
    rewrite IH.
    + destruct (negb (isEmpty name)); [|reflexivity].
      now rewrite <- app_assoc.
    + intros i n Hi. specialize (H (S i) n Hi).
      now replace (S first + i) with (first + S i) by lia.
Qed.

Lemma find_none_app {A} (f : A -> bool) l x :
  List.find f l = None -> f x = true -> List.find f (l ++ [x]) = Some x.
Proof.
  induction l as [|a l IH]; cbn; intros Hl Hx.
  - now rewrite Hx.
  - destruct (f a); [discriminate|]. auto.
Qed.

Lemma find_ext_in {A} (f g : A -> bool) l :
  (forall a, In a l -> f a = g a) -> List.find f l = List.find g l.
Proof.
  induction l as [|a l IH]; cbn; intros H; [reflexivity|].
  rewrite (H a) by auto. destruct (g a); [reflexivity|]. apply IH. auto.
Qed.

(** X29. Round trip.  When the plugin element is a node of the document that
    has no [websocket_client] child yet, and the port survives being
    written as text, loading what was saved gives the saved address and
    port, and the saved topics except the empty names, whatever the
    loading object held before. *)
Theorem xml_save_then_load (self previous : WebsocketClientConfig)
        (plugin_elem : nat) (doc : QDomDocument) :
  well_formed doc ->
  plugin_elem < length doc ->
  firstChildElement "websocket_client" (Some plugin_elem) doc = None ->
  toInt (number (port self)) = port self ->
  xmlLoadState (Some plugin_elem) (xmlSaveState self (Some plugin_elem) doc) previous
  = mkConfig (address self) (port self)
             (List.filter (fun name => negb (isEmpty name)) (topics self)).
Proof.
  intros Hwf Hp Hnone Hport.
  rewrite xmlSaveState_run by assumption.
  destruct (lookup_lt_is_Some_2 doc plugin_elem Hp) as [pn Hpn].
  set (doc' := saved self plugin_elem doc).
  assert (Hlen : length (alter (with_child (length doc)) plugin_elem doc) = length doc)
    by apply length_alter.
  assert (Hcfg : doc' !! length doc
                 = Some (mkNode "websocket_client"
                           [("address", address self); ("port", number (port self))]
                           [length doc + 1])).
  { unfold doc', saved. rewrite lookup_app_r, Hlen, Nat.sub_diag by lia. reflexivity. }
  assert (Htop : doc' !! (length doc + 1)
                 = Some (mkNode "topics" [] (seq (length doc + 2) (length (topics self))))).
  { unfold doc', saved. rewrite lookup_app_r, Hlen by lia.
    replace (length doc + 1 - length doc) with 1 by lia. reflexivity. }
  assert (Hnames : forall i name,
             topics self !! i = Some name ->
             doc' !! (length doc + 2 + i) = Some (topic_node name)).
  { intros i name Hi. unfold doc', saved. rewrite lookup_app_r, Hlen by lia.
    replace (length doc + 2 + i - length doc) with (S (S i)) by lia.
    cbn [lookup list_lookup]. change (map topic_node (topics self) !! i = Some (topic_node name)).
    rewrite list_lookup_fmap_Some. eauto. }
  assert (Hplugin : doc' !! plugin_elem = Some (with_child (length doc) pn)).
  { unfold doc', saved. rewrite lookup_app_l by lia.
    rewrite list_lookup_alter_eq, Hpn. reflexivity. }
  assert (Hold : forall k, k < length doc ->
                           has_tag "websocket_client" doc' k
                           = has_tag "websocket_client" doc k).
  { intros k Hk. unfold has_tag, doc', saved. rewrite lookup_app_l by lia.
    destruct (decide (k = plugin_elem)) as [->|Hne].
    - rewrite list_lookup_alter_eq, Hpn. reflexivity.
    - now rewrite list_lookup_alter_ne by congruence. }
  assert (Hfirst : firstChildElement "websocket_client" (Some plugin_elem) doc'
                   = Some (length doc)).
  { unfold firstChildElement, children_of in Hnone |- *.
    rewrite Hplugin. rewrite Hpn in Hnone. cbn [with_child childNodes].
    apply find_none_app.
    - rewrite <- Hnone. apply find_ext_in. intros k Hk. apply Hold.
      unfold well_formed in Hwf. rewrite Forall_forall in Hwf.
      specialize (Hwf pn (list_elem_of_lookup_2 _ _ _ Hpn)).
      rewrite Forall_forall in Hwf. apply Hwf. now apply list_elem_of_In.
    - unfold has_tag. rewrite Hcfg. reflexivity. }
  unfold xmlLoadState. rewrite Hfirst.
  unfold attribute. rewrite Hcfg. cbn [attributes get_attribute String.eqb Ascii.eqb
                                       Bool.eqb default].
  assert (Htopics : firstChildElement "topics" (Some (length doc)) doc'
                    = Some (length doc + 1)).
  { unfold firstChildElement, children_of. rewrite Hcfg. cbn [childNodes List.find].
    unfold has_tag. rewrite Htop. reflexivity. }
  rewrite Htopics. unfold children_of. rewrite Htop. cbn [childNodes].
  rewrite (load_topics_saved doc' (topics self) (length doc + 2) [] Hnames).
  unfold id. rewrite Hport. reflexivity.
Qed.

End Persistence.

(* --------------------------------------------------------------------- *)
(** ** A concrete instance                                                *)
(* --------------------------------------------------------------------- *)

(** The decimal text of an [int], and back: 0 for a text that is no number
    or does not fit an [int]. *)
Definition number_decimal (z : Z) : QString := NilZero.string_of_int (Z.to_int z).

Definition toInt_decimal (s : QString) : Z :=
  match NilZero.int_of_string s with
  | Some d =>
      let z := Z.of_int d in
      if (- 2 ^ 31 <=? z)%Z && (z <? 2 ^ 31)%Z then z else 0%Z
  | None => 0%Z
  end.

(** A layout with the element of this plugin, still empty. *)
Definition layout : QDomDocument :=
  [mkNode "plugin" [("ID", "WebSocket Client")] []].

Definition streaming : WebsocketClientConfig :=
  mkConfig "10.0.0.7" 9871 ["/a"; ""; "/b"].

Example saved_layout :
  xmlSaveState number_decimal streaming (Some 0) layout
  = [mkNode "plugin" [("ID", "WebSocket Client")] [1];
     mkNode "websocket_client" [("address", "10.0.0.7"); ("port", "9871")] [2];
     mkNode "topics" [] [3; 4; 5];
     mkNode "topic" [("name", "/a")] [];
     mkNode "topic" [("name", "")] [];
     mkNode "topic" [("name", "/b")] []].
Proof. reflexivity. Qed.

Lemma xml_save_then_load_witness :
  (well_formed layout
   /\ 0 < length layout
   /\ firstChildElement "websocket_client" (Some 0) layout = None
   /\ toInt_decimal (number_decimal (port streaming)) = port streaming)
  /\ xmlLoadState toInt_decimal (Some 0)
                  (xmlSaveState number_decimal streaming (Some 0) layout)
                  (mkConfig "127.0.0.1" 8080 [])
     = mkConfig "10.0.0.7" 9871 ["/a"; "/b"].
Proof.
  assert (Hwf : well_formed layout) by (repeat constructor).
  assert (Hp : 0 < length layout) by (cbn; lia).
  split; [repeat split; try reflexivity; assumption|].
  exact (xml_save_then_load number_decimal toInt_decimal streaming
           (mkConfig "127.0.0.1" 8080 []) 0 layout Hwf Hp eq_refl eq_refl).
Defined.

(** An element that holds a [websocket_client] child already: what is
    saved comes after it, and loading reads the old one. *)
Example load_reads_first_child :
  let old := xmlSaveState number_decimal (mkConfig "127.0.0.1" 8080 []) (Some 0) layout in
  xmlLoadState toInt_decimal (Some 0) (xmlSaveState number_decimal streaming (Some 0) old)
               streaming
  = mkConfig "127.0.0.1" 8080 [].
Proof. reflexivity. Qed.

End WsConfig.

(* ===================================================================== *)
(** * The topic dialog (websocket_dialog.cpp)                             *)
(* ===================================================================== *)

Module WsDialog.

Abbreviation QString := string (only parsing).

Definition isEmpty (s : QString) : bool :=
  match s with EmptyString => true | _ => false end.

(** A top-level item of the topic list ([QTreeWidgetItem]): the texts of
    its two columns, whether it is selected, whether it is hidden. *)
Record Item := mkItem {
  text0 : QString;
  text1 : QString;
  isSelected : bool;
  isHidden : bool
}.

Definition setHidden (hide : bool) (it : Item) : Item :=
  mkItem (text0 it) (text1 it) (isSelected it) hide.

(** The widgets the functions below read and write: the items of
    [ui->topicsList] from top to bottom and the text of
    [ui->lineEditFilter]. *)
Record Dialog := mkDialog {
  topicsList : list Item;
  lineEditFilter : QString
}.

(** [QTreeWidget::selectedItems()]: the selected items that are not
    hidden.  They are taken from top to bottom; [setTopics] only asks
    which names are among them. *)
Definition selectedItems (view : list Item) : list Item :=
  List.filter (fun it => isSelected it && negb (isHidden it)) view.

(** [bool hasSelection() const]. *)
Definition hasSelection (d : Dialog) : bool :=
  negb (match selectedItems (topicsList d) with [] => true | _ => false end).

(** [QStringList selectedTopicNames() const]. *)
Definition selectedTopicNames (d : Dialog) : list QString :=
  fold_left (fun names it =>
               let name := text0 it in
               if negb (isEmpty name) then names ++ [name] else names)
            (selectedItems (topicsList d)) [].

(** [std::vector<TopicInfo> selectedTopics() const]. *)
Definition selectedTopics (d : Dialog) : list Ws.TopicInfo :=
  fold_left (fun result it =>
               let name := text0 it in
               if isEmpty name then result
               else result ++ [Ws.mkTopic name (text1 it) EmptyString EmptyString
                                          EmptyString])
            (selectedItems (topicsList d)) [].

(** [void clearTopics()]. *)
Definition clearTopics (d : Dialog) : Dialog := mkDialog [] (lineEditFilter d).

Section Filter.

(** [QString::trimmed], [QString::toLower] and [QString::contains]. *)
Variable trimmed : QString -> QString.
Variable toLower : QString -> QString.
Variable contains : QString -> QString -> bool.

(** The body of the loop of [applyFilter], for one item. *)
Definition filter_item (fl : QString) (it : Item) : Item :=
  let selected := isSelected it in
  if isEmpty fl then setHidden false it
  else
    let name := toLower (text0 it) in
    let type := toLower (text1 it) in
    let matches := contains name fl || contains type fl in
    setHidden (negb (matches || selected)) it.

(** [void applyFilter(const QString& filter)]. *)
Definition applyFilter (filter : QString) (d : Dialog) : Dialog :=
  let fl := toLower (trimmed filter) in
  mkDialog (map (filter_item fl) (topicsList d)) (lineEditFilter d).

(** The first loop of [setTopics]: the persisted names, then the names of
    the selected items that are not among them yet. *)
Definition wanted_names (preselectNames : list QString) (view : list Item)
  : list QString :=
  fold_left (fun wanted it =>
               let n := text0 it in
               if negb (bool_decide (n ∈ wanted)) then wanted ++ [n] else wanted)
            (selectedItems view) preselectNames.

(** The body of the second loop of [setTopics]: entries that are not
    objects or have no name are passed over; a new item is the last of the
    list, shown and not selected until it is set selected. *)
Definition add_topic (wanted : list QString) (view : list Item) (v : Ws.Json)
  : list Item :=
  if negb (Ws.isObject v) then view
  else
    let t := Ws.toObject v in
    let name := Ws.toString (Ws.value t "name") EmptyString in
    let type := Ws.toString (Ws.value t "type") EmptyString in
    if isEmpty name then view
    else view ++ [mkItem name type (bool_decide (name ∈ wanted)) false].

(** [void setTopics(const QJsonArray& topics, const QStringList&
    preselectNames)], without the scroll position and the repaint
    switches, which touch neither the items nor the filter. *)
Definition setTopics (topics : list Ws.Json) (preselectNames : list QString)
           (d : Dialog) : Dialog :=
  let wanted := wanted_names preselectNames (topicsList d) in
  let view := fold_left (add_topic wanted) topics [] in
  applyFilter (lineEditFilter d) (mkDialog view (lineEditFilter d)).

(* --------------------------------------------------------------------- *)
(** ** Selection across a refresh of the topic list                       *)
(* --------------------------------------------------------------------- *)

Lemma wanted_names_fold (items : list Item) :
  forall wanted n,
    n ∈ fold_left (fun wanted it =>
                     let n := text0 it in
                     if negb (bool_decide (n ∈ wanted)) then wanted ++ [n] else wanted)
                  items wanted
    <-> n ∈ wanted \/ n ∈ map text0 items.
Proof.
  induction items as [|it items IH]; intros wanted n; cbn [fold_left map].
  - rewrite elem_of_nil. tauto.
  - rewrite IH, elem_of_cons. case_bool_decide as Hin; cbn [negb].
    + split; [tauto|]. intros [H|[->|H]]; auto.
    + rewrite elem_of_app, list_elem_of_singleton. tauto.
Qed.

Lemma names_fold (items : list Item) :
  forall names,
    fold_left (fun names it =>
                 let name := text0 it in
                 if negb (isEmpty name) then names ++ [name] else names)
              items names
    = names ++ List.filter (fun name => negb (isEmpty name)) (map text0 items).
Proof.
  induction items as [|it items IH]; intros names; cbn [fold_left map List.filter].
  - now rewrite app_nil_r.
  - rewrite IH. destruct (negb (isEmpty (text0 it))); [|reflexivity].
    now rewrite <- app_assoc.
Qed.

Lemma elem_of_selected_names (items : list Item) (n : QString) :
  n ∈ map text0 (selectedItems items)
  <-> exists it, it ∈ items /\ text0 it = n
                 /\ isSelected it = true /\ isHidden it = false.
Proof.
  unfold selectedItems. rewrite list_elem_of_In, in_map_iff. split.
  - intros [it [<- Hit]]. apply filter_In in Hit as [Hit Hs].
    apply andb_true_iff in Hs as [Hs Hh]. apply negb_true_iff in Hh.
    exists it. rewrite list_elem_of_In. auto.
  - intros (it & Hit & <- & Hs & Hh). exists it. split; [reflexivity|].
    apply filter_In. rewrite <- list_elem_of_In. split; [assumption|].
    now rewrite Hs, Hh.
Qed.

Lemma selectedTopicNames_elem (d : Dialog) (n : QString) :
  n ∈ selectedTopicNames d
  <-> n <> EmptyString
      /\ exists it, it ∈ topicsList d /\ text0 it = n
                    /\ isSelected it = true /\ isHidden it = false.
Proof.
  unfold selectedTopicNames. rewrite names_fold. cbn [app].
  rewrite <- elem_of_selected_names.
  rewrite !list_elem_of_In, filter_In.
  destruct n; cbn [isEmpty negb]; split; intros []; split;
    congruence || assumption || discriminate.
Qed.

(** The item [setTopics] makes of an entry of the topic array. *)
Definition listed (wanted : list QString) (v : Ws.Json) : option Item :=
  if negb (Ws.isObject v) then None
  else
    let name := Ws.toString (Ws.value (Ws.toObject v) "name") EmptyString in
    if isEmpty name then None
    else Some (mkItem name (Ws.toString (Ws.value (Ws.toObject v) "type") EmptyString)
                      (bool_decide (name ∈ wanted)) false).

Lemma add_topic_fold wanted (topics : list Ws.Json) :
  forall view,
    fold_left (add_topic wanted) topics view = view ++ omap (listed wanted) topics.
Proof.
  induction topics as [|v topics IH]; intros view; cbn [fold_left omap list_omap].
  - now rewrite app_nil_r.
  - rewrite IH. unfold add_topic, listed.
    destruct (negb (Ws.isObject v)); [reflexivity|].
    destruct (isEmpty _); [reflexivity|]. now rewrite <- app_assoc.
Qed.

Lemma filter_item_keeps fl it :
  text0 (filter_item fl it) = text0 it
  /\ text1 (filter_item fl it) = text1 it
  /\ isSelected (filter_item fl it) = isSelected it
  /\ (isSelected it = true -> isHidden (filter_item fl it) = false).
Proof.
  unfold filter_item. destruct (isEmpty fl); cbn; repeat split; auto.
  intros ->. now rewrite orb_true_r.
Qed.

Lemma setTopics_selection (topics : list Ws.Json) (preselectNames : list QString)
      (d : Dialog) (n : QString) :
  n ∈ selectedTopicNames (setTopics topics preselectNames d)
  <-> n ∈ map text0 (topicsList (setTopics topics preselectNames d))
      /\ (n ∈ preselectNames \/ n ∈ selectedTopicNames d).
Proof.
  rewrite selectedTopicNames_elem. unfold setTopics, applyFilter.
  cbn [topicsList]. rewrite add_topic_fold. cbn [app].
  set (wanted := wanted_names preselectNames (topicsList d)).
  set (fl := toLower (trimmed (lineEditFilter d))).
  assert (Hw : forall m, m <> EmptyString ->
                         (m ∈ wanted <-> m ∈ preselectNames \/ m ∈ selectedTopicNames d)).
  { intros m Hm. unfold wanted, wanted_names. rewrite wanted_names_fold.
    rewrite selectedTopicNames_elem, elem_of_selected_names. tauto. }
  assert (Hl : forall it, it ∈ omap (listed wanted) topics ->
                          text0 it <> EmptyString
                          /\ isSelected it = bool_decide (text0 it ∈ wanted)).
  { intros it Hit. apply list_elem_of_omap in Hit as (v & _ & Hv).
    unfold listed in Hv. destruct (negb (Ws.isObject v)); [discriminate|].
    destruct (Ws.toString _ _) as [|a s] eqn:E; [discriminate|].
    cbn [isEmpty] in Hv. injection Hv as <-. cbn. split; [discriminate|reflexivity]. }
  split.
  - intros [Hne (it' & Hit' & <- & Hs & Hh)].
    apply list_elem_of_fmap in Hit' as (it & -> & Hit).
    destruct (filter_item_keeps fl it) as (E0 & E1 & Es & _).
    rewrite E0 in *. rewrite Es in Hs.
    destruct (Hl it Hit) as [Hn Hsel]. split.
    + rewrite <- list_fmap_compose. apply list_elem_of_fmap.
      exists it. cbn. now rewrite E0.
    + apply Hw; [assumption|]. rewrite Hsel in Hs. now apply bool_decide_eq_true in Hs.
  - intros [Hin Hwanted].
    rewrite <- list_fmap_compose in Hin.
    apply list_elem_of_fmap in Hin as (it & -> & Hit). cbn in *.
    destruct (filter_item_keeps fl it) as (E0 & E1 & Es & Eh).
    rewrite E0 in *. destruct (Hl it Hit) as [Hn Hsel].
    assert (Hs : isSelected it = true).
    { rewrite Hsel. apply bool_decide_eq_true. now apply Hw. }
    split; [assumption|]. exists (filter_item fl it).
    split; [apply list_elem_of_fmap; eauto|]. rewrite Es. auto.
Qed.

(** X30. Selection survives a refresh.  After [setTopics], a name is among the
    selected topic names exactly when it is the name of a listed item and
    was either passed as preselected or among the selected topic names
    before; the listed items are the entries of the array that are objects
    with a non-empty name, in their order; and no selected item is
    hidden, whatever the filter. *)
Theorem setTopics_restores_selection
        (topics : list Ws.Json) (preselectNames : list QString) (d : Dialog) :
  let d' := setTopics topics preselectNames d in
  (forall n, n ∈ selectedTopicNames d'
             <-> n ∈ map text0 (topicsList d')
                 /\ (n ∈ preselectNames \/ n ∈ selectedTopicNames d))
  /\ map (fun it => (text0 it, text1 it)) (topicsList d')
     = omap (fun v =>
               if Ws.isObject v
               then
                 let name := Ws.toString (Ws.value (Ws.toObject v) "name") EmptyString in
                 if isEmpty name then None
                 else Some (name,
                            Ws.toString (Ws.value (Ws.toObject v) "type") EmptyString)
               else None) topics
  /\ Forall (fun it => isSelected it = true -> isHidden it = false) (topicsList d')
  /\ lineEditFilter d' = lineEditFilter d.
Proof.
  cbn zeta. split; [intros n; apply setTopics_selection|].
  unfold setTopics, applyFilter. cbn [topicsList lineEditFilter].
  rewrite add_topic_fold. cbn [app]. split; [|split; [|reflexivity]].
  - induction topics as [|v topics IH]; [reflexivity|].
    cbn [omap list_omap]. unfold listed at 1.
    destruct (Ws.isObject v); cbn [negb]; [|exact IH].
    destruct (isEmpty _) eqn:E; [exact IH|].
    cbn [map]. rewrite IH. f_equal.
    match goal with |- context [filter_item ?fl ?it] =>
      destruct (filter_item_keeps fl it) as (E0 & E1 & _) end.
    rewrite E0, E1. reflexivity.
  - apply Forall_forall. intros it' Hit'.
    apply list_elem_of_fmap in Hit' as (it & -> & _).
    destruct (filter_item_keeps (toLower (trimmed (lineEditFilter d))) it)
      as (_ & _ & Es & Eh).
    rewrite Es. exact Eh.
Qed.

(** The filter hides nothing that is selected, changes no text and no
    selection, and shows everything when it is blank; applying it twice is
    applying it once. *)
Lemma applyFilter_keeps_selection (filter : QString) (d : Dialog) :
  let d' := applyFilter filter d in
  selectedTopicNames d'
  = List.filter (fun name => negb (isEmpty name))
                (map text0 (List.filter isSelected (topicsList d)))
  /\ (toLower (trimmed filter) = EmptyString ->
      Forall (fun it => isHidden it = false) (topicsList d'))
  /\ applyFilter filter d' = d'.
Proof.
  cbn zeta. unfold applyFilter, selectedTopicNames, selectedItems.
  cbn [topicsList lineEditFilter]. rewrite names_fold. cbn [app].
  set (fl := toLower (trimmed filter)). split; [|split].
  - f_equal. induction (topicsList d) as [|it items IH]; [reflexivity|].
    cbn [map List.filter]. destruct (filter_item_keeps fl it) as (E0 & _ & Es & Eh).
    rewrite Es. destruct (isSelected it) eqn:E.
    + rewrite (Eh eq_refl). cbn [negb andb map]. now rewrite E0, IH.
    + cbn [andb]. exact IH.
  - intros Hfl. apply Forall_forall. intros it' Hit'.
    apply list_elem_of_fmap in Hit' as (it & -> & _).
    unfold filter_item. now rewrite Hfl.
  - f_equal. rewrite <- list_fmap_compose. apply list_fmap_ext.
    intros _ it _. cbn. unfold filter_item. destruct (isEmpty fl); [reflexivity|].
    cbn. reflexivity.
Qed.

End Filter.

(* --------------------------------------------------------------------- *)
(** ** A concrete instance                                                *)
(* --------------------------------------------------------------------- *)

(** Lower-case text without blanks around it, so that [trimmed] and
    [toLower] leave it as it is; [contains] looks for the text anywhere. *)
Definition contains_text (s part : QString) : bool :=
  match String.index 0 part s with Some _ => true | None => false end.

(** [/imu] is selected and [/odom] is not; the filter reads [cam]. *)
Definition before_refresh : Dialog :=
  mkDialog [mkItem "/imu" "sensor_msgs/msg/Imu" true false;
            mkItem "/odom" "nav_msgs/msg/Odometry" false false]
           "cam".

(** The server now offers [/imu], [/camera] and [/tf]; two entries of the
    array are no topics. *)
Definition offered : list Ws.Json :=
  [Ws.JObject [("name", Ws.JString "/imu"); ("type", Ws.JString "sensor_msgs/msg/Imu")];
   Ws.JNumber (Some 17%Z);
   Ws.JObject [("name", Ws.JString "/camera"); ("type", Ws.JString "sensor_msgs/msg/Image")];
   Ws.JObject [("name", Ws.JString ""); ("type", Ws.JString "std_msgs/msg/Empty")];
   Ws.JObject [("name", Ws.JString "/tf"); ("type", Ws.JString "tf2_msgs/msg/TFMessage")]].

Example refreshed :
  setTopics (fun s => s) (fun s => s) contains_text offered ["/tf"; "/gone"] before_refresh
  = mkDialog [mkItem "/imu" "sensor_msgs/msg/Imu" true false;
              mkItem "/camera" "sensor_msgs/msg/Image" false false;
              mkItem "/tf" "tf2_msgs/msg/TFMessage" true false]
             "cam".
Proof. vm_compute. reflexivity. Qed.

Example refreshed_names :
  selectedTopicNames
    (setTopics (fun s => s) (fun s => s) contains_text offered ["/tf"; "/gone"] before_refresh)
  = ["/imu"; "/tf"].
Proof. vm_compute. reflexivity. Qed.

Example filter_hides_unselected :
  map isHidden (topicsList (applyFilter (fun s => s) (fun s => s) contains_text "odom"
                                        before_refresh))
  = [false; false]
  /\ map isHidden (topicsList (applyFilter (fun s => s) (fun s => s) contains_text "tf"
                                           before_refresh))
     = [false; true].
Proof. split; vm_compute; reflexivity. Qed.

End WsDialog.
